(** * Billing migrator (MongoDB to MySQL): model and verified properties

    A shallow embedding of [main.go] and [models/models.go].  Go values are
    modelled as follows: [int] as [Z] with 64-bit wrap-around on increments,
    [string] as [string], a nilable pointer as [option], [time.Time] as an
    instant with a zone offset, [map[string]interface{}] as a finite map of
    dynamically typed values, and the two stores as explicit state that is
    threaded through a small state monad.

    The libraries the program calls are modelled by what the program relies
    on.  The source database is read only: a collection is the outcome of
    [Find] together with the outcome of decoding each document.  The
    destination is a map from table names to rows; the keys of a table are
    those of the struct tags ([primaryKey], [uniqueIndex]); an insert fails on
    a key that is already stored, an insert with [OnConflict{DoNothing}] then
    does nothing, and [AutoMigrate] creates the missing tables and keeps the
    others.  Any call to the destination may also fail by itself (connection,
    privilege, timeout), as told by a list of outcomes carried by the state.
    [time.Parse] is a parameter. *)

From Stdlib Require Import ZArith String Ascii List Bool Lia PrimFloat.
From stdpp Require Import base option list strings gmap fin_maps.

Local Open Scope string_scope.
Local Open Scope Z_scope.

(** ** Machine integers *)

(** Go's [int] on the 64-bit targets: a two's complement 64-bit integer. *)
Definition wrap64 (z : Z) : Z := (z + 2 ^ 63) mod 2 ^ 64 - 2 ^ 63.

(** [x++] on an [int]. *)
Definition incr (x : Z) : Z := wrap64 (x + 1).

(** ** time.Time *)

(** A [time.Time] of the Go standard library: an instant, kept as the seconds
    elapsed since January 1 of year 1, 00:00:00 UTC, plus nanoseconds, and the
    offset (seconds east of UTC) of the value's location at that instant. *)
Record Time : Type := mkTime {
  sec : Z;
  nsec : Z;
  offset : Z
}.

(** [t.IsZero()]: the instant is January 1, year 1, 00:00:00 UTC. *)
Definition IsZero (t : Time) : bool := (sec t =? 0) && (nsec t =? 0).

(** Days since January 1 of year 1 in the value's location. *)
Definition absDays (t : Time) : Z := (sec t + offset t) / 86400.

(** The year of a day number in the proleptic Gregorian calendar, by
    cutting off 400-year, 100-year, 4-year and 1-year cycles. *)
Definition yearOfDays (d : Z) : Z :=
  let n400 := d / 146097 in
  let d1 := d - 146097 * n400 in
  let n100 := d1 / 36524 in
  let n100 := n100 - Z.shiftr n100 2 in
  let d2 := d1 - 36524 * n100 in
  let n4 := d2 / 1461 in
  let d3 := d2 - 1461 * n4 in
  let n1 := d3 / 365 in
  let n1 := n1 - Z.shiftr n1 2 in
  400 * n400 + 100 * n100 + 4 * n4 + n1 + 1.

(** [t.Year()]. *)
Definition Year (t : Time) : Z := yearOfDays (absDays t).

(** Seconds between year 1 and the Unix epoch. *)
Definition unixToInternal : Z := (1969 * 365 + 1969 / 4 - 1969 / 100 + 1969 / 400) * 86400.

(** [time.Unix(s, ns).UTC()]. *)
Definition Unix (s ns : Z) : Time := mkTime (s + unixToInternal) ns 0.

(** ** validateDateTime *)

(** [validateDateTime]: a nil result is [None]; [&t] is [Some t]. *)
Definition validateDateTime (t : Time) : option Time :=
  if IsZero t || (Year t <? 1970) || (Year t >? 2100) || (Year t =? 0)
  then None
  else Some t.

(** ** Identifiers, floats and dynamically typed values *)

(** [primitive.ObjectID]: the twelve bytes of a document identifier. *)
Definition ObjectID : Type := list Byte.byte.

Definition hexDigit (n : N) : ascii :=
  match String.get (N.to_nat n) "0123456789abcdef" with
  | Some c => c
  | None => "0"%char
  end.

Definition hexByte (b : Byte.byte) : string :=
  let n := Byte.to_N b in
  String (hexDigit (n / 16)) (String (hexDigit (n mod 16)) EmptyString).

(** [id.Hex()]: two lower-case hexadecimal digits per byte. *)
Definition Hex (id : ObjectID) : string := String.concat "" (map hexByte id).

(** [float64]; the migrators only copy such values. *)
Definition float64 : Type := PrimFloat.float.

(** A value held in an [interface{}] after decoding a BSON document. *)
Inductive Value : Type :=
| VNil
| VBool (b : bool)
| VInt (z : Z)
| VDouble (f : float64)
| VString (s : string)
| VTime (t : Time)
| VDateTime (ms : Z)
| VObjectID (id : ObjectID).

(** [map[string]interface{}]. *)
Abbreviation Document := (gmap string Value).

(** [v, ok := m[k].(string)]: a missing key yields the nil interface, on
    which the assertion fails as on any value that is not a string. *)
Definition assertString (m : Document) (k : string) : option string :=
  match m !! k with
  | Some (VString s) => Some s
  | _ => None
  end.

(** [v, ok := m[k].(time.Time)]. *)
Definition assertTime (m : Document) (k : string) : option Time :=
  match m !! k with
  | Some (VTime t) => Some t
  | _ => None
  end.

(** ** Errors and log lines *)

(** An argument of a format verb other than the wrapped error. *)
Inductive Arg : Type :=
| AStr (s : string)
| AInt (z : Z)
| ABool (b : bool).

(** Failures raised by the two drivers. *)
Inductive Failure : Type :=
| Unavailable        (* the call itself failed: connection, timeout, privilege *)
| DuplicateEntry     (* a primary key or unique index is violated *)
| NoSuchTable        (* the table does not exist *)
| Malformed.         (* a document does not decode, a value does not parse *)

(** Go [error] values: driver errors, and [fmt.Errorf(format, args..., err)]
    whose format ends in [%w], kept as its format, arguments and cause. *)
Inductive error : Type :=
| Driver (f : Failure)
| Errorf (format : string) (args : list Arg) (cause : error).

(** [errors.Unwrap]. *)
Definition Unwrap (e : error) : option error :=
  match e with
  | Driver _ => None
  | Errorf _ _ cause => Some cause
  end.

(** A [log.Printf] call: format, plain arguments, and the error printed by a
    trailing [%v] when there is one. *)
Record LogLine : Type := Printed {
  line_format : string;
  line_args : list Arg;
  line_error : option error
}.

(** ** MySQL models ([models.go])

    One module per struct; [TableName] is the struct's method of that name. *)

Module Service.
Record t : Type := mk {
  ID : string;            (* primaryKey *)
  CreatedAt : Time;
  Name : string;
  Code : string           (* uniqueIndex *)
}.
Definition TableName : string := "services".
End Service.

Module Organization.
Record t : Type := mk {
  ID : string;            (* primaryKey *)
  CreatedAt : Time;
  UpdatedAt : Time;
  DeletedAt : option Time;
  IsDeleted : bool;
  Name : string;
  Inn : option string;
  Pinfl : option string;
  Balance : float64;
  FiscalizationBalance : float64;
  ReservedFiscalizationBalance : float64;
  TotalPayments : float64;
  CreditAmount : float64;
  OrganizationCode : string;
  ReferralAgentCode : option string;
  WhiteLabel : string;
  OfferNumber : string;
  OfferDate : option Time
}.
Definition TableName : string := "organizations".
End Organization.

Module OrganizationServiceDemoUses.
Record t : Type := mk {
  OrganizationId : string;
  ServiceCode : string;
  UsedAt : Time
}.
Definition TableName : string := "organization_service_demo_uses".
End OrganizationServiceDemoUses.

Module Package.
Record t : Type := mk {
  ID : string;            (* primaryKey *)
  CreatedAt : Time;
  IsDeleted : bool;
  Name : string;
  Price : float64;
  BRVRate : float64;
  DurationDays : Z;
  DurationMonths : Z;
  IsDemo : bool;
  IsPublic : bool;
  ServiceCode : string;
  DefaultSetOnNewOrganization : bool
}.
Definition TableName : string := "packages".
End Package.

Module PackageItem.
Record t : Type := mk {
  ID : string;            (* primaryKey *)
  PackageId : string;
  Name : string;
  Code : Z;
  IsOverLimitAllowed : bool;
  OverLimitPrice : float64;
  BRVRate : float64;
  IsUnlimited : bool;
  Limit : Z
}.
Definition TableName : string := "package_items".
End PackageItem.

Module PackageActivationBonusPackage.
Record t : Type := mk {
  PackageId : string;
  BonusPackageId : string
}.
Definition TableName : string := "package_activation_bonus_packages".
End PackageActivationBonusPackage.

Module BoughtPackage.
Record t : Type := mk {
  ID : string;            (* primaryKey *)
  OrganizationId : string;
  PackageId : string;
  BoughtAt : Time;
  ExpiresAt : Time;
  IsAutoExtend : bool;
  IsActive : bool;
  Price : float64
}.
Definition TableName : string := "bought_packages".
End BoughtPackage.

Module BoughtPackageItem.
Record t : Type := mk {
  ID : string;            (* primaryKey *)
  BoughtPackageId : string;
  Name : string;
  Code : Z;
  IsOverLimitAllowed : bool;
  OverLimitPrice : float64;
  IsUnlimited : bool;
  LimitValue : Z;
  UsedCount : Z
}.
Definition TableName : string := "bought_package_items".
End BoughtPackageItem.

Module Charge.
Record t : Type := mk {
  ID : string;            (* primaryKey *)
  CreatedAt : Time;
  IsDeleted : bool;
  OrganizationId : string;
  Price : float64;
  Type_ : Z;              (* the Go field [Type] *)
  BoughtPackageID : string;
  BoughtPackageItemCode : Z;
  ServiceCode : string;
  ObjectId : string;
  Number : string;
  Date1 : option Time;
  Date2 : option Time
}.
Definition TableName : string := "charges".
End Charge.

Module Payment.
Record t : Type := mk {
  ID : string;            (* primaryKey *)
  CreatedAt : Time;
  Amount : float64;
  OrganizationID : string;
  AccountID : string;
  Method : Z;
  BankTransactionID : option string
}.
Definition TableName : string := "payments".
End Payment.

Module PaymeTransaction.
Record t : Type := mk {
  ID : string;            (* primaryKey *)
  CreatedAt : Time;
  PaymeTransactionID : string;
  PaymeCreatedAt : Time;
  SystemCompletedAt : option Time;
  State : Z;
  Amount : float64;
  PaymentId : option string;
  OrganizationID : string;
  Reason : Z;
  SystemCanceledAt : option Time
}.
Definition TableName : string := "payme_transactions".
End PaymeTransaction.

Module OrganizationBalanceBinding.
Record t : Type := mk {
  ID : string;            (* primaryKey *)
  CreatedAt : Time;
  DeletedAt : option Time;
  IsDeleted : bool;
  PayerOrganizationID : string;
  TargetOrganizationID : string;
  PayerOrganizationName : string;
  TargetOrganizationName : string
}.
Definition TableName : string := "organization_balance_bindings".
End OrganizationBalanceBinding.

Module CreditUpdates.
Record t : Type := mk {
  ID : string;            (* primaryKey *)
  CreatedAt : Time;
  OrganizationID : string;
  Amount : float64;
  AccountID : string
}.
Definition TableName : string := "credit_updates".
End CreditUpdates.

Module BankPaymentAutoApplyError.
Record t : Type := mk {
  ID : string;            (* primaryKey *)
  CreatedAt : Time;
  ErrorMessage : string;
  Amount : float64;
  TransactionID : string;
  PayerInn : string;
  PayerName : string;
  Description : option string;
  Resolved : bool
}.
Definition TableName : string := "bank_payments_auto_apply_errors".
End BankPaymentAutoApplyError.

(** A value handed to gorm: one of the fourteen models. *)
Inductive Row : Type :=
| RService (r : Service.t)
| ROrganization (r : Organization.t)
| ROrganizationServiceDemoUses (r : OrganizationServiceDemoUses.t)
| RPackage (r : Package.t)
| RPackageItem (r : PackageItem.t)
| RPackageActivationBonusPackage (r : PackageActivationBonusPackage.t)
| RBoughtPackage (r : BoughtPackage.t)
| RBoughtPackageItem (r : BoughtPackageItem.t)
| RCharge (r : Charge.t)
| RPayment (r : Payment.t)
| RPaymeTransaction (r : PaymeTransaction.t)
| ROrganizationBalanceBinding (r : OrganizationBalanceBinding.t)
| RCreditUpdates (r : CreditUpdates.t)
| RBankPaymentAutoApplyError (r : BankPaymentAutoApplyError.t).

(** The table a model is stored in. *)
Definition TableName (r : Row) : string :=
  match r with
  | RService _ => Service.TableName
  | ROrganization _ => Organization.TableName
  | ROrganizationServiceDemoUses _ => OrganizationServiceDemoUses.TableName
  | RPackage _ => Package.TableName
  | RPackageItem _ => PackageItem.TableName
  | RPackageActivationBonusPackage _ => PackageActivationBonusPackage.TableName
  | RBoughtPackage _ => BoughtPackage.TableName
  | RBoughtPackageItem _ => BoughtPackageItem.TableName
  | RCharge _ => Charge.TableName
  | RPayment _ => Payment.TableName
  | RPaymeTransaction _ => PaymeTransaction.TableName
  | ROrganizationBalanceBinding _ => OrganizationBalanceBinding.TableName
  | RCreditUpdates _ => CreditUpdates.TableName
  | RBankPaymentAutoApplyError _ => BankPaymentAutoApplyError.TableName
  end.

(** The [id] column, which is the primary key of every model that has one;
    the two link tables have neither. *)
Definition primaryKey (r : Row) : option string :=
  match r with
  | RService r => Some (Service.ID r)
  | ROrganization r => Some (Organization.ID r)
  | ROrganizationServiceDemoUses _ => None
  | RPackage r => Some (Package.ID r)
  | RPackageItem r => Some (PackageItem.ID r)
  | RPackageActivationBonusPackage _ => None
  | RBoughtPackage r => Some (BoughtPackage.ID r)
  | RBoughtPackageItem r => Some (BoughtPackageItem.ID r)
  | RCharge r => Some (Charge.ID r)
  | RPayment r => Some (Payment.ID r)
  | RPaymeTransaction r => Some (PaymeTransaction.ID r)
  | ROrganizationBalanceBinding r => Some (OrganizationBalanceBinding.ID r)
  | RCreditUpdates r => Some (CreditUpdates.ID r)
  | RBankPaymentAutoApplyError r => Some (BankPaymentAutoApplyError.ID r)
  end.

(** The only unique index besides the primary keys: [services.code]. *)
Definition uniqueKey (r : Row) : option string :=
  match r with
  | RService r => Some (Service.Code r)
  | _ => None
  end.

(** ** MongoDB documents

    The structs the cursors decode into.  The structs declared inline in
    [main.go] are named after their collection; embedded anonymous structs
    of the same shape share one record. *)

(** [struct { ID; Name; Inn }], an embedded organization. *)
Module OrgRef.
Record t : Type := mk { ID : ObjectID; Name : string; Inn : string }.
End OrgRef.

(** [struct { ID; Name; Username }], an embedded account. *)
Module AccountRef.
Record t : Type := mk { ID : ObjectID; Name : string; Username : string }.
End AccountRef.

(** [struct { ID; Name; Code }], an embedded service. *)
Module ServiceRef.
Record t : Type := mk { ID : ObjectID; Name : string; Code : string }.
End ServiceRef.

Module mongoService.
Record t : Type := mk {
  ID : ObjectID;
  CreatedAt : Time;
  Name : string;
  Code : string
}.
End mongoService.

Module mongoPackageItem.
Record t : Type := mk {
  Name : string;
  Code : Z;
  IsOverLimitAllowed : bool;
  OverLimitPrice : float64;
  BRVRate : float64;
  IsUnlimited : bool;
  Limit : Z
}.
End mongoPackageItem.

Module mongoPackage.
Record t : Type := mk {
  ID : ObjectID;
  CreatedAt : Time;
  UpdatedAt : Time;
  DeletedAt : option Time;
  IsDeleted : bool;
  Name : string;
  Price : float64;
  BRVRate : float64;
  DurationDays : Z;
  DurationMonths : Z;
  IsDemo : bool;
  IsPublic : bool;
  Service : ServiceRef.t;
  Items : list mongoPackageItem.t;
  DefaultSetOnNewOrganization : bool;
  OnActivationBonusPackages : list ObjectID   (* [[]struct { ID }] *)
}.
End mongoPackage.

Module ActivePackage.
Record t : Type := mk {
  ID : string;
  BoughtAt : Time;
  ExpiresAt : Time;
  IsAutoExtend : bool;
  Package : mongoPackage.t
}.
End ActivePackage.

(** [struct { Number; Date }], the embedded offer. *)
Module OfferInfo.
Record t : Type := mk { Number : string; Date : option Time }.
End OfferInfo.

Module mongoOrganization.
Record t : Type := mk {
  ID : ObjectID;
  CreatedAt : Time;
  UpdatedAt : Time;
  DeletedAt : option Time;
  IsDeleted : bool;
  Name : string;
  Inn : option string;
  Pinfl : option string;
  Balance : float64;
  FiscalizationBalance : float64;
  ReservedFiscalizationBalance : float64;
  TotalPayments : float64;
  CreditAmount : float64;
  OrganizationCode : string;
  ReferralAgentCode : option string;
  WhiteLabel : string;
  OfferInfo : OfferInfo.t;
  ActivePackages : list ActivePackage.t;
  ServiceDemoUses : list ServiceRef.t
}.
End mongoOrganization.

Module BoughtItem.
Record t : Type := mk {
  Name : string;
  Code : Z;
  IsOverLimitAllowed : bool;
  OverLimitPrice : float64;
  IsUnlimited : bool;
  LimitValue : Z;
  UsedCount : Z
}.
End BoughtItem.

Module BoughtPackageRef.
Record t : Type := mk {
  ID : ObjectID;
  Name : string;
  Price : float64;
  IsDemo : bool;
  PackageItems : list BoughtItem.t
}.
End BoughtPackageRef.

Module mongoBoughtPackage.
Record t : Type := mk {
  ID : ObjectID;
  Organization : OrgRef.t;
  Package : BoughtPackageRef.t;
  BoughtAt : Time;
  ExpiresAt : Time;
  IsAutoExtend : bool;
  IsDeleted : bool;
  Price : float64
}.
End mongoBoughtPackage.

Module ChargePackage.
Record t : Type := mk { ID : ObjectID; Name : string; Code : Z }.
End ChargePackage.

Module ChargeItem.
Record t : Type := mk {
  Name : string;
  Code : Z;
  IsOverLimitAllowed : bool;
  OverLimitPrice : float64;
  IsUnlimited : bool;
  Limit : Z
}.
End ChargeItem.

Module mongoCharge.
Record t : Type := mk {
  ID : ObjectID;
  CreatedAt : Time;
  IsDeleted : bool;
  Organization : OrgRef.t;
  Price : float64;
  Package : ChargePackage.t;
  ServiceCode : string;                  (* [Service struct { Code }] *)
  Item : ChargeItem.t;
  EDIReturnInvoice : option Document;
  EDIAttorney : option Document;
  RoamingInvoice : option Document;
  RoamingContract : option Document;
  RoamingWaybill : option Document;
  RoamingAct : option Document;
  RoamingVerificationAct : option Document;
  RoamingEmpowerment : option Document
}.
End mongoCharge.

Module mongoPayment.
Record t : Type := mk {
  ID : ObjectID;
  CreatedAt : Time;
  Amount : float64;
  Organization : OrgRef.t;
  Account : AccountRef.t;
  Method : Z;
  BankTransactionID : option string
}.
End mongoPayment.

Module mongoPaymeTransaction.
Record t : Type := mk {
  ID : ObjectID;
  CreatedAt : Time;
  PaymeTransactionID : string;
  PaymeCreatedAt : Time;
  SystemCompletedAt : option Time;
  State : Z;
  Amount : float64;
  PaymentId : option string;
  Organization : OrgRef.t;
  Reason : Z;
  SystemCanceledAt : option Time
}.
End mongoPaymeTransaction.

Module mongoOrganizationBalanceBinding.
Record t : Type := mk {
  ID : ObjectID;
  CreatedAt : Time;
  DeletedAt : option Time;
  IsDeleted : bool;
  PayerOrganization : OrgRef.t;
  TargetOrganization : OrgRef.t
}.
End mongoOrganizationBalanceBinding.

Module mongoCreditUpdate.
Record t : Type := mk {
  ID : ObjectID;
  CreatedAt : Time;
  Organization : OrgRef.t;
  Amount : float64;
  Account : AccountRef.t
}.
End mongoCreditUpdate.

Module mongoBankPaymentAutoApplyError.
Record t : Type := mk {
  ID : ObjectID;
  CreatedAt : Time;
  ErrorMessage : string;
  Amount : float64;
  TransactionID : string;
  PayerInn : string;
  PayerName : string;
  Description : option string;
  Resolved : bool
}.
End mongoBankPaymentAutoApplyError.

(** A collection as the driver presents it: [Find] fails, or gives a cursor
    whose every document either decodes or fails to. *)
Definition Collection (A : Type) : Type := error + list (error + A).

(** [*mongo.Database], read only. *)
Record MongoDatabase : Type := {
  services : Collection mongoService.t;
  organizations : Collection mongoOrganization.t;
  packages : Collection mongoPackage.t;
  boughtPackages : Collection mongoBoughtPackage.t;
  charges : Collection mongoCharge.t;
  payments : Collection mongoPayment.t;
  paymeTransactions : Collection mongoPaymeTransaction.t;
  organizationBalanceBindings : Collection mongoOrganizationBalanceBinding.t;
  creditUpdates : Collection mongoCreditUpdate.t;
  bankPaymentsAutoApplyErrors : Collection mongoBankPaymentAutoApplyError.t
}.

(** ** The world: destination store, environment and log *)

(** The state every call runs in.  [tables] maps a table name to its rows in
    insertion order (no entry: no such table).  [faults] tells, for the
    successive calls made to the destination, whether the call itself fails
    ([true]); past its end no call fails.  [clock] and [objectIDs] are the
    successive results of [time.Now] and [primitive.NewObjectID]. *)
Record World : Type := mkWorld {
  tables : gmap string (list Row);
  faults : list bool;
  clock : nat -> Time;
  ticks : nat;
  objectIDs : nat -> ObjectID;
  minted : nat;
  log : list LogLine
}.

Definition setTables (ts : gmap string (list Row)) (w : World) : World :=
  mkWorld ts (faults w) (clock w) (ticks w) (objectIDs w) (minted w) (log w).

Definition setFaults (fs : list bool) (w : World) : World :=
  mkWorld (tables w) fs (clock w) (ticks w) (objectIDs w) (minted w) (log w).

(** Computations that read and write the world. *)
Definition M (A : Type) : Type := World -> A * World.

Definition ret {A : Type} (a : A) : M A := fun w => (a, w).

Definition bind {A B : Type} (m : M A) (k : A -> M B) : M B :=
  fun w => let (a, w') := m w in k a w'.

Notation "x <- m ;; k" := (bind m (fun x => k))
  (at level 100, m at next level, right associativity, only parsing).
Notation "m ;; k" := (bind m (fun _ => k))
  (at level 100, right associativity, only parsing).

(** [log.Printf]. *)
Definition Printf (format : string) (args : list Arg) (err : option error) : M unit :=
  fun w => (tt, mkWorld (tables w) (faults w) (clock w) (ticks w)
                        (objectIDs w) (minted w) (log w ++ [Printed format args err])%list).

(** [time.Now()]. *)
Definition Now : M Time :=
  fun w => (clock w (ticks w),
            mkWorld (tables w) (faults w) (clock w) (S (ticks w))
                    (objectIDs w) (minted w) (log w)).

(** [primitive.NewObjectID()]. *)
Definition NewObjectID : M ObjectID :=
  fun w => (objectIDs w (minted w),
            mkWorld (tables w) (faults w) (clock w) (ticks w)
                    (objectIDs w) (S (minted w)) (log w)).

(** Whether the next call to the destination fails by itself. *)
Definition fault : M bool :=
  fun w => match faults w with
           | [] => (false, w)
           | b :: fs => (b, setFaults fs w)
           end.

(** ** The destination store (gorm over MySQL) *)

Definition sameKey (a b : option string) : bool :=
  match a, b with
  | Some x, Some y => String.eqb x y
  | _, _ => false
  end.

(** A new row collides with a stored one on the primary key or on a unique
    index. *)
Definition conflicts (new old : Row) : bool :=
  sameKey (primaryKey new) (primaryKey old) || sameKey (uniqueKey new) (uniqueKey old).

(** [db.Create(&row).Error]: a plain insert. *)
Definition Create (r : Row) : M (option error) :=
  failed <- fault ;;
  if (failed : bool) then ret (Some (Driver Unavailable))
  else fun w =>
    match tables w !! TableName r with
    | None => (Some (Driver NoSuchTable), w)
    | Some rows =>
        if existsb (conflicts r) rows then (Some (Driver DuplicateEntry), w)
        else (None, setTables (<[TableName r := (rows ++ [r])%list]> (tables w)) w)
    end.

(** [db.Clauses(clause.OnConflict{DoNothing: true}).Create(&row).Error]: an
    insert that leaves the table alone when the row collides. *)
Definition CreateOnConflictDoNothing (r : Row) : M (option error) :=
  failed <- fault ;;
  if (failed : bool) then ret (Some (Driver Unavailable))
  else fun w =>
    match tables w !! TableName r with
    | None => (Some (Driver NoSuchTable), w)
    | Some rows =>
        if existsb (conflicts r) rows then (None, w)
        else (None, setTables (<[TableName r := (rows ++ [r])%list]> (tables w)) w)
    end.

(** [db.Table(table).Count(&count).Error] with the count. *)
Definition Count (table : string) : M (error + Z) :=
  failed <- fault ;;
  if (failed : bool) then ret (inl (Driver Unavailable))
  else fun w =>
    match tables w !! table with
    | None => (inl (Driver NoSuchTable), w)
    | Some rows => (inr (Z.of_nat (length rows)), w)
    end.

(** [db.Table(table).Where("id = ?", id).Count(&count).Error] with the
    count. *)
Definition CountWhereID (table id : string) : M (error + Z) :=
  failed <- fault ;;
  if (failed : bool) then ret (inl (Driver Unavailable))
  else fun w =>
    match tables w !! table with
    | None => (inl (Driver NoSuchTable), w)
    | Some rows =>
        (inr (Z.of_nat (length (List.filter (fun r => sameKey (primaryKey r) (Some id)) rows))), w)
    end.

(** [db.Migrator().DropTable(table)]: drops the table if it exists. *)
Definition DropTable (table : string) : M (option error) :=
  failed <- fault ;;
  if (failed : bool) then ret (Some (Driver Unavailable))
  else fun w => (None, setTables (delete table (tables w)) w).

(** The tables [AutoMigrate] leaves: the missing ones are created empty, the
    others keep their rows. *)
Definition createMissing (ts : gmap string (list Row)) (names : list string)
  : gmap string (list Row) :=
  foldl (fun ts name => match ts !! name with
                        | None => <[name := []]> ts
                        | Some _ => ts
                        end) ts names.

(** [db.AutoMigrate(tables...)]. *)
Definition AutoMigrate (names : list string) : M (option error) :=
  failed <- fault ;;
  if (failed : bool) then ret (Some (Driver Unavailable))
  else fun w => (None, setTables (createMissing (tables w) names) w).

(** ** Helpers of [main.go] *)

(** [mongoCount]: [CountDocuments] on a collection, 0 with a warning when it
    fails. *)
Definition mongoCount {A : Type} (coll : Collection A) (collection : string) : M Z :=
  match coll with
  | inl err => Printf "WARNING: Could not count %s: %v" [AStr collection] (Some err) ;; ret 0
  | inr docs => ret (Z.of_nat (length docs))
  end.

(** [mysqlCount]. *)
Definition mysqlCount (table : string) : M Z :=
  r <- Count table ;;
  match r with
  | inl err => Printf "WARNING: Could not count %s: %v" [AStr table] (Some err) ;; ret 0
  | inr count => ret count
  end.

(** [checkRecordExists]. *)
Definition checkRecordExists (table id : string) : M bool :=
  r <- CountWhereID table id ;;
  match r with
  | inl err =>
      Printf "WARNING: Could not check existence of %s with id %s: %v"
             [AStr table; AStr id] (Some err) ;;
      ret false
  | inr count => ret (count >? 0)
  end.

(** The body of a [for cur.Next(ctx)] loop either goes on with new loop
    variables or returns an error from the enclosing function. *)
Fixpoint forEach {A S : Type} (body : A -> S -> M (error + S)) (xs : list A) (s : S)
  : M (error + S) :=
  match xs with
  | [] => ret (inr s)
  | x :: xs' =>
      r <- body x s ;;
      match r with
      | inl err => ret (inl err)
      | inr s' => forEach body xs' s'
      end
  end.

(** The closure that guards a nilable timestamp: [validateDateTime] of the
    pointed value when the pointer is not nil, nil otherwise. *)
Definition validated (p : option Time) : option Time :=
  match p with
  | Some t => validateDateTime t
  | None => None
  end.

(** ** migrateServices *)

Definition serviceRow (s : mongoService.t) : Service.t :=
  Service.mk (Hex (mongoService.ID s)) (mongoService.CreatedAt s)
             (mongoService.Name s) (mongoService.Code s).

(** One iteration of the loop; the loop variables are [moved] and [skipped]. *)
Definition serviceStep (doc : error + mongoService.t) (st : Z * Z) : M (error + Z * Z) :=
  let '(moved, skipped) := st in
  match doc with
  | inl err => Printf "ERROR decode service: %v" [] (Some err) ;; ret (inl err)
  | inr s =>
      let serviceID := Hex (mongoService.ID s) in
      found <- checkRecordExists Service.TableName serviceID ;;
      if (found : bool) then ret (inr (moved, incr skipped))
      else
        e <- Create (RService (serviceRow s)) ;;
        match e with
        | Some err =>
            Printf "ERROR insert service %s: %v" [AStr serviceID] (Some err) ;;
            ret (inl (Errorf "service %s insert failed: %w" [AStr serviceID] err))
        | None => ret (inr (incr moved, skipped))
        end
  end.

Definition migrateServices (mdb : MongoDatabase) : M (option error) :=
  srcCount <- mongoCount (services mdb) "services" ;;
  dstBefore <- mysqlCount Service.TableName ;;
  Printf "[services] mongo=%d mysql_before=%d" [AInt srcCount; AInt dstBefore] None ;;
  match services mdb with
  | inl err => ret (Some err)
  | inr cur =>
      r <- forEach serviceStep cur (0, 0) ;;
      match r with
      | inl err => ret (Some err)
      | inr (moved, skipped) =>
          dstAfter <- mysqlCount Service.TableName ;;
          Printf "[services] moved=%d skipped=%d mysql_after=%d"
                 [AInt moved; AInt skipped; AInt dstAfter] None ;;
          ret None
      end
  end.

(** ** migrateOrganizations *)

Definition organizationRow (o : mongoOrganization.t) : Organization.t :=
  Organization.mk
    (Hex (mongoOrganization.ID o))
    (mongoOrganization.CreatedAt o)
    (mongoOrganization.UpdatedAt o)
    (validated (mongoOrganization.DeletedAt o))
    (mongoOrganization.IsDeleted o)
    (mongoOrganization.Name o)
    (mongoOrganization.Inn o)
    (mongoOrganization.Pinfl o)
    (mongoOrganization.Balance o)
    (mongoOrganization.FiscalizationBalance o)
    (mongoOrganization.ReservedFiscalizationBalance o)
    (mongoOrganization.TotalPayments o)
    (mongoOrganization.CreditAmount o)
    (mongoOrganization.OrganizationCode o)
    (mongoOrganization.ReferralAgentCode o)
    (mongoOrganization.WhiteLabel o)
    (OfferInfo.Number (mongoOrganization.OfferInfo o))
    (validated (OfferInfo.Date (mongoOrganization.OfferInfo o))).

Definition demoUseRow (o : mongoOrganization.t) (s : ServiceRef.t) : OrganizationServiceDemoUses.t :=
  OrganizationServiceDemoUses.mk (Hex (mongoOrganization.ID o)) (ServiceRef.Code s)
                                 (mongoOrganization.CreatedAt o).

(** One iteration of either loop over [o.ServiceDemoUses]; the loop variable
    is [demoUsesMoved]. *)
Definition demoUseStep (o : mongoOrganization.t) (s : ServiceRef.t) (demoUsesMoved : Z)
  : M (error + Z) :=
  let orgID := Hex (mongoOrganization.ID o) in
  e <- CreateOnConflictDoNothing (ROrganizationServiceDemoUses (demoUseRow o s)) ;;
  match e with
  | Some err =>
      Printf "ERROR insert service_demo_use org=%s service=%s: %v"
             [AStr orgID; AStr (ServiceRef.Code s)] (Some err) ;;
      ret (inl (Errorf "org %s service_demo_use %s insert failed: %w"
                       [AStr orgID; AStr (ServiceRef.Code s)] err))
  | None => ret (inr (incr demoUsesMoved))
  end.

(** The loop variables are [moved], [skipped] and [demoUsesMoved]. *)
Definition organizationStep (doc : error + mongoOrganization.t) (st : Z * Z * Z)
  : M (error + Z * Z * Z) :=
  let '(moved, skipped, demoUsesMoved) := st in
  match doc with
  | inl err => Printf "ERROR decode organization: %v" [] (Some err) ;; ret (inl err)
  | inr o =>
      let orgID := Hex (mongoOrganization.ID o) in
      found <- checkRecordExists Organization.TableName orgID ;;
      if (found : bool) then
        r <- forEach (demoUseStep o) (mongoOrganization.ServiceDemoUses o) demoUsesMoved ;;
        match r with
        | inl err => ret (inl err)
        | inr demoUsesMoved' => ret (inr (moved, incr skipped, demoUsesMoved'))
        end
      else
        e <- Create (ROrganization (organizationRow o)) ;;
        match e with
        | Some err =>
            Printf "ERROR insert organization %s: %v" [AStr orgID] (Some err) ;;
            ret (inl (Errorf "organization %s insert failed: %w" [AStr orgID] err))
        | None =>
            r <- forEach (demoUseStep o) (mongoOrganization.ServiceDemoUses o) demoUsesMoved ;;
            match r with
            | inl err => ret (inl err)
            | inr demoUsesMoved' => ret (inr (incr moved, skipped, demoUsesMoved'))
            end
        end
  end.

Definition migrateOrganizations (mdb : MongoDatabase) : M (option error) :=
  srcCount <- mongoCount (organizations mdb) "organizations" ;;
  dstBefore <- mysqlCount Organization.TableName ;;
  demoUsesBefore <- mysqlCount OrganizationServiceDemoUses.TableName ;;
  Printf "[organizations] mongo=%d mysql_before=%d" [AInt srcCount; AInt dstBefore] None ;;
  Printf "[service_demo_uses] mysql_before=%d" [AInt demoUsesBefore] None ;;
  match organizations mdb with
  | inl err => ret (Some err)
  | inr cur =>
      r <- forEach organizationStep cur (0, 0, 0) ;;
      match r with
      | inl err => ret (Some err)
      | inr (moved, skipped, demoUsesMoved) =>
          dstAfter <- mysqlCount Organization.TableName ;;
          demoUsesAfter <- mysqlCount OrganizationServiceDemoUses.TableName ;;
          Printf "[organizations] moved=%d skipped=%d mysql_after=%d"
                 [AInt moved; AInt skipped; AInt dstAfter] None ;;
          Printf "[service_demo_uses] moved=%d mysql_after=%d"
                 [AInt demoUsesMoved; AInt demoUsesAfter] None ;;
          ret None
      end
  end.

(** ** migratePackages *)

Definition packageRow (p : mongoPackage.t) : Package.t :=
  Package.mk
    (Hex (mongoPackage.ID p))
    (mongoPackage.CreatedAt p)
    (mongoPackage.IsDeleted p)
    (mongoPackage.Name p)
    (mongoPackage.Price p)
    (mongoPackage.BRVRate p)
    (mongoPackage.DurationDays p)
    (mongoPackage.DurationMonths p)
    (mongoPackage.IsDemo p)
    (mongoPackage.IsPublic p)
    (ServiceRef.Code (mongoPackage.Service p))
    (mongoPackage.DefaultSetOnNewOrganization p).

(** The composite literal [PackageItem{PackageId: ..., ..., Limit: ...}]: the
    field [ID] is not listed and keeps its zero value, the empty string. *)
Definition packageItemRow (p : mongoPackage.t) (item : mongoPackageItem.t) : PackageItem.t :=
  PackageItem.mk
    ""
    (Hex (mongoPackage.ID p))
    (mongoPackageItem.Name item)
    (mongoPackageItem.Code item)
    (mongoPackageItem.IsOverLimitAllowed item)
    (mongoPackageItem.OverLimitPrice item)
    (mongoPackageItem.BRVRate item)
    (mongoPackageItem.IsUnlimited item)
    (mongoPackageItem.Limit item).

Definition bonusPackageRow (p : mongoPackage.t) (bonus : ObjectID) : PackageActivationBonusPackage.t :=
  PackageActivationBonusPackage.mk (Hex (mongoPackage.ID p)) (Hex bonus).

(** One iteration of either loop over [p.Items]; the loop variable is
    [itemsMoved]. *)
Definition packageItemStep (p : mongoPackage.t) (item : mongoPackageItem.t) (itemsMoved : Z)
  : M (error + Z) :=
  let pkgID := Hex (mongoPackage.ID p) in
  e <- CreateOnConflictDoNothing (RPackageItem (packageItemRow p item)) ;;
  match e with
  | Some err =>
      Printf "ERROR insert package_item pkg=%s item=%d: %v"
             [AStr pkgID; AInt (mongoPackageItem.Code item)] (Some err) ;;
      ret (inl (Errorf "package %s item %d insert failed: %w"
                       [AStr pkgID; AInt (mongoPackageItem.Code item)] err))
  | None => ret (inr (incr itemsMoved))
  end.

(** One iteration of either loop over [p.OnActivationBonusPackages]; the
    loop variable is [bonusMoved]. *)
Definition bonusPackageStep (p : mongoPackage.t) (bonus : ObjectID) (bonusMoved : Z)
  : M (error + Z) :=
  let pkgID := Hex (mongoPackage.ID p) in
  e <- CreateOnConflictDoNothing (RPackageActivationBonusPackage (bonusPackageRow p bonus)) ;;
  match e with
  | Some err =>
      Printf "ERROR insert package_activation_bonus pkg=%s bonus=%s: %v"
             [AStr pkgID; AStr (Hex bonus)] (Some err) ;;
      ret (inl (Errorf "package %s bonus %s insert failed: %w"
                       [AStr pkgID; AStr (Hex bonus)] err))
  | None => ret (inr (incr bonusMoved))
  end.

(** The two child loops, run one after the other in both branches. *)
Definition packageChildren (p : mongoPackage.t) (itemsMoved bonusMoved : Z)
  : M (error + Z * Z) :=
  r <- forEach (packageItemStep p) (mongoPackage.Items p) itemsMoved ;;
  match r with
  | inl err => ret (inl err)
  | inr itemsMoved' =>
      r' <- forEach (bonusPackageStep p) (mongoPackage.OnActivationBonusPackages p) bonusMoved ;;
      match r' with
      | inl err => ret (inl err)
      | inr bonusMoved' => ret (inr (itemsMoved', bonusMoved'))
      end
  end.

(** The loop variables are [moved], [skipped], [itemsMoved] and
    [bonusMoved]. *)
Definition packageStep (doc : error + mongoPackage.t) (st : Z * Z * Z * Z)
  : M (error + Z * Z * Z * Z) :=
  let '(moved, skipped, itemsMoved, bonusMoved) := st in
  match doc with
  | inl err => Printf "ERROR decode package: %v" [] (Some err) ;; ret (inl err)
  | inr p =>
      let pkgID := Hex (mongoPackage.ID p) in
      found <- checkRecordExists Package.TableName pkgID ;;
      if (found : bool) then
        r <- packageChildren p itemsMoved bonusMoved ;;
        match r with
        | inl err => ret (inl err)
        | inr (itemsMoved', bonusMoved') =>
            ret (inr (moved, incr skipped, itemsMoved', bonusMoved'))
        end
      else
        e <- Create (RPackage (packageRow p)) ;;
        match e with
        | Some err =>
            Printf "ERROR insert package %s: %v" [AStr pkgID] (Some err) ;;
            ret (inl (Errorf "package %s insert failed: %w" [AStr pkgID] err))
        | None =>
            r <- packageChildren p itemsMoved bonusMoved ;;
            match r with
            | inl err => ret (inl err)
            | inr (itemsMoved', bonusMoved') =>
                ret (inr (incr moved, skipped, itemsMoved', bonusMoved'))
            end
        end
  end.

Definition migratePackages (mdb : MongoDatabase) : M (option error) :=
  srcCount <- mongoCount (packages mdb) "packages" ;;
  dstBefore <- mysqlCount Package.TableName ;;
  itemsBefore <- mysqlCount PackageItem.TableName ;;
  bonusBefore <- mysqlCount PackageActivationBonusPackage.TableName ;;
  Printf "[packages] mongo=%d mysql_before=%d" [AInt srcCount; AInt dstBefore] None ;;
  Printf "[package_items] mysql_before=%d" [AInt itemsBefore] None ;;
  Printf "[package_activation_bonus_packages] mysql_before=%d" [AInt bonusBefore] None ;;
  match packages mdb with
  | inl err => ret (Some err)
  | inr cur =>
      r <- forEach packageStep cur (0, 0, 0, 0) ;;
      match r with
      | inl err => ret (Some err)
      | inr (moved, skipped, itemsMoved, bonusMoved) =>
          dstAfter <- mysqlCount Package.TableName ;;
          itemsAfter <- mysqlCount PackageItem.TableName ;;
          bonusAfter <- mysqlCount PackageActivationBonusPackage.TableName ;;
          Printf "[packages] moved=%d skipped=%d mysql_after=%d"
                 [AInt moved; AInt skipped; AInt dstAfter] None ;;
          Printf "[package_items] moved=%d mysql_after=%d"
                 [AInt itemsMoved; AInt itemsAfter] None ;;
          Printf "[package_activation_bonus_packages] moved=%d mysql_after=%d"
                 [AInt bonusMoved; AInt bonusAfter] None ;;
          ret None
      end
  end.

(** ** migrateBoughtPackages *)

Definition boughtPackageRow (bp : mongoBoughtPackage.t) : BoughtPackage.t :=
  BoughtPackage.mk
    (Hex (mongoBoughtPackage.ID bp))
    (Hex (OrgRef.ID (mongoBoughtPackage.Organization bp)))
    (Hex (BoughtPackageRef.ID (mongoBoughtPackage.Package bp)))
    (mongoBoughtPackage.BoughtAt bp)
    (mongoBoughtPackage.ExpiresAt bp)
    (mongoBoughtPackage.IsAutoExtend bp)
    (negb (mongoBoughtPackage.IsDeleted bp))
    (BoughtPackageRef.Price (mongoBoughtPackage.Package bp)).

Definition boughtPackageItemRow (boughtPkgItemID : string) (bp : mongoBoughtPackage.t)
    (item : BoughtItem.t) : BoughtPackageItem.t :=
  BoughtPackageItem.mk
    boughtPkgItemID
    (Hex (mongoBoughtPackage.ID bp))
    (BoughtItem.Name item)
    (BoughtItem.Code item)
    (BoughtItem.IsOverLimitAllowed item)
    (BoughtItem.OverLimitPrice item)
    (BoughtItem.IsUnlimited item)
    (BoughtItem.LimitValue item)
    (BoughtItem.UsedCount item).

(** One iteration of the loop over [bp.Package.PackageItems]; the loop
    variable is [itemsMoved]. *)
Definition boughtPackageItemStep (bp : mongoBoughtPackage.t) (item : BoughtItem.t)
    (itemsMoved : Z) : M (error + Z) :=
  id <- NewObjectID ;;
  let boughtPkgItemID := Hex id in
  e <- Create (RBoughtPackageItem (boughtPackageItemRow boughtPkgItemID bp item)) ;;
  match e with
  | Some err =>
      Printf "ERROR insert bought-package-item %s: %v" [AStr boughtPkgItemID] (Some err) ;;
      ret (inl (Errorf "bought-package-item %s insert failed: %w" [AStr boughtPkgItemID] err))
  | None => ret (inr (incr itemsMoved))
  end.

(** The loop variables are [moved], [skipped] and [itemsMoved]. *)
Definition boughtPackageStep (doc : error + mongoBoughtPackage.t) (st : Z * Z * Z)
  : M (error + Z * Z * Z) :=
  let '(moved, skipped, itemsMoved) := st in
  match doc with
  | inl err => Printf "ERROR decode bought-package: %v" [] (Some err) ;; ret (inl err)
  | inr bp =>
      let boughtPkgID := Hex (mongoBoughtPackage.ID bp) in
      found <- checkRecordExists BoughtPackage.TableName boughtPkgID ;;
      if (found : bool) then ret (inr (moved, incr skipped, itemsMoved))
      else
        e <- Create (RBoughtPackage (boughtPackageRow bp)) ;;
        match e with
        | Some err =>
            Printf "ERROR insert bought-package %s: %v" [AStr boughtPkgID] (Some err) ;;
            ret (inl (Errorf "bought-package %s insert failed: %w" [AStr boughtPkgID] err))
        | None =>
            r <- forEach (boughtPackageItemStep bp)
                         (BoughtPackageRef.PackageItems (mongoBoughtPackage.Package bp))
                         itemsMoved ;;
            match r with
            | inl err => ret (inl err)
            | inr itemsMoved' => ret (inr (incr moved, skipped, itemsMoved'))
            end
        end
  end.

Definition migrateBoughtPackages (mdb : MongoDatabase) : M (option error) :=
  srcCount <- mongoCount (boughtPackages mdb) "boughtPackages" ;;
  dstBefore <- mysqlCount BoughtPackage.TableName ;;
  itemsBefore <- mysqlCount BoughtPackageItem.TableName ;;
  Printf "[bought-packages] mongo=%d mysql_before=%d" [AInt srcCount; AInt dstBefore] None ;;
  Printf "[bought-package-items] mysql_before=%d" [AInt itemsBefore] None ;;
  match boughtPackages mdb with
  | inl err => ret (Some err)
  | inr cur =>
      r <- forEach boughtPackageStep cur (0, 0, 0) ;;
      match r with
      | inl err => ret (Some err)
      | inr (moved, skipped, itemsMoved) =>
          dstAfter <- mysqlCount BoughtPackage.TableName ;;
          itemsAfter <- mysqlCount BoughtPackageItem.TableName ;;
          Printf "[bought-packages] moved=%d skipped=%d mysql_after=%d"
                 [AInt moved; AInt skipped; AInt dstAfter] None ;;
          Printf "[bought-package-items] moved=%d mysql_after=%d"
                 [AInt itemsMoved; AInt itemsAfter] None ;;
          ret None
      end
  end.

Section Migration.

(** [time.Parse] of the Go standard library, by layout and value. *)
Variable Parse : string -> string -> error + Time.

(** [time.RFC3339]. *)
Definition RFC3339 : string := "2006-01-02T15:04:05Z07:00".

(** ** migrateCharges *)

(** The local variables the classification of a charge assigns. *)
Record Resolved : Type := mkResolved {
  chargeType : Z;
  objectId : string;
  number : string;
  date1 : option Time;
  date2 : option Time
}.

(** The [if]/[else if] chain over the eight embedded documents, from the
    declaration of [chargeType] to the end of the chain. *)
Definition resolveCharge (c : mongoCharge.t) : Resolved :=
  match mongoCharge.RoamingInvoice c with
  | Some m =>
      mkResolved 3 (default "" (assertString m "_id")) (default "" (assertString m "number"))
        (match assertTime m "date" with
         | Some date => Some date
         | None =>
             match assertString m "date" with
             | Some dateStr =>
                 match Parse RFC3339 dateStr with
                 | inr parsedDate => Some parsedDate
                 | inl _ => None
                 end
             | None => None
             end
         end)
        None
  | None =>
  match mongoCharge.RoamingContract c with
  | Some m =>
      mkResolved 7 (default "" (assertString m "_id")) (default "" (assertString m "number"))
        (assertTime m "date") None
  | None =>
  match mongoCharge.RoamingWaybill c with
  | Some m =>
      mkResolved 10 (default "" (assertString m "_id")) (default "" (assertString m "number"))
        (assertTime m "date") None
  | None =>
  match mongoCharge.RoamingAct c with
  | Some m =>
      mkResolved 9 (default "" (assertString m "_id")) (default "" (assertString m "number"))
        (assertTime m "date") None
  | None =>
  match mongoCharge.RoamingVerificationAct c with
  | Some m =>
      mkResolved 8 (default "" (assertString m "_id")) (default "" (assertString m "number"))
        (assertTime m "date") None
  | None =>
  match mongoCharge.RoamingEmpowerment c with
  | Some m =>
      mkResolved 11 (default "" (assertString m "_id")) (default "" (assertString m "number"))
        (assertTime m "start_date") (assertTime m "end_date")
  | None =>
  match mongoCharge.EDIReturnInvoice c with
  | Some m =>
      mkResolved 2 (default "" (assertString m "_id")) (default "" (assertString m "number"))
        (assertTime m "date") None
  | None =>
  match mongoCharge.EDIAttorney c with
  | Some m =>
      mkResolved 4 (default "" (assertString m "_id")) (default "" (assertString m "number"))
        (assertTime m "start_date") (assertTime m "end_date")
  | None => mkResolved 0 "" "" None None
  end end end end end end end end.

(** [date1] after the fallback [if date1 == nil { date1 = &c.CreatedAt }]. *)
Definition date1OrCreatedAt (c : mongoCharge.t) : option Time :=
  match date1 (resolveCharge c) with
  | Some d => Some d
  | None => Some (mongoCharge.CreatedAt c)
  end.

(** The [Charge] literal that is inserted. *)
Definition chargeRow (c : mongoCharge.t) : Charge.t :=
  let r := resolveCharge c in
  Charge.mk
    (Hex (mongoCharge.ID c))
    (mongoCharge.CreatedAt c)
    (mongoCharge.IsDeleted c)
    (Hex (OrgRef.ID (mongoCharge.Organization c)))
    (mongoCharge.Price c)
    (chargeType r)
    (Hex (ChargePackage.ID (mongoCharge.Package c)))
    (ChargeItem.Code (mongoCharge.Item c))
    (mongoCharge.ServiceCode c)
    (objectId r)
    (number r)
    (validated (date1OrCreatedAt c))
    (validated (date2 r)).

Definition isSome {A : Type} (o : option A) : bool :=
  match o with
  | Some _ => true
  | None => false
  end.

(** The loop variables are [moved] and [skipped]. *)
Definition chargeStep (doc : error + mongoCharge.t) (st : Z * Z) : M (error + Z * Z) :=
  let '(moved, skipped) := st in
  match doc with
  | inl err => Printf "ERROR decode charge: %v" [] (Some err) ;; ret (inl err)
  | inr c =>
      let chargeID := Hex (mongoCharge.ID c) in
      found <- checkRecordExists Charge.TableName chargeID ;;
      if (found : bool) then ret (inr (moved, incr skipped))
      else
        Printf "DEBUG: Processing charge %s, RoamingInvoice: %v, RoamingContract: %v"
               [AStr chargeID; ABool (isSome (mongoCharge.RoamingInvoice c));
                ABool (isSome (mongoCharge.RoamingContract c))] None ;;
        e <- Create (RCharge (chargeRow c)) ;;
        match e with
        | Some err =>
            Printf "ERROR insert charge %s: %v" [AStr chargeID] (Some err) ;;
            ret (inl (Errorf "charge %s insert failed: %w" [AStr chargeID] err))
        | None => ret (inr (incr moved, skipped))
        end
  end.

Definition migrateCharges (mdb : MongoDatabase) : M (option error) :=
  srcCount <- mongoCount (charges mdb) "charges" ;;
  dstBefore <- mysqlCount Charge.TableName ;;
  Printf "[charges] mongo=%d mysql_before=%d" [AInt srcCount; AInt dstBefore] None ;;
  match charges mdb with
  | inl err => ret (Some err)
  | inr cur =>
      r <- forEach chargeStep cur (0, 0) ;;
      match r with
      | inl err => ret (Some err)
      | inr (moved, skipped) =>
          dstAfter <- mysqlCount Charge.TableName ;;
          Printf "[charges] moved=%d skipped=%d mysql_after=%d"
                 [AInt moved; AInt skipped; AInt dstAfter] None ;;
          ret None
      end
  end.

(** ** migratePayments *)

Definition paymentRow (p : mongoPayment.t) : Payment.t :=
  Payment.mk
    (Hex (mongoPayment.ID p))
    (mongoPayment.CreatedAt p)
    (mongoPayment.Amount p)
    (Hex (OrgRef.ID (mongoPayment.Organization p)))
    (Hex (AccountRef.ID (mongoPayment.Account p)))
    (mongoPayment.Method p)
    (mongoPayment.BankTransactionID p).

Definition paymentStep (doc : error + mongoPayment.t) (st : Z * Z) : M (error + Z * Z) :=
  let '(moved, skipped) := st in
  match doc with
  | inl err => Printf "ERROR decode payment: %v" [] (Some err) ;; ret (inl err)
  | inr p =>
      let paymentID := Hex (mongoPayment.ID p) in
      found <- checkRecordExists Payment.TableName paymentID ;;
      if (found : bool) then ret (inr (moved, incr skipped))
      else
        e <- Create (RPayment (paymentRow p)) ;;
        match e with
        | Some err =>
            Printf "ERROR insert payment %s: %v" [AStr paymentID] (Some err) ;;
            ret (inl (Errorf "payment %s insert failed: %w" [AStr paymentID] err))
        | None => ret (inr (incr moved, skipped))
        end
  end.

Definition migratePayments (mdb : MongoDatabase) : M (option error) :=
  srcCount <- mongoCount (payments mdb) "payments" ;;
  dstBefore <- mysqlCount Payment.TableName ;;
  Printf "[payments] mongo=%d mysql_before=%d" [AInt srcCount; AInt dstBefore] None ;;
  match payments mdb with
  | inl err => ret (Some err)
  | inr cur =>
      r <- forEach paymentStep cur (0, 0) ;;
      match r with
      | inl err => ret (Some err)
      | inr (moved, skipped) =>
          dstAfter <- mysqlCount Payment.TableName ;;
          Printf "[payments] moved=%d skipped=%d mysql_after=%d"
                 [AInt moved; AInt skipped; AInt dstAfter] None ;;
          ret None
      end
  end.

(** ** migratePaymeTransactions *)

(** The value [*validatedPaymeCreatedAt] that is stored: the clock is read
    only when both source timestamps are rejected. *)
Definition paymeCreatedAt (pt : mongoPaymeTransaction.t) : M Time :=
  match validateDateTime (mongoPaymeTransaction.PaymeCreatedAt pt) with
  | Some validatedPaymeCreatedAt => ret validatedPaymeCreatedAt
  | None =>
      match validateDateTime (mongoPaymeTransaction.CreatedAt pt) with
      | Some validatedCreatedAt => ret validatedCreatedAt
      | None => now <- Now ;; ret now
      end
  end.

Definition paymeTransactionRow (pt : mongoPaymeTransaction.t) (validatedPaymeCreatedAt : Time)
  : PaymeTransaction.t :=
  PaymeTransaction.mk
    (Hex (mongoPaymeTransaction.ID pt))
    (mongoPaymeTransaction.CreatedAt pt)
    (mongoPaymeTransaction.PaymeTransactionID pt)
    validatedPaymeCreatedAt
    (validated (mongoPaymeTransaction.SystemCompletedAt pt))
    (mongoPaymeTransaction.State pt)
    (mongoPaymeTransaction.Amount pt)
    (mongoPaymeTransaction.PaymentId pt)
    (Hex (OrgRef.ID (mongoPaymeTransaction.Organization pt)))
    (mongoPaymeTransaction.Reason pt)
    (validated (mongoPaymeTransaction.SystemCanceledAt pt)).

Definition paymeTransactionStep (doc : error + mongoPaymeTransaction.t) (st : Z * Z)
  : M (error + Z * Z) :=
  let '(moved, skipped) := st in
  match doc with
  | inl err => Printf "ERROR decode payme-transaction: %v" [] (Some err) ;; ret (inl err)
  | inr pt =>
      let paymeTransactionID := Hex (mongoPaymeTransaction.ID pt) in
      found <- checkRecordExists PaymeTransaction.TableName paymeTransactionID ;;
      if (found : bool) then ret (inr (moved, incr skipped))
      else
        validatedPaymeCreatedAt <- paymeCreatedAt pt ;;
        e <- Create (RPaymeTransaction (paymeTransactionRow pt validatedPaymeCreatedAt)) ;;
        match e with
        | Some err =>
            Printf "ERROR insert payme-transaction %s: %v" [AStr paymeTransactionID] (Some err) ;;
            ret (inl (Errorf "payme-transaction %s insert failed: %w"
                             [AStr paymeTransactionID] err))
        | None => ret (inr (incr moved, skipped))
        end
  end.

Definition migratePaymeTransactions (mdb : MongoDatabase) : M (option error) :=
  srcCount <- mongoCount (paymeTransactions mdb) "paymeTransactions" ;;
  dstBefore <- mysqlCount PaymeTransaction.TableName ;;
  Printf "[payme-transactions] mongo=%d mysql_before=%d" [AInt srcCount; AInt dstBefore] None ;;
  match paymeTransactions mdb with
  | inl err => ret (Some err)
  | inr cur =>
      r <- forEach paymeTransactionStep cur (0, 0) ;;
      match r with
      | inl err => ret (Some err)
      | inr (moved, skipped) =>
          dstAfter <- mysqlCount PaymeTransaction.TableName ;;
          Printf "[payme-transactions] moved=%d skipped=%d mysql_after=%d"
                 [AInt moved; AInt skipped; AInt dstAfter] None ;;
          ret None
      end
  end.

(** ** migrateOrganizationBalanceBindings *)

Definition organizationBalanceBindingRow (obb : mongoOrganizationBalanceBinding.t)
  : OrganizationBalanceBinding.t :=
  OrganizationBalanceBinding.mk
    (Hex (mongoOrganizationBalanceBinding.ID obb))
    (mongoOrganizationBalanceBinding.CreatedAt obb)
    (validated (mongoOrganizationBalanceBinding.DeletedAt obb))
    (mongoOrganizationBalanceBinding.IsDeleted obb)
    (Hex (OrgRef.ID (mongoOrganizationBalanceBinding.PayerOrganization obb)))
    (Hex (OrgRef.ID (mongoOrganizationBalanceBinding.TargetOrganization obb)))
    (OrgRef.Name (mongoOrganizationBalanceBinding.PayerOrganization obb))
    (OrgRef.Name (mongoOrganizationBalanceBinding.TargetOrganization obb)).

Definition organizationBalanceBindingStep (doc : error + mongoOrganizationBalanceBinding.t)
    (st : Z * Z) : M (error + Z * Z) :=
  let '(moved, skipped) := st in
  match doc with
  | inl err =>
      Printf "ERROR decode organization-balance-binding: %v" [] (Some err) ;; ret (inl err)
  | inr obb =>
      let orgBalanceBindingID := Hex (mongoOrganizationBalanceBinding.ID obb) in
      found <- checkRecordExists OrganizationBalanceBinding.TableName orgBalanceBindingID ;;
      if (found : bool) then ret (inr (moved, incr skipped))
      else
        e <- Create (ROrganizationBalanceBinding (organizationBalanceBindingRow obb)) ;;
        match e with
        | Some err =>
            Printf "ERROR insert organization-balance-binding %s: %v"
                   [AStr orgBalanceBindingID] (Some err) ;;
            ret (inl (Errorf "organization-balance-binding %s insert failed: %w"
                             [AStr orgBalanceBindingID] err))
        | None => ret (inr (incr moved, skipped))
        end
  end.

Definition migrateOrganizationBalanceBindings (mdb : MongoDatabase) : M (option error) :=
  srcCount <- mongoCount (organizationBalanceBindings mdb) "organizationBalanceBindings" ;;
  dstBefore <- mysqlCount OrganizationBalanceBinding.TableName ;;
  Printf "[organization-balance-bindings] mongo=%d mysql_before=%d"
         [AInt srcCount; AInt dstBefore] None ;;
  match organizationBalanceBindings mdb with
  | inl err => ret (Some err)
  | inr cur =>
      r <- forEach organizationBalanceBindingStep cur (0, 0) ;;
      match r with
      | inl err => ret (Some err)
      | inr (moved, skipped) =>
          dstAfter <- mysqlCount OrganizationBalanceBinding.TableName ;;
          Printf "[organization-balance-bindings] moved=%d skipped=%d mysql_after=%d"
                 [AInt moved; AInt skipped; AInt dstAfter] None ;;
          ret None
      end
  end.

(** ** migrateCreditUpdates *)

Definition creditUpdateRow (cu : mongoCreditUpdate.t) : CreditUpdates.t :=
  CreditUpdates.mk
    (Hex (mongoCreditUpdate.ID cu))
    (mongoCreditUpdate.CreatedAt cu)
    (Hex (OrgRef.ID (mongoCreditUpdate.Organization cu)))
    (mongoCreditUpdate.Amount cu)
    (Hex (AccountRef.ID (mongoCreditUpdate.Account cu))).

Definition creditUpdateStep (doc : error + mongoCreditUpdate.t) (st : Z * Z)
  : M (error + Z * Z) :=
  let '(moved, skipped) := st in
  match doc with
  | inl err => Printf "ERROR decode credit-update: %v" [] (Some err) ;; ret (inl err)
  | inr cu =>
      let creditUpdateID := Hex (mongoCreditUpdate.ID cu) in
      found <- checkRecordExists CreditUpdates.TableName creditUpdateID ;;
      if (found : bool) then ret (inr (moved, incr skipped))
      else
        e <- Create (RCreditUpdates (creditUpdateRow cu)) ;;
        match e with
        | Some err =>
            Printf "ERROR insert credit-update %s: %v" [AStr creditUpdateID] (Some err) ;;
            ret (inl (Errorf "credit-update %s insert failed: %w" [AStr creditUpdateID] err))
        | None => ret (inr (incr moved, skipped))
        end
  end.

Definition migrateCreditUpdates (mdb : MongoDatabase) : M (option error) :=
  srcCount <- mongoCount (creditUpdates mdb) "creditUpdates" ;;
  dstBefore <- mysqlCount CreditUpdates.TableName ;;
  Printf "[credit-updates] mongo=%d mysql_before=%d" [AInt srcCount; AInt dstBefore] None ;;
  match creditUpdates mdb with
  | inl err => ret (Some err)
  | inr cur =>
      r <- forEach creditUpdateStep cur (0, 0) ;;
      match r with
      | inl err => ret (Some err)
      | inr (moved, skipped) =>
          dstAfter <- mysqlCount CreditUpdates.TableName ;;
          Printf "[credit-updates] moved=%d skipped=%d mysql_after=%d"
                 [AInt moved; AInt skipped; AInt dstAfter] None ;;
          ret None
      end
  end.

(** ** migrateBankPaymentAutoApplyErrors *)

Definition bankPaymentAutoApplyErrorRow (bpae : mongoBankPaymentAutoApplyError.t)
  : BankPaymentAutoApplyError.t :=
  BankPaymentAutoApplyError.mk
    (Hex (mongoBankPaymentAutoApplyError.ID bpae))
    (mongoBankPaymentAutoApplyError.CreatedAt bpae)
    (mongoBankPaymentAutoApplyError.ErrorMessage bpae)
    (mongoBankPaymentAutoApplyError.Amount bpae)
    (mongoBankPaymentAutoApplyError.TransactionID bpae)
    (mongoBankPaymentAutoApplyError.PayerInn bpae)
    (mongoBankPaymentAutoApplyError.PayerName bpae)
    (mongoBankPaymentAutoApplyError.Description bpae)
    (mongoBankPaymentAutoApplyError.Resolved bpae).

Definition bankPaymentAutoApplyErrorStep (doc : error + mongoBankPaymentAutoApplyError.t)
    (st : Z * Z) : M (error + Z * Z) :=
  let '(moved, skipped) := st in
  match doc with
  | inl err =>
      Printf "ERROR decode bank-payment-auto-apply-error: %v" [] (Some err) ;; ret (inl err)
  | inr bpae =>
      let bankPaymentAutoApplyErrorID := Hex (mongoBankPaymentAutoApplyError.ID bpae) in
      found <- checkRecordExists BankPaymentAutoApplyError.TableName bankPaymentAutoApplyErrorID ;;
      if (found : bool) then ret (inr (moved, incr skipped))
      else
        e <- Create (RBankPaymentAutoApplyError (bankPaymentAutoApplyErrorRow bpae)) ;;
        match e with
        | Some err =>
            Printf "ERROR insert bank-payment-auto-apply-error %s: %v"
                   [AStr bankPaymentAutoApplyErrorID] (Some err) ;;
            ret (inl (Errorf "bank-payment-auto-apply-error %s insert failed: %w"
                             [AStr bankPaymentAutoApplyErrorID] err))
        | None => ret (inr (incr moved, skipped))
        end
  end.

Definition migrateBankPaymentAutoApplyErrors (mdb : MongoDatabase) : M (option error) :=
  srcCount <- mongoCount (bankPaymentsAutoApplyErrors mdb) "bankPaymentsAutoApplyErrors" ;;
  dstBefore <- mysqlCount BankPaymentAutoApplyError.TableName ;;
  Printf "[bank-payments-auto-apply-errors] mongo=%d mysql_before=%d"
         [AInt srcCount; AInt dstBefore] None ;;
  match bankPaymentsAutoApplyErrors mdb with
  | inl err => ret (Some err)
  | inr cur =>
      r <- forEach bankPaymentAutoApplyErrorStep cur (0, 0) ;;
      match r with
      | inl err => ret (Some err)
      | inr (moved, skipped) =>
          dstAfter <- mysqlCount BankPaymentAutoApplyError.TableName ;;
          Printf "[bank-payments-auto-apply-errors] moved=%d skipped=%d mysql_after=%d"
                 [AInt moved; AInt skipped; AInt dstAfter] None ;;
          ret None
      end
  end.

(** ** migrateAll *)

(** The slice [migrations]: the steps by name, in dependency order. *)
Definition migrations : list (string * (MongoDatabase -> M (option error))) :=
  [ ("services", migrateServices);
    ("organizations", migrateOrganizations);
    ("packages", migratePackages);
    ("bought-packages", migrateBoughtPackages);
    ("charges", migrateCharges);
    ("payments", migratePayments);
    ("payme-transactions", migratePaymeTransactions);
    ("organization-balance-bindings", migrateOrganizationBalanceBindings);
    ("credit-updates", migrateCreditUpdates);
    ("bank-payments-auto-apply-errors", migrateBankPaymentAutoApplyErrors) ].

(** The loop of [migrateAll] over a slice of steps. *)
Fixpoint runMigrations (steps : list (string * (MongoDatabase -> M (option error))))
    (mdb : MongoDatabase) : M (option error) :=
  match steps with
  | [] => ret None
  | (name, fn) :: rest =>
      Printf "\n\nStarting migration: %s" [AStr name] None ;;
      e <- fn mdb ;;
      match e with
      | Some err => ret (Some (Errorf "migration %s failed: %w" [AStr name] err))
      | None =>
          Printf "Completed migration: %s" [AStr name] None ;;
          runMigrations rest mdb
      end
  end.

Definition migrateAll (mdb : MongoDatabase) : M (option error) :=
  runMigrations migrations mdb.

(** ** Migrate and main *)

(** The slice [tables] of [Migrate], by table name. *)
Definition modelTables : list string :=
  [ Service.TableName;
    Organization.TableName;
    OrganizationServiceDemoUses.TableName;
    Package.TableName;
    PackageItem.TableName;
    PackageActivationBonusPackage.TableName;
    BoughtPackage.TableName;
    BoughtPackageItem.TableName;
    Charge.TableName;
    Payment.TableName;
    PaymeTransaction.TableName;
    OrganizationBalanceBinding.TableName;
    CreditUpdates.TableName;
    BankPaymentAutoApplyError.TableName ].

(** The loop of [Migrate] that drops the tables: an error of [DropTable] is
    ignored. *)
Fixpoint dropTables (names : list string) : M unit :=
  match names with
  | [] => ret tt
  | table :: rest => DropTable table ;; dropTables rest
  end.

(** [(d *database).Migrate]. *)
Definition Migrate : M (option error) :=
  dropTables modelTables ;; AutoMigrate modelTables.

(** What [main] does once both stores are connected: [log.Fatalf] ends the
    program with the error it is given. *)
Definition main (mdb : MongoDatabase) : M (option error) :=
  e <- Migrate ;;
  match e with
  | Some err => Printf "Failed to run migrations: %v" [] (Some err) ;; ret (Some err)
  | None =>
      e' <- migrateAll mdb ;;
      match e' with
      | Some err => Printf "Migration failed: %v" [] (Some err) ;; ret (Some err)
      | None => Printf "Migration completed successfully!" [] None ;; ret None
      end
  end.

End Migration.

(** * Predicates used in the statements *)

(** [m] keeps the property [Q] of the tables, whatever it returns. *)
Definition preserves {A : Type} (Q : gmap string (list Row) -> Prop) (m : M A) : Prop :=
  forall w : World, Q (tables w) -> Q (tables (snd (m w))).

(** [Q] survives the insertion of [r] into its table. *)
Definition stableUnder (Q : gmap string (list Row) -> Prop) (r : Row) : Prop :=
  forall (ts : gmap string (list Row)) (rows : list Row),
    Q ts -> ts !! TableName r = Some rows -> existsb (conflicts r) rows = false ->
    Q (<[TableName r := (rows ++ [r])%list]> ts).

(** A property of one table is kept by an insert into another table. *)
Definition onTable (table : string) (P : option (list Row) -> Prop)
    (ts : gmap string (list Row)) : Prop :=
  P (ts !! table).

(** At most one row, and no row with another primary key than the empty
    string. *)
Definition atMostOneItem : gmap string (list Row) -> Prop :=
  onTable PackageItem.TableName
    (fun t => match t with
              | None => True
              | Some rows =>
                  (length rows <= 1)%nat /\ Forall (fun r => primaryKey r = Some "") rows
              end).

(** None of the next [n] calls to the destination fails by itself. *)
Definition noFault (n : nat) (w : World) : Prop :=
  forallb negb (firstn n (faults w)) = true.

(** * The classification as the specification words it *)

(** The eight embedded documents of a charge. *)
Inductive SubObject : Type :=
| RoamingInvoiceDoc
| RoamingContractDoc
| RoamingWaybillDoc
| RoamingActDoc
| RoamingVerificationActDoc
| RoamingEmpowermentDoc
| ReturnInvoiceDoc
| AttorneyDoc.

(** The order in which they are tested. *)
Definition priority : list SubObject :=
  [ RoamingInvoiceDoc; RoamingContractDoc; RoamingWaybillDoc; RoamingActDoc;
    RoamingVerificationActDoc; RoamingEmpowermentDoc; ReturnInvoiceDoc; AttorneyDoc ].

(** The static code table. *)
Definition typeCode (k : SubObject) : Z :=
  match k with
  | RoamingInvoiceDoc => 3
  | RoamingContractDoc => 7
  | RoamingWaybillDoc => 10
  | RoamingActDoc => 9
  | RoamingVerificationActDoc => 8
  | RoamingEmpowermentDoc => 11
  | ReturnInvoiceDoc => 2
  | AttorneyDoc => 4
  end.

(** The field of the charge that holds a given embedded document. *)
Definition subObject (k : SubObject) (c : mongoCharge.t) : option Document :=
  match k with
  | RoamingInvoiceDoc => mongoCharge.RoamingInvoice c
  | RoamingContractDoc => mongoCharge.RoamingContract c
  | RoamingWaybillDoc => mongoCharge.RoamingWaybill c
  | RoamingActDoc => mongoCharge.RoamingAct c
  | RoamingVerificationActDoc => mongoCharge.RoamingVerificationAct c
  | RoamingEmpowermentDoc => mongoCharge.RoamingEmpowerment c
  | ReturnInvoiceDoc => mongoCharge.EDIReturnInvoice c
  | AttorneyDoc => mongoCharge.EDIAttorney c
  end.

(** The first embedded document of the list that is present, with its kind. *)
Fixpoint firstPresent (ks : list SubObject) (c : mongoCharge.t)
  : option (SubObject * Document) :=
  match ks with
  | [] => None
  | k :: ks' =>
      match subObject k c with
      | Some m => Some (k, m)
      | None => firstPresent ks' c
      end
  end.

(** The field that carries the first date of an embedded document: the
    start of the validity interval for the two kinds that have one. *)
Definition dateField (k : SubObject) : string :=
  match k with
  | RoamingEmpowermentDoc | AttorneyDoc => "start_date"
  | _ => "date"
  end.

(** * Sample inputs *)

(** An identifier whose last byte is [b]. *)
Definition sampleID (b : Byte.byte) : ObjectID := (repeat Byte.x00 11 ++ [b])%list.

(** 2023-11-14T22:13:20Z. *)
Definition sampleTime : Time := Unix 1700000000 0.

(** The destination right after a successful [Migrate], with no failing
    call ahead. *)
Definition freshWorld : World :=
  mkWorld (createMissing ∅ modelTables) [] (fun _ => sampleTime) 0
          (fun n => sampleID (default Byte.x00 (Byte.of_N (N.of_nat n mod 256)))) 0 [].

(** A parser that rejects every value, for runs in which no date is a
    string. *)
Definition rejectAll (layout value : string) : error + Time := inl (Driver Malformed).

(** An organization that used one demo service. *)
Definition sampleOrganization : mongoOrganization.t :=
  mongoOrganization.mk (sampleID Byte.x01) sampleTime sampleTime None false "Acme"
    None None 0%float 0%float 0%float 0%float 0%float "A-1" None "" (OfferInfo.mk "" None) []
    [ServiceRef.mk (sampleID Byte.x0a) "EDI" "edi"].

Definition sampleItem (code : Z) : mongoPackageItem.t :=
  mongoPackageItem.mk "item" code false 0%float 0%float false 10.

(** A package with two items and one bonus package. *)
Definition samplePackage : mongoPackage.t :=
  mongoPackage.mk (sampleID Byte.x02) sampleTime sampleTime None false "Basic"
    0%float 0%float 30 0 false true (ServiceRef.mk (sampleID Byte.x0a) "EDI" "edi")
    [sampleItem 1; sampleItem 2] false [sampleID Byte.x03].

(** A source that holds the sample organization and the sample package. *)
Definition sampleSource : MongoDatabase :=
  Build_MongoDatabase (inr []) (inr [inr sampleOrganization]) (inr [inr samplePackage])
    (inr []) (inr []) (inr []) (inr []) (inr []) (inr []) (inr []).

(** The rows of a table, none when the table does not exist. *)
Definition rowsOf (table : string) (w : World) : list Row :=
  default [] (tables w !! table).

(** A charge created at [created] that carries the given embedded
    documents, in the order of the struct's fields. *)
Definition sampleCharge (created : Time)
    (returnInvoice attorney invoice contract waybill act verificationAct empowerment
       : option Document) : mongoCharge.t :=
  mongoCharge.mk (sampleID Byte.x04) created false
    (OrgRef.mk (sampleID Byte.x01) "Acme" "")
    0%float (ChargePackage.mk (sampleID Byte.x02) "Basic" 1) "edi"
    (ChargeItem.mk "item" 1 false 0%float false 10)
    returnInvoice attorney invoice contract waybill act verificationAct empowerment.

(** A roaming invoice with an identifier, a number and a native date. *)
Definition sampleInvoice : Document :=
  <["_id" := VString "inv-1"]> (<["number" := VString "42"]> (<["date" := VTime sampleTime]> ∅)).

(** An embedded document whose [date] is the string form of
    2023-05-01T00:00:00Z. *)
Definition stringDated : Document :=
  <["_id" := VString "doc-1"]> (<["date" := VString "2023-05-01T00:00:00Z"]> ∅).

(** A parser that knows the one string used above and rejects the rest. *)
Definition parseSample (layout value : string) : error + Time :=
  if String.eqb value "2023-05-01T00:00:00Z" then inr (Unix 1682899200 0)
  else inl (Driver Malformed).

(** A charge with a roaming contract whose date is a string. *)
Definition contractCharge : mongoCharge.t :=
  sampleCharge sampleTime None None None (Some stringDated) None None None None.

(** The same charge with the document held as a roaming invoice. *)
Definition invoiceCharge : mongoCharge.t :=
  sampleCharge sampleTime None None (Some stringDated) None None None None None.

(** A charge without any embedded document, created 1969-12-31T00:00:00Z. *)
Definition oldCharge : mongoCharge.t :=
  sampleCharge (Unix (-86400) 0) None None None None None None None None.

(** A charge without any embedded document, created at [sampleTime]. *)
Definition plainCharge : mongoCharge.t :=
  sampleCharge sampleTime None None None None None None None None.

(** A row with the primary key [id] is stored in [table]. *)
Definition present (table id : string) (w : World) : Prop :=
  exists (rows : list Row) (r : Row),
    tables w !! table = Some rows /\ In r rows /\ primaryKey r = Some id.

(** The loop over the documents of a collection passes over a document whose
    identifier is already stored in [table], provided the existence query
    itself does not fail: the destination is left as it was, the loop
    variables change by [skip], and the loop goes on with the next document. *)
Definition skipsExisting {A S : Type} (step : error + A -> S -> M (error + S))
    (table : string) (idOf : A -> ObjectID) (skip : S -> S) : Prop :=
  forall (a : A) (st : S) (rest : list (error + A)) (w : World),
    present table (Hex (idOf a)) w -> noFault 1 w ->
    exists w' : World,
      forEach step (inr a :: rest) st w = forEach step rest (skip st) w' /\
      tables w' = tables w.

(** The zero time. *)
Definition zeroTime : Time := mkTime 0 0 0.

(** A Payme transaction whose two creation timestamps are unset. *)
Definition undatedPayme : mongoPaymeTransaction.t :=
  mongoPaymeTransaction.mk (sampleID Byte.x05) zeroTime "p-1" zeroTime None 2 0%float None
    (OrgRef.mk (sampleID Byte.x01) "Acme" "") 0 None.

(** A service and the world in which it is already stored. *)
Definition sampleService : mongoService.t :=
  mongoService.mk (sampleID Byte.x06) sampleTime "EDI" "edi".

Definition worldWithService (fs : list bool) : World :=
  mkWorld (<[Service.TableName := [RService (serviceRow sampleService)]]>
             (createMissing ∅ modelTables))
          fs (fun _ => sampleTime) 0 (fun _ => sampleID Byte.x00) 0 [].

(** A source that holds the sample service only. *)
Definition serviceSource : MongoDatabase :=
  Build_MongoDatabase (inr [inr sampleService]) (inr []) (inr []) (inr []) (inr []) (inr [])
    (inr []) (inr []) (inr []) (inr []).

(** A source whose collection of services cannot be read. *)
Definition unreadableServices : MongoDatabase :=
  Build_MongoDatabase (inl (Driver Unavailable)) (inr []) (inr []) (inr []) (inr []) (inr [])
    (inr []) (inr []) (inr []) (inr []).

(** An empty source whose last collection cannot be read. *)
Definition unreadableBankErrors : MongoDatabase :=
  Build_MongoDatabase (inr []) (inr []) (inr []) (inr []) (inr []) (inr [])
    (inr []) (inr []) (inr []) (inl (Driver Unavailable)).

(** A source that holds the undated Payme transaction only. *)
Definition paymeSource : MongoDatabase :=
  Build_MongoDatabase (inr []) (inr []) (inr []) (inr []) (inr []) (inr [])
    (inr [inr undatedPayme]) (inr []) (inr []) (inr []).

(** The world in which the sample organization is already stored. *)
Definition worldWithOrganization (fs : list bool) : World :=
  mkWorld (<[Organization.TableName := [ROrganization (organizationRow sampleOrganization)]]>
             (createMissing ∅ modelTables))
          fs (fun _ => sampleTime) 0 (fun _ => sampleID Byte.x00) 0 [].

(** * Start-up ([main] before the stores are connected) *)

(** [getEnv]: [os.Getenv] yields the empty string for a variable that is not
    set; [env] maps the variables that are set to their values. *)
Definition getEnv (env : gmap string string) (key defaultValue : string) : string :=
  let value := default "" (env !! key) in
  if negb (String.eqb value "") then value else defaultValue.

(** The values of the flags after [flag.Parse]: the value given on the
    command line ([args], by flag name) or else the default of the flag. *)
Record Flags : Type := mkFlags {
  mongoURI : string;
  mongoDBName : string;
  mysqlUser : string;
  mysqlPass : string;
  mysqlAddr : string;
  mysqlDBName : string;
  tz : string
}.

Definition flagString (args : gmap string string) (name value : string) : string :=
  default value (args !! name).

(** The seven [flag.String] declarations followed by [flag.Parse]. *)
Definition parseFlags (env args : gmap string string) : Flags :=
  mkFlags
    (flagString args "mongo-uri" (getEnv env "mongodb://localhost:27017" "mongodb://localhost:27017"))
    (flagString args "mongo-db" (getEnv env "billingService" "billingService"))
    (flagString args "mysql-user" (getEnv env "root" "root"))
    (flagString args "mysql-pass" (getEnv env "123" "123"))
    (flagString args "mysql-addr" (getEnv env "127.0.0.1:3306" "127.0.0.1:3306"))
    (flagString args "mysql-db" (getEnv env "billingService" "billing_service"))
    (flagString args "tz" (getEnv env "TZ" "UTC")).

(** The validation of the required parameters: the message of [log.Fatal]
    when one is missing. *)
Definition validateFlags (f : Flags) : option string :=
  if String.eqb (mongoURI f) "" then Some "MongoDB URI is required"
  else if String.eqb (mysqlPass f) "" then Some "MySQL password is required"
  else None.

(** * Further predicates *)

(** A nullable timestamp column holds nil or a timestamp that is not the
    zero time and whose year lies in 1970..2100. *)
Definition storable (o : option Time) : Prop :=
  match o with
  | None => True
  | Some t => IsZero t = false /\ 1970 <= Year t <= 2100
  end.

(** [ts] has the tables of [ts0] and no other, each with the rows it had in
    [ts0], in the same order, followed by further rows. *)
Definition extends (ts0 ts : gmap string (list Row)) : Prop :=
  forall table : string,
    match ts0 !! table with
    | None => ts !! table = None
    | Some rows => exists extra : list Row, ts !! table = Some (rows ++ extra)%list
    end.

(** No call to the destination fails from now on. *)
Definition noFaults (w : World) : Prop := forallb negb (faults w) = true.

(** A migrator returns the error of the source as it is, and leaves the
    destination as it was, when its collection cannot be read or when the
    first document of the cursor does not decode. *)
Definition returnsSourceError {A : Type} (migrate : MongoDatabase -> M (option error))
    (coll : MongoDatabase -> Collection A) : Prop :=
  forall (mdb : MongoDatabase) (w : World) (err : error),
    (coll mdb = inl err \/ exists rest : list (error + A), coll mdb = inr (inl err :: rest)) ->
    fst (migrate mdb w) = Some err /\ tables (snd (migrate mdb w)) = tables w.

(** A second pass over the documents of a pass that succeeded passes over
    every one of them: when the documents were all migrated or skipped by a
    first pass, a later pass over the same documents, on a destination that
    holds at least the rows the first pass left and whose next calls do not
    fail, changes the loop variables by [skip] once per document and leaves
    the destination as it is. *)
Definition rerunSkipsAll {A S : Type} (step : error + A -> S -> M (error + S))
    (skip : S -> S) : Prop :=
  forall (ds : list A) (st st' st2 : S) (w w2 : World),
    fst (forEach step (map inr ds) st w) = inr st' ->
    extends (tables (snd (forEach step (map inr ds) st w))) (tables w2) ->
    noFault (length ds) w2 ->
    fst (forEach step (map inr ds) st2 w2) = inr (Nat.iter (length ds) skip st2) /\
    tables (snd (forEach step (map inr ds) st2 w2)) = tables w2.

(** Every document of a loop that runs to its end is counted once, as moved
    or as skipped; [moved] and [skipped] read the two counters off the loop
    variables, which start at [init]. *)
Definition countsEvery {A S : Type} (step : A -> S -> M (error + S))
    (moved skipped : S -> Z) (init : S) : Prop :=
  forall (docs : list A) (s' : S) (w : World),
    Z.of_nat (length docs) < 2 ^ 63 ->
    fst (forEach step docs init w) = inr s' ->
    0 <= moved s' /\ 0 <= skipped s' /\
    moved s' + skipped s' = Z.of_nat (length docs).

Definition sampleBoughtItem (code : Z) : BoughtItem.t :=
  BoughtItem.mk "item" code false 0%float false 10 0.

(** A bought package with two items. *)
Definition sampleBoughtPackage : mongoBoughtPackage.t :=
  mongoBoughtPackage.mk (sampleID Byte.x07) (OrgRef.mk (sampleID Byte.x01) "Acme" "")
    (BoughtPackageRef.mk (sampleID Byte.x02) "Basic" 0%float false
                         [sampleBoughtItem 1; sampleBoughtItem 2])
    sampleTime sampleTime false false 0%float.

(** An attorney valid from [sampleTime] to 2024-01-01T00:00:00Z. *)
Definition samplePeriod : Document :=
  <["_id" := VString "att-1"]>
    (<["start_date" := VTime sampleTime]> (<["end_date" := VTime (Unix 1704067200 0)]> ∅)).

(** A charge for that attorney. *)
Definition attorneyCharge : mongoCharge.t :=
  sampleCharge sampleTime None (Some samplePeriod) None None None None None None.

(** The ten collections are readable and hold no document. *)
Definition emptySource (mdb : MongoDatabase) : Prop :=
  services mdb = inr [] /\ organizations mdb = inr [] /\ packages mdb = inr [] /\
  boughtPackages mdb = inr [] /\ charges mdb = inr [] /\ payments mdb = inr [] /\
  paymeTransactions mdb = inr [] /\ organizationBalanceBindings mdb = inr [] /\
  creditUpdates mdb = inr [] /\ bankPaymentsAutoApplyErrors mdb = inr [].

(** The computation returns no error and leaves the tables as they are, in
    every world. *)
Definition quiet (m : M (option error)) : Prop :=
  forall w : World, fst (m w) = None /\ tables (snd (m w)) = tables w.

(** A source whose ten collections are empty. *)
Definition emptyDatabase : MongoDatabase :=
  Build_MongoDatabase (inr []) (inr []) (inr []) (inr []) (inr []) (inr []) (inr [])
                      (inr []) (inr []) (inr []).

(** A first pass over documents that are not stored yet: [step] reads the
    documents [ds], whose identifiers differ from each other and from those
    of the rows [table] holds, while none of the two calls per document
    fails by itself.  Every document is counted as moved and the rows
    [row d] are appended to the table in the order of the documents. *)
Definition movesAll {A : Type} (step : error + A -> Z * Z -> M (error + Z * Z))
    (table : string) (key : A -> ObjectID) (row : A -> Row) : Prop :=
  forall (ds : list A) (rows : list Row) (moved skipped : Z) (w : World),
    tables w !! table = Some rows ->
    noFault (2 * length ds) w ->
    NoDup (map (fun d => Hex (key d)) ds) ->
    (forall (d : A) (r : Row), In d ds -> In r rows -> primaryKey r <> Some (Hex (key d))) ->
    fst (forEach step (map inr ds) (moved, skipped) w)
    = inr (Nat.iter (length ds) incr moved, skipped) /\
    tables (snd (forEach step (map inr ds) (moved, skipped) w))
    = <[table := (rows ++ map row ds)%list]> (tables w).

(** A payment of the sample organization with the identifier [id]. *)
Definition samplePayment (id : Byte.byte) : mongoPayment.t :=
  mongoPayment.mk (sampleID id) sampleTime 0%float (OrgRef.mk (sampleID Byte.x01) "Acme" "")
                  (AccountRef.mk (sampleID Byte.x09) "Ann" "ann") 1 None.

(** The destination after a first pass over the sample organization: its row
    and the row of its demo use are stored. *)
Definition migratedOrganization : World :=
  mkWorld (<[OrganizationServiceDemoUses.TableName :=
               [ROrganizationServiceDemoUses
                  (demoUseRow sampleOrganization
                              (ServiceRef.mk (sampleID Byte.x0a) "EDI" "edi"))]]>
             (<[Organization.TableName := [ROrganization (organizationRow sampleOrganization)]]>
                (createMissing ∅ modelTables)))
          [] (fun _ => sampleTime) 0 (fun _ => sampleID Byte.x00) 0 [].

(** * Properties *)

(** ** The sanitizer *)

Lemma validateDateTime_None (t : Time) :
  validateDateTime t = None <->
  IsZero t = true \/ Year t < 1970 \/ Year t > 2100 \/ Year t = 0.
Proof.
  unfold validateDateTime.
  destruct (IsZero t) eqn:Hz; simpl.
  - split; [intros _; now left | reflexivity].
  - destruct (Z.ltb_spec (Year t) 1970) as [Hlo | Hlo]; simpl.
    + split; [intros _; right; now left | reflexivity].
    + destruct (Z.gtb_spec (Year t) 2100) as [Hhi | Hhi]; simpl.
      * split; [intros _; right; right; left; lia | reflexivity].
      * destruct (Z.eqb_spec (Year t) 0) as [H0 | H0]; simpl.
        -- lia.
        -- split; [discriminate |].
           intros [H | [H | [H | H]]]; [discriminate | lia | lia | lia].
Qed.

Lemma validateDateTime_unchanged (t v : Time) :
  validateDateTime t = Some v -> v = t.
Proof.
  unfold validateDateTime.
  destruct (IsZero t || (Year t <? 1970) || (Year t >? 2100) || (Year t =? 0));
    congruence.
Qed.

(** The zero instant, seen from a location at most a day away from UTC,
    falls in year 0 or year 1. *)
Lemma IsZero_Year (t : Time) :
  IsZero t = true -> Z.abs (offset t) <= 86400 -> Year t = 0 \/ Year t = 1.
Proof.
  unfold IsZero, Year, absDays. intros Hz Hoff.
  apply andb_true_iff in Hz as [Hs _]. apply Z.eqb_eq in Hs. rewrite Hs, Z.add_0_l.
  assert (Hc : offset t / 86400 = -1 \/ offset t / 86400 = 0 \/ offset t / 86400 = 1).
  { pose proof (Z.div_mod (offset t) 86400 ltac:(lia)) as Hdm.
    pose proof (Z.mod_pos_bound (offset t) 86400 ltac:(lia)) as Hm.
    lia. }
  destruct Hc as [-> | [-> | ->]]; vm_compute; auto.
Qed.

(** C4. [validateDateTime] returns nil exactly when the timestamp is the zero
    value, or its year is below 1970, above 2100 or equal to 0, and returns
    the timestamp unchanged otherwise; a timestamp of year 1 and one of year
    2200 are mapped to nil, one of year 2023 (in a location at most a day
    away from UTC) is returned unchanged. *)
Theorem validateDateTime_spec :
  (forall t : Time,
      validateDateTime t = None <->
      IsZero t = true \/ Year t < 1970 \/ Year t > 2100 \/ Year t = 0) /\
  (forall t : Time, validateDateTime t <> None -> validateDateTime t = Some t) /\
  (forall t : Time, Year t = 1 -> validateDateTime t = None) /\
  (forall t : Time, Year t = 2200 -> validateDateTime t = None) /\
  (forall t : Time,
      Year t = 2023 -> Z.abs (offset t) <= 86400 -> validateDateTime t = Some t).
Proof.
  split; [exact validateDateTime_None |].
  split.
  { intros t Hn. destruct (validateDateTime t) as [v |] eqn:Hv; [| congruence].
    now rewrite (validateDateTime_unchanged t v Hv). }
  split; [intros t Hy; apply validateDateTime_None; lia |].
  split; [intros t Hy; apply validateDateTime_None; lia |].
  intros t Hy Hoff.
  destruct (validateDateTime t) as [v |] eqn:Hv.
  - now rewrite (validateDateTime_unchanged t v Hv).
  - apply validateDateTime_None in Hv as [Hz | Hv]; [| lia].
    destruct (IsZero_Year t Hz Hoff); lia.
Qed.

(** 0001-06-15, 2200-01-01 and 2023-06-15T12:00:00, all UTC. *)
Lemma validateDateTime_spec_witness :
  validateDateTime (mkTime 14256000 0 0) = None /\
  validateDateTime (Unix 7258118400 0) = None /\
  validateDateTime (Unix 1686830400 0) = Some (Unix 1686830400 0).
Proof.
  destruct validateDateTime_spec as (_ & _ & H1 & H2200 & H2023).
  split; [apply H1; vm_compute; reflexivity |].
  split; [apply H2200; vm_compute; reflexivity |].
  apply H2023; vm_compute; [reflexivity | discriminate].
Defined.

(** ** Running a computation *)

Lemma bind_run {A B : Type} (m : M A) (k : A -> M B) (w : World) :
  bind m k w = k (fst (m w)) (snd (m w)).
Proof. unfold bind. now destruct (m w). Qed.

Lemma tables_fault (w : World) : tables (snd (fault w)) = tables w.
Proof. unfold fault. now destruct (faults w). Qed.

Lemma fault_noFault (n : nat) (w : World) :
  noFault (S n) w ->
  fst (fault w) = false /\ tables (snd (fault w)) = tables w /\ noFault n (snd (fault w)).
Proof.
  unfold noFault, fault. destruct (faults w) as [| b fs] eqn:Hf; simpl.
  - intros _. rewrite Hf. now destruct n.
  - intros H. apply andb_true_iff in H as [Hb Hfs].
    destruct b; [discriminate |]. auto.
Qed.

(** ** Properties of the destination tables kept by every call *)

Section Preservation.

Variable Q : gmap string (list Row) -> Prop.

Lemma preserves_ret {A : Type} (a : A) : preserves Q (ret a).
Proof. intros w H. exact H. Qed.

Lemma preserves_bind {A B : Type} (m : M A) (k : A -> M B) :
  preserves Q m -> (forall a : A, preserves Q (k a)) -> preserves Q (bind m k).
Proof.
  intros Hm Hk w H. unfold bind.
  specialize (Hm w H). destruct (m w) as [a w']. simpl in Hm.
  exact (Hk a w' Hm).
Qed.

Lemma preserves_Printf (format : string) (args : list Arg) (err : option error) :
  preserves Q (Printf format args err).
Proof. intros w H. exact H. Qed.

Lemma preserves_Now : preserves Q Now.
Proof. intros w H. exact H. Qed.

Lemma preserves_NewObjectID : preserves Q NewObjectID.
Proof. intros w H. exact H. Qed.

Lemma preserves_fault : preserves Q fault.
Proof. intros w H. unfold fault. destruct (faults w); exact H. Qed.

Lemma preserves_Count (table : string) : preserves Q (Count table).
Proof.
  apply preserves_bind; [apply preserves_fault |].
  intros [|]; [apply preserves_ret |].
  intros w H. destruct (tables w !! table); exact H.
Qed.

Lemma preserves_CountWhereID (table id : string) : preserves Q (CountWhereID table id).
Proof.
  apply preserves_bind; [apply preserves_fault |].
  intros [|]; [apply preserves_ret |].
  intros w H. destruct (tables w !! table); exact H.
Qed.

Lemma preserves_Create (r : Row) : stableUnder Q r -> preserves Q (Create r).
Proof.
  intros Hr. apply preserves_bind; [apply preserves_fault |].
  intros [|]; [apply preserves_ret |].
  intros w H. destruct (tables w !! TableName r) as [rows |] eqn:Ht; [| exact H].
  destruct (existsb (conflicts r) rows) eqn:Hc; [exact H |].
  simpl. now apply Hr.
Qed.

Lemma preserves_CreateOnConflictDoNothing (r : Row) :
  stableUnder Q r -> preserves Q (CreateOnConflictDoNothing r).
Proof.
  intros Hr. apply preserves_bind; [apply preserves_fault |].
  intros [|]; [apply preserves_ret |].
  intros w H. destruct (tables w !! TableName r) as [rows |] eqn:Ht; [| exact H].
  destruct (existsb (conflicts r) rows) eqn:Hc; [exact H |].
  simpl. now apply Hr.
Qed.

Lemma preserves_mongoCount {A : Type} (coll : Collection A) (collection : string) :
  preserves Q (mongoCount coll collection).
Proof.
  destruct coll; simpl; [| apply preserves_ret].
  apply preserves_bind; [apply preserves_Printf | intros; apply preserves_ret].
Qed.

Lemma preserves_mysqlCount (table : string) : preserves Q (mysqlCount table).
Proof.
  apply preserves_bind; [apply preserves_Count |].
  intros [err | count]; [| apply preserves_ret].
  apply preserves_bind; [apply preserves_Printf | intros; apply preserves_ret].
Qed.

Lemma preserves_checkRecordExists (table id : string) :
  preserves Q (checkRecordExists table id).
Proof.
  apply preserves_bind; [apply preserves_CountWhereID |].
  intros [err | count]; [| apply preserves_ret].
  apply preserves_bind; [apply preserves_Printf | intros; apply preserves_ret].
Qed.

Lemma preserves_forEach {A S : Type} (body : A -> S -> M (error + S)) (xs : list A) :
  (forall (x : A) (s : S), In x xs -> preserves Q (body x s)) ->
  forall s : S, preserves Q (forEach body xs s).
Proof.
  induction xs as [| x xs IH]; intros Hbody s; simpl.
  - apply preserves_ret.
  - apply preserves_bind.
    + apply Hbody. now left.
    + intros [err | s']; [apply preserves_ret |].
      apply IH. intros y t Hy. apply Hbody. now right.
Qed.

End Preservation.

(** Walks through a computation written with [bind], splitting on every
    scrutinee, and leaves the [stableUnder] side conditions of the inserts. *)
Ltac preserve :=
  repeat first
    [ apply preserves_ret
    | apply preserves_Printf
    | apply preserves_Now
    | apply preserves_NewObjectID
    | apply preserves_mongoCount
    | apply preserves_mysqlCount
    | apply preserves_checkRecordExists
    | apply preserves_Create
    | apply preserves_CreateOnConflictDoNothing
    | apply preserves_bind; [| intros ?]
    | apply preserves_forEach; intros ? ? ?
    | match goal with
      | |- preserves _ (match ?x with _ => _ end) => destruct x
      end ].

Lemma stableUnder_other (table : string) (P : option (list Row) -> Prop) (r : Row) :
  TableName r <> table -> stableUnder (onTable table P) r.
Proof.
  intros Hne ts rows H _ _. unfold onTable in *.
  now rewrite lookup_insert_ne.
Qed.

(** ** The classification of a charge *)

Section Classification.

Variable Parse : string -> string -> error + Time.

(** [resolveCharge] reads the embedded documents of a charge and nothing
    else, and only as far as the first one that is present. *)
Lemma resolveCharge_firstPresent (c c' : mongoCharge.t) :
  firstPresent priority c = firstPresent priority c' ->
  resolveCharge Parse c = resolveCharge Parse c'.
Proof.
  unfold resolveCharge, priority. cbn [firstPresent subObject].
  intros H.
  repeat match type of H with
         | context [match ?x with _ => _ end] => destruct x
         end;
    first [discriminate H | inversion H; subst; reflexivity | reflexivity].
Qed.

Lemma resolveCharge_winner (c : mongoCharge.t) (k : SubObject) (m : Document) :
  firstPresent priority c = Some (k, m) ->
  chargeType (resolveCharge Parse c) = typeCode k /\
  objectId (resolveCharge Parse c) = default "" (assertString m "_id") /\
  number (resolveCharge Parse c) = default "" (assertString m "number") /\
  (forall t : Time, assertTime m (dateField k) = Some t ->
      date1 (resolveCharge Parse c) = Some t).
Proof.
  unfold resolveCharge, priority. cbn [firstPresent subObject].
  destruct (mongoCharge.RoamingInvoice c);
    [intros [= <- <-]; cbn; repeat split; intros t ->; reflexivity |].
  destruct (mongoCharge.RoamingContract c);
    [intros [= <- <-]; cbn; repeat split; intros t ->; reflexivity |].
  destruct (mongoCharge.RoamingWaybill c);
    [intros [= <- <-]; cbn; repeat split; intros t ->; reflexivity |].
  destruct (mongoCharge.RoamingAct c);
    [intros [= <- <-]; cbn; repeat split; intros t ->; reflexivity |].
  destruct (mongoCharge.RoamingVerificationAct c);
    [intros [= <- <-]; cbn; repeat split; intros t ->; reflexivity |].
  destruct (mongoCharge.RoamingEmpowerment c);
    [intros [= <- <-]; cbn; repeat split; intros t ->; reflexivity |].
  destruct (mongoCharge.EDIReturnInvoice c);
    [intros [= <- <-]; cbn; repeat split; intros t ->; reflexivity |].
  destruct (mongoCharge.EDIAttorney c);
    [intros [= <- <-]; cbn; repeat split; intros t ->; reflexivity |].
  discriminate.
Qed.

(** C1. The embedded documents are tested in the order roaming invoice,
    roaming contract, roaming waybill, roaming act, roaming verification act,
    roaming empowerment, return invoice, attorney; the first one present
    fixes the type code (3, 7, 10, 9, 8, 11, 2, 4 in that order), and the
    object id, the number and the date are read from that document alone: two
    charges with the same first present document are classified alike.  A
    charge whose only embedded document is a roaming invoice has code 3. *)
Theorem resolveCharge_priority :
  priority = [ RoamingInvoiceDoc; RoamingContractDoc; RoamingWaybillDoc; RoamingActDoc;
               RoamingVerificationActDoc; RoamingEmpowermentDoc; ReturnInvoiceDoc;
               AttorneyDoc ] /\
  map typeCode priority = [3; 7; 10; 9; 8; 11; 2; 4] /\
  (forall (c : mongoCharge.t) (k : SubObject) (m : Document),
      firstPresent priority c = Some (k, m) ->
      chargeType (resolveCharge Parse c) = typeCode k /\
      objectId (resolveCharge Parse c) = default "" (assertString m "_id") /\
      number (resolveCharge Parse c) = default "" (assertString m "number") /\
      (forall t : Time, assertTime m (dateField k) = Some t ->
          date1 (resolveCharge Parse c) = Some t)) /\
  (forall c c' : mongoCharge.t,
      firstPresent priority c = firstPresent priority c' ->
      resolveCharge Parse c = resolveCharge Parse c') /\
  (forall (c : mongoCharge.t) (m : Document),
      mongoCharge.RoamingInvoice c = Some m ->
      mongoCharge.RoamingContract c = None ->
      mongoCharge.RoamingWaybill c = None ->
      mongoCharge.RoamingAct c = None ->
      mongoCharge.RoamingVerificationAct c = None ->
      mongoCharge.RoamingEmpowerment c = None ->
      mongoCharge.EDIReturnInvoice c = None ->
      mongoCharge.EDIAttorney c = None ->
      chargeType (resolveCharge Parse c) = 3 /\
      objectId (resolveCharge Parse c) = default "" (assertString m "_id") /\
      number (resolveCharge Parse c) = default "" (assertString m "number") /\
      (forall t : Time, assertTime m "date" = Some t ->
          date1 (resolveCharge Parse c) = Some t)).
Proof.
  split; [reflexivity |]. split; [reflexivity |].
  split; [exact resolveCharge_winner |].
  split; [exact resolveCharge_firstPresent |].
  intros c m Hinv _ _ _ _ _ _ _.
  apply (resolveCharge_winner c RoamingInvoiceDoc m).
  simpl. now rewrite Hinv.
Qed.

End Classification.

Lemma resolveCharge_priority_witness :
  chargeType (resolveCharge rejectAll
    (sampleCharge sampleTime None None (Some sampleInvoice) None None None None None)) = 3 /\
  objectId (resolveCharge rejectAll
    (sampleCharge sampleTime None None (Some sampleInvoice) None None None None None)) = "inv-1" /\
  number (resolveCharge rejectAll
    (sampleCharge sampleTime None None (Some sampleInvoice) None None None None None)) = "42" /\
  date1 (resolveCharge rejectAll
    (sampleCharge sampleTime None None (Some sampleInvoice) None None None None None))
  = Some sampleTime.
Proof.
  destruct (resolveCharge_priority rejectAll) as (_ & _ & _ & _ & H).
  destruct (H (sampleCharge sampleTime None None (Some sampleInvoice) None None None None None)
              sampleInvoice) as (H1 & H2 & H3 & H4); try reflexivity.
  split; [exact H1 |]. split; [exact H2 |]. split; [exact H3 |].
  apply H4. reflexivity.
Defined.

Section Dates.

Variable Parse : string -> string -> error + Time.

(** C3. Where the first present embedded document carries its date as a
    string, the string is parsed only for a roaming invoice; for the seven
    other kinds no date is read from the document, and the stored [date1] is
    the sanitized creation timestamp of the charge. *)
Theorem string_date_parsed_for_roaming_invoice_only
    (c : mongoCharge.t) (k : SubObject) (m : Document) (s : string) :
  firstPresent priority c = Some (k, m) ->
  m !! dateField k = Some (VString s) ->
  date1 (resolveCharge Parse c) =
    match k with
    | RoamingInvoiceDoc =>
        match Parse RFC3339 s with
        | inr t => Some t
        | inl _ => None
        end
    | _ => None
    end /\
  (k <> RoamingInvoiceDoc ->
   Charge.Date1 (chargeRow Parse c) = validateDateTime (mongoCharge.CreatedAt c)).
Proof.
  unfold chargeRow, date1OrCreatedAt, resolveCharge, priority.
  cbn [firstPresent subObject]. intros H Hs.
  repeat match type of H with
         | context [match ?x with _ => _ end] => destruct x
         end;
    try discriminate H; inversion H; subst; cbn in Hs |- *;
    unfold assertTime, assertString; rewrite Hs; cbn;
    (split; [reflexivity | intros Hk; first [reflexivity | contradiction]]).
Qed.

(** C8 as amended. A charge without any embedded document gets the code 0,
    and its date falls back to its creation timestamp, which is stored when
    the sanitizer accepts it; when the sanitizer rejects it the stored
    [date1] is nil. *)
Theorem uncategorized_charge (c : mongoCharge.t) :
  firstPresent priority c = None ->
  chargeType (resolveCharge Parse c) = 0 /\
  date1OrCreatedAt Parse c = Some (mongoCharge.CreatedAt c) /\
  Charge.Type_ (chargeRow Parse c) = 0 /\
  Charge.Date1 (chargeRow Parse c) = validateDateTime (mongoCharge.CreatedAt c) /\
  (validateDateTime (mongoCharge.CreatedAt c) <> None ->
   Charge.Date1 (chargeRow Parse c) = Some (mongoCharge.CreatedAt c)).
Proof.
  unfold chargeRow, date1OrCreatedAt, resolveCharge, priority.
  cbn [firstPresent subObject]. intros H.
  repeat match type of H with
         | context [match ?x with _ => _ end] => destruct x
         end;
    try discriminate H.
  cbn. repeat split.
  intros Hv. destruct (validateDateTime (mongoCharge.CreatedAt c)) as [v |] eqn:Hc;
    [| contradiction].
  now rewrite (validateDateTime_unchanged _ _ Hc).
Qed.

End Dates.

(** The roaming contract of [contractCharge] is dated by a string the parser
    reads, yet no date is taken from it; held as a roaming invoice, the same
    document gives its date. *)
Lemma string_date_parsed_for_roaming_invoice_only_witness :
  date1 (resolveCharge parseSample contractCharge) = None /\
  Charge.Date1 (chargeRow parseSample contractCharge) = Some sampleTime /\
  date1 (resolveCharge parseSample invoiceCharge) = Some (Unix 1682899200 0).
Proof.
  destruct (string_date_parsed_for_roaming_invoice_only parseSample contractCharge
              RoamingContractDoc stringDated "2023-05-01T00:00:00Z"
              eq_refl eq_refl) as [H1 H2].
  destruct (string_date_parsed_for_roaming_invoice_only parseSample invoiceCharge
              RoamingInvoiceDoc stringDated "2023-05-01T00:00:00Z"
              eq_refl eq_refl) as [H3 _].
  split; [exact H1 |]. split; [| exact H3].
  rewrite H2 by discriminate. reflexivity.
Defined.

Lemma uncategorized_charge_witness :
  Charge.Type_ (chargeRow rejectAll plainCharge) = 0 /\
  Charge.Date1 (chargeRow rejectAll plainCharge) = Some sampleTime.
Proof.
  destruct (uncategorized_charge rejectAll plainCharge eq_refl) as (_ & _ & H0 & _ & H1).
  split; [exact H0 |]. apply H1. vm_compute. discriminate.
Defined.

(** A charge without any embedded document and created in 1969 is stored
    with code 0 and without [date1]. *)
Lemma uncategorized_charge_date1_unset :
  firstPresent priority oldCharge = None /\
  Charge.Type_ (chargeRow rejectAll oldCharge) = 0 /\
  Charge.Date1 (chargeRow rejectAll oldCharge) = None /\
  Charge.Date1 (chargeRow rejectAll oldCharge) <> Some (mongoCharge.CreatedAt oldCharge).
Proof. vm_compute. repeat split. discriminate. Qed.

(** ** The creation timestamp of a Payme transaction *)

(** The undated transaction is stored with the reading of the clock. *)
Example undated_payme_stored_with_clock :
  map (fun r => match r with
                | RPaymeTransaction t => Some (PaymeTransaction.PaymeCreatedAt t)
                | _ => None
                end)
      (rowsOf PaymeTransaction.TableName (snd (migratePaymeTransactions paymeSource freshWorld)))
  = [Some sampleTime].
Proof. vm_compute. reflexivity. Qed.

(** ** Documents that are already stored *)

Lemma sameKey_refl (id : string) : sameKey (Some id) (Some id) = true.
Proof. simpl. apply String.eqb_refl. Qed.

Lemma count_present (id : string) (rows : list Row) (r : Row) :
  In r rows -> primaryKey r = Some id ->
  (Z.of_nat (length (List.filter (fun r => sameKey (primaryKey r) (Some id)) rows)) >? 0) = true.
Proof.
  intros Hin Hk.
  assert (Hf : In r (List.filter (fun r => sameKey (primaryKey r) (Some id)) rows)).
  { apply filter_In. split; [assumption |]. rewrite Hk. apply sameKey_refl. }
  destruct (List.filter (fun r => sameKey (primaryKey r) (Some id)) rows); [contradiction |].
  simpl length. apply Z.gtb_lt. lia.
Qed.

(** When the query does not fail, [checkRecordExists] finds a stored
    identifier, and only consumes the outcome of that query. *)
Lemma checkRecordExists_present (table id : string) (w : World) :
  present table id w -> noFault 1 w ->
  checkRecordExists table id w = (true, snd (fault w)).
Proof.
  intros (rows & r & Ht & Hin & Hk) Hn.
  apply fault_noFault in Hn as (Hf & Hts & _).
  unfold checkRecordExists, CountWhereID. rewrite !bind_run.
  destruct (fault w) as [b w1]. simpl in *. subst b. simpl.
  rewrite Hts, Ht. simpl. unfold ret.
  now rewrite (count_present id rows r Hin Hk).
Qed.

(** Solves [skipsExisting] for a step that does nothing else on the skip
    path. *)
Ltac skip_simple step :=
  intros a st rest w Hp Hn;
  exists (snd (fault w)); split; [| apply tables_fault];
  cbn [forEach]; rewrite bind_run; unfold step;
  repeat match goal with
         | x : (_ * _)%type |- _ => destruct x
         end;
  rewrite bind_run, (checkRecordExists_present _ _ w Hp Hn); reflexivity.

Lemma skips_service :
  skipsExisting serviceStep Service.TableName mongoService.ID
                (fun st => (fst st, incr (snd st))).
Proof. skip_simple serviceStep. Qed.

Lemma skips_boughtPackage :
  skipsExisting boughtPackageStep BoughtPackage.TableName mongoBoughtPackage.ID
                (fun st => (fst (fst st), incr (snd (fst st)), snd st)).
Proof. skip_simple boughtPackageStep. Qed.

Lemma skips_charge (Parse : string -> string -> error + Time) :
  skipsExisting (chargeStep Parse) Charge.TableName mongoCharge.ID
                (fun st => (fst st, incr (snd st))).
Proof. skip_simple chargeStep. Qed.

Lemma skips_payment :
  skipsExisting paymentStep Payment.TableName mongoPayment.ID
                (fun st => (fst st, incr (snd st))).
Proof. skip_simple paymentStep. Qed.

Lemma skips_paymeTransaction :
  skipsExisting paymeTransactionStep PaymeTransaction.TableName mongoPaymeTransaction.ID
                (fun st => (fst st, incr (snd st))).
Proof. skip_simple paymeTransactionStep. Qed.

Lemma skips_organizationBalanceBinding :
  skipsExisting organizationBalanceBindingStep OrganizationBalanceBinding.TableName
                mongoOrganizationBalanceBinding.ID (fun st => (fst st, incr (snd st))).
Proof. skip_simple organizationBalanceBindingStep. Qed.

Lemma skips_creditUpdate :
  skipsExisting creditUpdateStep CreditUpdates.TableName mongoCreditUpdate.ID
                (fun st => (fst st, incr (snd st))).
Proof. skip_simple creditUpdateStep. Qed.

Lemma skips_bankPaymentAutoApplyError :
  skipsExisting bankPaymentAutoApplyErrorStep BankPaymentAutoApplyError.TableName
                mongoBankPaymentAutoApplyError.ID (fun st => (fst st, incr (snd st))).
Proof. skip_simple bankPaymentAutoApplyErrorStep. Qed.

(** An insert that tolerates duplicates succeeds when the call does not fail
    and the table exists; every table that existed still does. *)
Lemma CreateOnConflictDoNothing_noFault (r : Row) (n : nat) (w : World) :
  noFault (S n) w -> is_Some (tables w !! TableName r) ->
  fst (CreateOnConflictDoNothing r w) = None /\
  noFault n (snd (CreateOnConflictDoNothing r w)) /\
  (forall table : string, is_Some (tables w !! table) ->
      is_Some (tables (snd (CreateOnConflictDoNothing r w)) !! table)).
Proof.
  intros Hn [rows Ht]. apply fault_noFault in Hn as (Hf & Hts & Hn).
  unfold CreateOnConflictDoNothing. rewrite bind_run.
  destruct (fault w) as [b w1]. simpl in *. subst b. rewrite Hts, Ht.
  destruct (existsb (conflicts r) rows); simpl.
  - rewrite Hts. auto.
  - repeat split; [exact Hn |]. intros table Hs.
    destruct (decide (TableName r = table)) as [<- | Hne].
    + rewrite lookup_insert_eq. eauto.
    + now rewrite lookup_insert_ne.
Qed.

Section ChildLoops.

Variables (A : Type) (body : A -> Z -> M (error + Z)) (table : string).

(** One iteration goes through when its insert does not fail by itself. *)
Hypothesis body_noFault :
  forall (a : A) (n : Z) (k : nat) (w : World),
    noFault (S k) w -> is_Some (tables w !! table) ->
    fst (body a n w) = inr (incr n) /\
    noFault k (snd (body a n w)) /\
    (forall t : string, is_Some (tables w !! t) ->
        is_Some (tables (snd (body a n w)) !! t)).

Lemma forEach_noFault (xs : list A) :
  forall (k : nat) (n : Z) (w : World),
    noFault (length xs + k) w -> is_Some (tables w !! table) ->
    (exists n' : Z, fst (forEach body xs n w) = inr n') /\
    noFault k (snd (forEach body xs n w)) /\
    (forall t : string, is_Some (tables w !! t) ->
        is_Some (tables (snd (forEach body xs n w)) !! t)).
Proof.
  induction xs as [| a xs IH]; intros k n w Hn Ht; cbn [forEach].
  - unfold ret. simpl. eauto.
  - simpl in Hn.
    destruct (body_noFault a n _ w Hn Ht) as (He & Hn' & Hk).
    rewrite bind_run, He.
    destruct (IH k (incr n) _ Hn' (Hk _ Ht)) as (Hr & Hn2 & Hk2).
    repeat split; [exact Hr | exact Hn2 |].
    intros t Hs. apply Hk2, Hk, Hs.
Qed.

End ChildLoops.

Lemma demoUseStep_noFault (o : mongoOrganization.t) (s : ServiceRef.t) (n : Z) (k : nat)
    (w : World) :
  noFault (S k) w -> is_Some (tables w !! OrganizationServiceDemoUses.TableName) ->
  fst (demoUseStep o s n w) = inr (incr n) /\
  noFault k (snd (demoUseStep o s n w)) /\
  (forall t : string, is_Some (tables w !! t) ->
      is_Some (tables (snd (demoUseStep o s n w)) !! t)).
Proof.
  intros Hn Ht. unfold demoUseStep. rewrite bind_run.
  destruct (CreateOnConflictDoNothing_noFault
              (ROrganizationServiceDemoUses (demoUseRow o s)) k w Hn Ht) as (He & Hn' & Hk).
  rewrite He. auto.
Qed.

Lemma packageItemStep_noFault (p : mongoPackage.t) (item : mongoPackageItem.t) (n : Z)
    (k : nat) (w : World) :
  noFault (S k) w -> is_Some (tables w !! PackageItem.TableName) ->
  fst (packageItemStep p item n w) = inr (incr n) /\
  noFault k (snd (packageItemStep p item n w)) /\
  (forall t : string, is_Some (tables w !! t) ->
      is_Some (tables (snd (packageItemStep p item n w)) !! t)).
Proof.
  intros Hn Ht. unfold packageItemStep. rewrite bind_run.
  destruct (CreateOnConflictDoNothing_noFault
              (RPackageItem (packageItemRow p item)) k w Hn Ht) as (He & Hn' & Hk).
  rewrite He. auto.
Qed.

Lemma bonusPackageStep_noFault (p : mongoPackage.t) (bonus : ObjectID) (n : Z)
    (k : nat) (w : World) :
  noFault (S k) w -> is_Some (tables w !! PackageActivationBonusPackage.TableName) ->
  fst (bonusPackageStep p bonus n w) = inr (incr n) /\
  noFault k (snd (bonusPackageStep p bonus n w)) /\
  (forall t : string, is_Some (tables w !! t) ->
      is_Some (tables (snd (bonusPackageStep p bonus n w)) !! t)).
Proof.
  intros Hn Ht. unfold bonusPackageStep. rewrite bind_run.
  destruct (CreateOnConflictDoNothing_noFault
              (RPackageActivationBonusPackage (bonusPackageRow p bonus)) k w Hn Ht)
    as (He & Hn' & Hk).
  rewrite He. auto.
Qed.

(** An error returned by a loop was returned by one of its iterations. *)
Lemma forEach_error {A S : Type} (body : A -> S -> M (error + S)) (P : error -> Prop) :
  (forall (a : A) (s : S) (w : World) (err : error),
      fst (body a s w) = inl err -> P err) ->
  forall (xs : list A) (s : S) (w : World) (err : error),
    fst (forEach body xs s w) = inl err -> P err.
Proof.
  intros Hbody. induction xs as [| a xs IH]; intros s w err; cbn [forEach].
  - discriminate.
  - rewrite bind_run. destruct (fst (body a s w)) as [e | s'] eqn:Hb.
    + intros [= <-]. exact (Hbody a s w e Hb).
    + apply IH.
Qed.

(** An existing organization: its row is left alone and it is counted as
    skipped; its demo uses are written again, and the loop goes on unless
    one of these writes fails. *)
Lemma organization_skip (o : mongoOrganization.t) (moved skipped demoUsesMoved : Z)
    (rest : list (error + mongoOrganization.t)) (w : World) :
  present Organization.TableName (Hex (mongoOrganization.ID o)) w -> noFault 1 w ->
  tables (snd (organizationStep (inr o) (moved, skipped, demoUsesMoved) w))
    !! Organization.TableName = tables w !! Organization.TableName /\
  (forall st' : Z * Z * Z,
      fst (organizationStep (inr o) (moved, skipped, demoUsesMoved) w) = inr st' ->
      fst (fst st') = moved /\ snd (fst st') = incr skipped) /\
  (forall err : error,
      fst (organizationStep (inr o) (moved, skipped, demoUsesMoved) w) = inl err ->
      exists (args : list Arg) (cause : error),
        err = Errorf "org %s service_demo_use %s insert failed: %w" args cause) /\
  (noFault (1 + length (mongoOrganization.ServiceDemoUses o)) w ->
   is_Some (tables w !! OrganizationServiceDemoUses.TableName) ->
   exists (demoUsesMoved' : Z) (w' : World),
     forEach organizationStep (inr o :: rest) (moved, skipped, demoUsesMoved) w
     = forEach organizationStep rest (moved, incr skipped, demoUsesMoved') w' /\
     tables w' !! Organization.TableName = tables w !! Organization.TableName).
Proof.
  intros Hp Hn.
  assert (Hstep : organizationStep (inr o) (moved, skipped, demoUsesMoved) w
                  = (match fst (forEach (demoUseStep o) (mongoOrganization.ServiceDemoUses o)
                                        demoUsesMoved (snd (fault w))) with
                     | inl err => inl err
                     | inr demoUsesMoved' => inr (moved, incr skipped, demoUsesMoved')
                     end,
                     snd (forEach (demoUseStep o) (mongoOrganization.ServiceDemoUses o)
                                  demoUsesMoved (snd (fault w))))).
  { unfold organizationStep. rewrite bind_run, (checkRecordExists_present _ _ w Hp Hn).
    cbn [fst snd]. rewrite bind_run.
    destruct (forEach (demoUseStep o) (mongoOrganization.ServiceDemoUses o) demoUsesMoved
                      (snd (fault w))) as [[err | n] w']; reflexivity. }
  assert (Hkeep : tables (snd (forEach (demoUseStep o) (mongoOrganization.ServiceDemoUses o)
                                       demoUsesMoved (snd (fault w))))
                    !! Organization.TableName = tables w !! Organization.TableName).
  { assert (Hpres : preserves (onTable Organization.TableName
                                       (fun t => t = tables w !! Organization.TableName))
                              (forEach (demoUseStep o) (mongoOrganization.ServiceDemoUses o)
                                       demoUsesMoved)).
    { unfold demoUseStep. preserve. apply stableUnder_other. simpl. discriminate. }
    apply Hpres. unfold onTable. now rewrite tables_fault. }
  rewrite Hstep. cbn [fst snd].
  split; [exact Hkeep |].
  split.
  { intros st'. destruct (fst (forEach _ _ _ _)); [discriminate |].
    intros [= <-]. auto. }
  split.
  { intros err. destruct (fst (forEach _ _ _ _)) as [e | n] eqn:Hf; [| discriminate].
    intros [= <-].
    refine (forEach_error (demoUseStep o)
              (fun err => exists (args : list Arg) (cause : error),
                   err = Errorf "org %s service_demo_use %s insert failed: %w" args cause)
              _ _ _ _ _ Hf).
    clear. intros a s w err. unfold demoUseStep. rewrite bind_run.
    destruct (fst (CreateOnConflictDoNothing _ w)); [| discriminate].
    intros [= <-]. eauto. }
  intros Hn' Ht.
  apply fault_noFault in Hn' as (_ & _ & Hn').
  rewrite <- tables_fault in Ht.
  destruct (forEach_noFault _ (demoUseStep o) OrganizationServiceDemoUses.TableName
              (demoUseStep_noFault o) (mongoOrganization.ServiceDemoUses o) 0 demoUsesMoved
              (snd (fault w))) as ([n' Hr] & _ & _);
    [now rewrite Nat.add_0_r | exact Ht |].
  exists n'. eexists. split; [| exact Hkeep].
  cbn [forEach]. rewrite bind_run, Hstep. cbn [fst snd]. now rewrite Hr.
Qed.

Lemma packageChildren_error (p : mongoPackage.t) (itemsMoved bonusMoved : Z) (w : World)
    (err : error) :
  fst (packageChildren p itemsMoved bonusMoved w) = inl err ->
  exists (args : list Arg) (cause : error),
    err = Errorf "package %s item %d insert failed: %w" args cause \/
    err = Errorf "package %s bonus %s insert failed: %w" args cause.
Proof.
  unfold packageChildren. rewrite bind_run.
  destruct (fst (forEach (packageItemStep p) _ _ w)) as [e | n] eqn:Hi.
  - intros [= <-].
    refine (forEach_error (packageItemStep p)
              (fun err => exists (args : list Arg) (cause : error),
                   err = Errorf "package %s item %d insert failed: %w" args cause \/
                   err = Errorf "package %s bonus %s insert failed: %w" args cause)
              _ _ _ _ _ Hi).
    clear. intros a s w err. unfold packageItemStep. rewrite bind_run.
    destruct (fst (CreateOnConflictDoNothing _ w)); [| discriminate].
    intros [= <-]. eauto.
  - rewrite bind_run.
    destruct (fst (forEach (bonusPackageStep p) _ _ _)) as [e | n'] eqn:Hb; [| discriminate].
    intros [= <-].
    refine (forEach_error (bonusPackageStep p)
              (fun err => exists (args : list Arg) (cause : error),
                   err = Errorf "package %s item %d insert failed: %w" args cause \/
                   err = Errorf "package %s bonus %s insert failed: %w" args cause)
              _ _ _ _ _ Hb).
    clear. intros a s w err. unfold bonusPackageStep. rewrite bind_run.
    destruct (fst (CreateOnConflictDoNothing _ w)); [| discriminate].
    intros [= <-]. eauto.
Qed.

Lemma packageChildren_noFault (p : mongoPackage.t) (itemsMoved bonusMoved : Z) (w : World) :
  noFault (length (mongoPackage.Items p)
           + length (mongoPackage.OnActivationBonusPackages p)) w ->
  is_Some (tables w !! PackageItem.TableName) ->
  is_Some (tables w !! PackageActivationBonusPackage.TableName) ->
  exists st : Z * Z, fst (packageChildren p itemsMoved bonusMoved w) = inr st.
Proof.
  intros Hn Hi Hb. unfold packageChildren. rewrite bind_run.
  destruct (forEach_noFault _ (packageItemStep p) PackageItem.TableName
              (packageItemStep_noFault p) (mongoPackage.Items p) _ itemsMoved w Hn Hi)
    as ([n Hr] & Hn' & Hk).
  rewrite Hr, bind_run.
  destruct (forEach_noFault _ (bonusPackageStep p) PackageActivationBonusPackage.TableName
              (bonusPackageStep_noFault p) (mongoPackage.OnActivationBonusPackages p) 0
              bonusMoved (snd (forEach (packageItemStep p) (mongoPackage.Items p) itemsMoved w)))
    as ([n' Hr'] & _ & _); [now rewrite Nat.add_0_r | now apply Hk |].
  rewrite Hr'. eauto.
Qed.

(** An existing package: its row is left alone and it is counted as skipped;
    its items and bonus packages are written again, and the loop goes on
    unless one of these writes fails. *)
Lemma package_skip (p : mongoPackage.t) (moved skipped itemsMoved bonusMoved : Z)
    (rest : list (error + mongoPackage.t)) (w : World) :
  present Package.TableName (Hex (mongoPackage.ID p)) w -> noFault 1 w ->
  tables (snd (packageStep (inr p) (moved, skipped, itemsMoved, bonusMoved) w))
    !! Package.TableName = tables w !! Package.TableName /\
  (forall st' : Z * Z * Z * Z,
      fst (packageStep (inr p) (moved, skipped, itemsMoved, bonusMoved) w) = inr st' ->
      fst (fst (fst st')) = moved /\ snd (fst (fst st')) = incr skipped) /\
  (forall err : error,
      fst (packageStep (inr p) (moved, skipped, itemsMoved, bonusMoved) w) = inl err ->
      exists (args : list Arg) (cause : error),
        err = Errorf "package %s item %d insert failed: %w" args cause \/
        err = Errorf "package %s bonus %s insert failed: %w" args cause) /\
  (noFault (1 + (length (mongoPackage.Items p)
                 + length (mongoPackage.OnActivationBonusPackages p))) w ->
   is_Some (tables w !! PackageItem.TableName) ->
   is_Some (tables w !! PackageActivationBonusPackage.TableName) ->
   exists (itemsMoved' bonusMoved' : Z) (w' : World),
     forEach packageStep (inr p :: rest) (moved, skipped, itemsMoved, bonusMoved) w
     = forEach packageStep rest (moved, incr skipped, itemsMoved', bonusMoved') w' /\
     tables w' !! Package.TableName = tables w !! Package.TableName).
Proof.
  intros Hp Hn.
  assert (Hstep : packageStep (inr p) (moved, skipped, itemsMoved, bonusMoved) w
                  = (match fst (packageChildren p itemsMoved bonusMoved (snd (fault w))) with
                     | inl err => inl err
                     | inr st => inr (moved, incr skipped, fst st, snd st)
                     end,
                     snd (packageChildren p itemsMoved bonusMoved (snd (fault w))))).
  { unfold packageStep. rewrite bind_run, (checkRecordExists_present _ _ w Hp Hn).
    cbn [fst snd]. rewrite bind_run.
    destruct (packageChildren p itemsMoved bonusMoved (snd (fault w)))
      as [[err | [n n']] w']; reflexivity. }
  assert (Hkeep : tables (snd (packageChildren p itemsMoved bonusMoved (snd (fault w))))
                    !! Package.TableName = tables w !! Package.TableName).
  { assert (Hpres : preserves (onTable Package.TableName
                                       (fun t => t = tables w !! Package.TableName))
                              (packageChildren p itemsMoved bonusMoved)).
    { unfold packageChildren, packageItemStep, bonusPackageStep.
      preserve; apply stableUnder_other; simpl; discriminate. }
    apply Hpres. unfold onTable. now rewrite tables_fault. }
  rewrite Hstep. cbn [fst snd].
  split; [exact Hkeep |].
  split.
  { intros st'. destruct (fst (packageChildren _ _ _ _)); [discriminate |].
    intros [= <-]. auto. }
  split.
  { intros err. destruct (fst (packageChildren _ _ _ _)) as [e | n] eqn:Hf; [| discriminate].
    intros [= <-]. exact (packageChildren_error _ _ _ _ _ Hf). }
  intros Hn' Hi Hb.
  apply fault_noFault in Hn' as (_ & _ & Hn').
  rewrite <- tables_fault in Hi, Hb.
  destruct (packageChildren_noFault p itemsMoved bonusMoved _ Hn' Hi Hb) as [[n n'] Hr].
  exists n, n'. eexists. split; [| exact Hkeep].
  cbn [forEach]. rewrite bind_run, Hstep. cbn [fst snd]. now rewrite Hr.
Qed.

(** ** The orchestrator *)

(** Steps run one after the other: a list of steps followed by another runs
    the second list in the world the first one leaves, unless the first one
    failed. *)
Lemma runMigrations_app (steps steps' : list (string * (MongoDatabase -> M (option error))))
    (mdb : MongoDatabase) :
  forall w : World,
    runMigrations (steps ++ steps') mdb w =
    match fst (runMigrations steps mdb w) with
    | Some err => (Some err, snd (runMigrations steps mdb w))
    | None => runMigrations steps' mdb (snd (runMigrations steps mdb w))
    end.
Proof.
  induction steps as [| [name fn] steps IH]; intros w.
  - reflexivity.
  - change (((name, fn) :: steps) ++ steps')%list with ((name, fn) :: (steps ++ steps'))%list.
    cbn [runMigrations]. rewrite !bind_run. cbn [fst snd].
    destruct (fn mdb (snd (Printf "\n\nStarting migration: %s" [AStr name] None w)))
      as [[err |] w1]; cbn [fst snd].
    + reflexivity.
    + rewrite !bind_run. apply IH.
Qed.

Lemma runMigrations_abort (pre post : list (string * (MongoDatabase -> M (option error))))
    (name : string) (fn : MongoDatabase -> M (option error)) (mdb : MongoDatabase)
    (w wk w' : World) (err : error) :
  runMigrations pre mdb w = (None, wk) ->
  fn mdb (snd (Printf "\n\nStarting migration: %s" [AStr name] None wk)) = (Some err, w') ->
  runMigrations (pre ++ (name, fn) :: post) mdb w
  = (Some (Errorf "migration %s failed: %w" [AStr name] err), w').
Proof.
  intros Hpre Hfn. rewrite runMigrations_app, Hpre. cbn [fst snd runMigrations].
  rewrite !bind_run, Hfn. reflexivity.
Qed.

(** C7 as amended. The ten steps run one after the other in the order
    services, organizations, packages, bought-packages, charges, payments,
    payme-transactions, organization-balance-bindings, credit-updates,
    bank-payments-auto-apply-errors; when a step fails after the steps before
    it succeeded, [migrateAll] returns at once, in the world that step left,
    an error made of the step's name and of the error of the step. *)
Theorem migrateAll_order_and_abort (Parse : string -> string -> error + Time) :
  migrations Parse =
    [ ("services", migrateServices);
      ("organizations", migrateOrganizations);
      ("packages", migratePackages);
      ("bought-packages", migrateBoughtPackages);
      ("charges", migrateCharges Parse);
      ("payments", migratePayments);
      ("payme-transactions", migratePaymeTransactions);
      ("organization-balance-bindings", migrateOrganizationBalanceBindings);
      ("credit-updates", migrateCreditUpdates);
      ("bank-payments-auto-apply-errors", migrateBankPaymentAutoApplyErrors) ] /\
  (forall (pre post : list (string * (MongoDatabase -> M (option error))))
          (mdb : MongoDatabase) (w : World),
      migrations Parse = (pre ++ post)%list ->
      migrateAll Parse mdb w =
      match fst (runMigrations pre mdb w) with
      | Some err => (Some err, snd (runMigrations pre mdb w))
      | None => runMigrations post mdb (snd (runMigrations pre mdb w))
      end) /\
  (forall (pre post : list (string * (MongoDatabase -> M (option error))))
          (name : string) (fn : MongoDatabase -> M (option error))
          (mdb : MongoDatabase) (w wk w' : World) (err : error),
      migrations Parse = (pre ++ (name, fn) :: post)%list ->
      runMigrations pre mdb w = (None, wk) ->
      fn mdb (snd (Printf "\n\nStarting migration: %s" [AStr name] None wk)) = (Some err, w') ->
      migrateAll Parse mdb w
      = (Some (Errorf "migration %s failed: %w" [AStr name] err), w') /\
      Unwrap (Errorf "migration %s failed: %w" [AStr name] err) = Some err).
Proof.
  split; [reflexivity |]. split.
  - intros pre post mdb w Heq. unfold migrateAll. rewrite Heq. apply runMigrations_app.
  - intros pre post name fn mdb w wk w' err Heq Hpre Hfn.
    split; [| reflexivity].
    unfold migrateAll. rewrite Heq. now apply runMigrations_abort with (wk := wk).
Qed.

(** The services cannot be read: the first step fails, and the error names
    it. *)
Lemma migrateAll_order_and_abort_witness :
  fst (migrateAll rejectAll unreadableServices freshWorld)
  = Some (Errorf "migration %s failed: %w" [AStr "services"] (Driver Unavailable)).
Proof.
  destruct (migrateAll_order_and_abort rejectAll) as (_ & _ & H).
  destruct (H [] (tl (migrations rejectAll)) "services" migrateServices unreadableServices
              freshWorld freshWorld
              (snd (migrateServices unreadableServices
                      (snd (Printf "\n\nStarting migration: %s" [AStr "services"] None
                                   freshWorld))))
              (Driver Unavailable)) as [Hrun _].
  - reflexivity.
  - reflexivity.
  - vm_compute. reflexivity.
  - rewrite Hrun. reflexivity.
Defined.

(** The last collection cannot be read: the error names the last step
    [bank-payments-auto-apply-errors]. *)
Lemma last_step_name :
  fst (migrateAll rejectAll unreadableBankErrors freshWorld)
  = Some (Errorf "migration %s failed: %w" [AStr "bank-payments-auto-apply-errors"]
                 (Driver Unavailable)) /\
  fst (migrateAll rejectAll unreadableBankErrors freshWorld)
  <> Some (Errorf "migration %s failed: %w" [AStr "bank-payment-auto-apply-errors"]
                  (Driver Unavailable)) /\
  map fst (migrations rejectAll)
  <> [ "services"; "organizations"; "packages"; "bought-packages"; "charges"; "payments";
       "payme-transactions"; "organization-balance-bindings"; "credit-updates";
       "bank-payment-auto-apply-errors" ].
Proof.
  split; [vm_compute; reflexivity |].
  split; [vm_compute; discriminate | vm_compute; discriminate].
Qed.

(** ** Migrate *)

Lemma dropTables_noFault (names : list string) :
  forall (n : nat) (w : World),
    noFault (length names + n) w ->
    tables (snd (dropTables names w)) = foldl (fun ts name => delete name ts) (tables w) names /\
    noFault n (snd (dropTables names w)).
Proof.
  induction names as [| name names IH]; intros n w H; simpl.
  - auto.
  - simpl in H. apply fault_noFault in H as (Hf & Ht & Hn).
    unfold bind, DropTable, bind. destruct (fault w) as [b w1]. simpl in *. subst b.
    specialize (IH n (setTables (delete name (tables w1)) w1) Hn).
    simpl in IH. rewrite <- Ht. exact IH.
Qed.

Lemma lookup_deleted (names : list string) :
  forall (ts : gmap string (list Row)) (table : string),
    In table names -> foldl (fun ts name => delete name ts) ts names !! table = None.
Proof.
  assert (Hgone : forall (names : list string) (ts : gmap string (list Row)) (table : string),
             ts !! table = None ->
             foldl (fun ts name => delete name ts) ts names !! table = None).
  { induction names0 as [| name names0 IH]; intros ts table H; simpl; [exact H |].
    apply IH. rewrite lookup_delete. now destruct (decide (name = table)). }
  induction names as [| name names IH]; intros ts table Hin; simpl; [contradiction |].
  destruct (decide (name = table)) as [-> | Hne].
  - apply Hgone. apply lookup_delete_eq.
  - apply IH. destruct Hin; [contradiction | assumption].
Qed.

Lemma lookup_createMissing (names : list string) :
  forall (ts : gmap string (list Row)) (table : string),
    createMissing ts names !! table =
    match ts !! table with
    | Some rows => Some rows
    | None => if bool_decide (table ∈ names) then Some [] else None
    end.
Proof.
  unfold createMissing.
  induction names as [| name names IH]; intros ts table; cbn [foldl].
  - destruct (ts !! table); [reflexivity |]. case_bool_decide as H; [| reflexivity].
    now apply not_elem_of_nil in H.
  - rewrite IH. destruct (decide (table = name)) as [-> | Hne].
    + rewrite (bool_decide_eq_true_2 (name ∈ name :: names)) by apply list_elem_of_here.
      destruct (ts !! name) eqn:Hn; [now rewrite Hn |]. now rewrite lookup_insert_eq.
    + assert (Hsame : (match ts !! name with
                       | Some _ => ts
                       | None => <[name := []]> ts
                       end) !! table = ts !! table).
      { destruct (ts !! name); [reflexivity |]. now rewrite lookup_insert_ne. }
      rewrite Hsame. destruct (ts !! table); [reflexivity |].
      destruct (decide (table ∈ names)) as [Hin | Hin].
      * rewrite (bool_decide_eq_true_2 (table ∈ name :: names))
          by (apply list_elem_of_further; assumption).
        now rewrite (bool_decide_eq_true_2 (table ∈ names)).
      * rewrite (bool_decide_eq_false_2 (table ∈ name :: names))
          by (intros [? | ?]%elem_of_cons; contradiction).
        now rewrite (bool_decide_eq_false_2 (table ∈ names)).
Qed.

Lemma lookup_kept (table : string) (names : list string) :
  forall ts : gmap string (list Row),
    ~ In table names ->
    foldl (fun ts name => delete name ts) ts names !! table = ts !! table.
Proof.
  induction names as [| name names IH]; intros ts Hni; cbn [foldl]; [reflexivity |].
  rewrite IH by (intros ?; apply Hni; now right).
  apply lookup_delete_ne. intros ->. apply Hni. now left.
Qed.

(** Dropping and re-creating any list of tables. *)
Lemma dropTables_AutoMigrate (names : list string) (w : World) :
  noFault (length names) w ->
  fst (bind (dropTables names) (fun _ => AutoMigrate names) w) = None ->
  (forall table : string, In table names ->
      tables (snd (bind (dropTables names) (fun _ => AutoMigrate names) w)) !! table = Some []) /\
  (forall table : string, ~ In table names ->
      tables (snd (bind (dropTables names) (fun _ => AutoMigrate names) w)) !! table
      = tables w !! table).
Proof.
  intros Hn.
  assert (Hn' : noFault (length names + 0) w) by now rewrite Nat.add_0_r.
  destruct (dropTables_noFault names 0 w Hn') as [Ht _].
  rewrite bind_run. destruct (dropTables names w) as [u w1]. cbn [fst snd] in *.
  unfold AutoMigrate. rewrite bind_run. destruct (fault w1) as [b w2] eqn:Hf.
  cbn [fst snd].
  assert (Ht2 : tables w2 = tables w1).
  { unfold fault in Hf. destruct (faults w1); inversion Hf; reflexivity. }
  destruct b; cbn [fst snd ret]; [discriminate |]. intros _.
  unfold setTables; cbn [tables].
  rewrite Ht2, Ht.
  split; intros table Hin; rewrite lookup_createMissing.
  - rewrite lookup_deleted by assumption.
    rewrite bool_decide_eq_true_2; [reflexivity | now apply list_elem_of_In].
  - rewrite lookup_kept by assumption.
    destruct (tables w !! table); [reflexivity |].
    rewrite bool_decide_eq_false_2; [reflexivity |].
    intros H. apply Hin. now apply list_elem_of_In.
Qed.

(** When no drop fails and [Migrate] reports success, each of the fourteen
    tables exists and holds no row; the other tables are left alone. *)
Lemma Migrate_noFault (w : World) :
  noFault (length modelTables) w ->
  fst (Migrate w) = None ->
  (forall table : string, In table modelTables ->
      tables (snd (Migrate w)) !! table = Some []) /\
  (forall table : string, ~ In table modelTables ->
      tables (snd (Migrate w)) !! table = tables w !! table).
Proof. apply dropTables_AutoMigrate. Qed.

Lemma main_after_Migrate (Parse : string -> string -> error + Time) (mdb : MongoDatabase)
    (w : World) :
  (forall err : error,
      fst (Migrate w) = Some err ->
      fst (main Parse mdb w) = Some err /\
      tables (snd (main Parse mdb w)) = tables (snd (Migrate w))) /\
  (fst (Migrate w) = None ->
   fst (main Parse mdb w) = fst (migrateAll Parse mdb (snd (Migrate w))) /\
   tables (snd (main Parse mdb w)) = tables (snd (migrateAll Parse mdb (snd (Migrate w))))).
Proof.
  unfold main. rewrite bind_run.
  destruct (Migrate w) as [[e |] w1]; cbn [fst snd]; split; try discriminate.
  - intros err [= <-]. split; reflexivity.
  - intros _. rewrite bind_run.
    destruct (migrateAll Parse mdb w1) as [[e |] w2]; cbn [fst snd]; split; reflexivity.
Qed.

(** ** The rows of [package_items] *)

Lemma stableUnder_packageItem (p : mongoPackage.t) (item : mongoPackageItem.t) :
  stableUnder atMostOneItem (RPackageItem (packageItemRow p item)).
Proof.
  intros ts rows H Ht Hc. unfold atMostOneItem, onTable in *.
  simpl in Ht. change PackageItem.TableName with "package_items" in *.
  rewrite Ht in H. destruct H as [Hlen Hall].
  simpl. rewrite lookup_insert_eq.
  destruct rows as [| x rows].
  - simpl. split; [lia | repeat constructor].
  - exfalso. inversion Hall as [| ? ? Hx _]; subst.
    simpl in Hc. unfold conflicts in Hc. rewrite Hx in Hc. simpl in Hc. discriminate.
Qed.

Lemma atMostOneItem_other (r : Row) :
  TableName r <> PackageItem.TableName -> stableUnder atMostOneItem r.
Proof. apply stableUnder_other. Qed.

Ltac otherTable := apply atMostOneItem_other; simpl; discriminate.

Lemma preserves_items_migrateServices (mdb : MongoDatabase) :
  preserves atMostOneItem (migrateServices mdb).
Proof. unfold migrateServices, serviceStep. preserve; otherTable. Qed.

Lemma preserves_items_migrateOrganizations (mdb : MongoDatabase) :
  preserves atMostOneItem (migrateOrganizations mdb).
Proof.
  unfold migrateOrganizations, organizationStep, demoUseStep. preserve; otherTable.
Qed.

Lemma preserves_items_migratePackages (mdb : MongoDatabase) :
  preserves atMostOneItem (migratePackages mdb).
Proof.
  unfold migratePackages, packageStep, packageChildren, packageItemStep, bonusPackageStep.
  preserve; first [apply stableUnder_packageItem | otherTable].
Qed.

Lemma preserves_items_migrateBoughtPackages (mdb : MongoDatabase) :
  preserves atMostOneItem (migrateBoughtPackages mdb).
Proof.
  unfold migrateBoughtPackages, boughtPackageStep, boughtPackageItemStep.
  preserve; otherTable.
Qed.

Lemma preserves_items_migrateCharges (Parse : string -> string -> error + Time)
    (mdb : MongoDatabase) :
  preserves atMostOneItem (migrateCharges Parse mdb).
Proof. unfold migrateCharges, chargeStep. preserve; otherTable. Qed.

Lemma preserves_items_migratePayments (mdb : MongoDatabase) :
  preserves atMostOneItem (migratePayments mdb).
Proof. unfold migratePayments, paymentStep. preserve; otherTable. Qed.

Lemma preserves_items_migratePaymeTransactions (mdb : MongoDatabase) :
  preserves atMostOneItem (migratePaymeTransactions mdb).
Proof.
  unfold migratePaymeTransactions, paymeTransactionStep, paymeCreatedAt.
  preserve; otherTable.
Qed.

Lemma preserves_items_migrateOrganizationBalanceBindings (mdb : MongoDatabase) :
  preserves atMostOneItem (migrateOrganizationBalanceBindings mdb).
Proof.
  unfold migrateOrganizationBalanceBindings, organizationBalanceBindingStep.
  preserve; otherTable.
Qed.

Lemma preserves_items_migrateCreditUpdates (mdb : MongoDatabase) :
  preserves atMostOneItem (migrateCreditUpdates mdb).
Proof. unfold migrateCreditUpdates, creditUpdateStep. preserve; otherTable. Qed.

Lemma preserves_items_migrateBankPaymentAutoApplyErrors (mdb : MongoDatabase) :
  preserves atMostOneItem (migrateBankPaymentAutoApplyErrors mdb).
Proof.
  unfold migrateBankPaymentAutoApplyErrors, bankPaymentAutoApplyErrorStep.
  preserve; otherTable.
Qed.

Lemma preserves_runMigrations (Q : gmap string (list Row) -> Prop)
    (steps : list (string * (MongoDatabase -> M (option error)))) (mdb : MongoDatabase) :
  Forall (fun step => preserves Q (snd step mdb)) steps ->
  preserves Q (runMigrations steps mdb).
Proof.
  induction 1 as [| [name fn] rest Hfn _ IH]; simpl.
  - apply preserves_ret.
  - preserve; assumption.
Qed.

Lemma preserves_items_migrateAll (Parse : string -> string -> error + Time)
    (mdb : MongoDatabase) :
  preserves atMostOneItem (migrateAll Parse mdb).
Proof.
  apply preserves_runMigrations. unfold migrations.
  repeat constructor; simpl.
  - apply preserves_items_migrateServices.
  - apply preserves_items_migrateOrganizations.
  - apply preserves_items_migratePackages.
  - apply preserves_items_migrateBoughtPackages.
  - apply preserves_items_migrateCharges.
  - apply preserves_items_migratePayments.
  - apply preserves_items_migratePaymeTransactions.
  - apply preserves_items_migrateOrganizationBalanceBindings.
  - apply preserves_items_migrateCreditUpdates.
  - apply preserves_items_migrateBankPaymentAutoApplyErrors.
Qed.

Lemma preserves_items_Migrate : preserves atMostOneItem Migrate.
Proof.
  unfold Migrate. apply preserves_bind.
  - generalize modelTables as names. induction names as [| name names IH]; cbn [dropTables].
    + apply preserves_ret.
    + apply preserves_bind; [| intros _; exact IH].
      unfold DropTable. apply preserves_bind; [apply preserves_fault |].
      intros [|]; [apply preserves_ret |].
      intros w H. unfold atMostOneItem, onTable in *. cbn [snd setTables tables].
      rewrite lookup_delete. destruct (decide (name = PackageItem.TableName)); [exact I | exact H].
  - intros _. unfold AutoMigrate. apply preserves_bind; [apply preserves_fault |].
    intros [|]; [apply preserves_ret |].
    intros w H. unfold atMostOneItem, onTable in *. cbn [snd setTables tables].
    rewrite lookup_createMissing.
    destruct (tables w !! PackageItem.TableName); [exact H |].
    destruct (bool_decide _); [| exact I].
    split; [simpl; lia | constructor].
Qed.

Lemma preserves_items_main (Parse : string -> string -> error + Time) (mdb : MongoDatabase) :
  preserves atMostOneItem (main Parse mdb).
Proof.
  unfold main. apply preserves_bind; [apply preserves_items_Migrate |].
  intros [err |]; [preserve |].
  apply preserves_bind; [apply preserves_items_migrateAll |].
  intros [err |]; preserve.
Qed.

Lemma atMostOneItem_length (ts : gmap string (list Row)) (rows : list Row) :
  atMostOneItem ts -> ts !! PackageItem.TableName = Some rows -> (length rows <= 1)%nat.
Proof. unfold atMostOneItem, onTable. intros H Ht. rewrite Ht in H. apply H. Qed.

Lemma atMostOneItem_empty (ts : gmap string (list Row)) :
  ts !! PackageItem.TableName = None \/ ts !! PackageItem.TableName = Some [] ->
  atMostOneItem ts.
Proof.
  unfold atMostOneItem, onTable. intros [-> | ->]; [exact I |].
  split; [simpl; lia | constructor].
Qed.

(** C10. The package migrator never sets the primary key of a
    [package_items] row, which is therefore the empty string for every item
    of every package; since the rows are inserted with the clause that
    ignores conflicts, a destination whose [package_items] table starts
    empty (or holds one such row) never holds more than one row, whatever
    the source and whichever calls fail. *)
Theorem package_items_at_most_one_row (Parse : string -> string -> error + Time) :
  (forall (p : mongoPackage.t) (item : mongoPackageItem.t),
      PackageItem.ID (packageItemRow p item) = "") /\
  (forall (p p' : mongoPackage.t) (item item' : mongoPackageItem.t),
      conflicts (RPackageItem (packageItemRow p item))
                (RPackageItem (packageItemRow p' item')) = true) /\
  (forall (mdb : MongoDatabase) (w : World) (rows : list Row),
      tables w !! PackageItem.TableName = None \/
      tables w !! PackageItem.TableName = Some [] ->
      tables (snd (migratePackages mdb w)) !! PackageItem.TableName = Some rows ->
      (length rows <= 1)%nat) /\
  (forall (mdb : MongoDatabase) (w : World) (rows : list Row),
      tables w !! PackageItem.TableName = None \/
      tables w !! PackageItem.TableName = Some [] ->
      tables (snd (migrateAll Parse mdb w)) !! PackageItem.TableName = Some rows ->
      (length rows <= 1)%nat) /\
  (forall (mdb : MongoDatabase) (w : World),
      atMostOneItem (tables w) -> atMostOneItem (tables (snd (migratePackages mdb w)))) /\
  (forall (mdb : MongoDatabase) (w : World),
      atMostOneItem (tables w) -> atMostOneItem (tables (snd (main Parse mdb w)))).
Proof.
  split; [reflexivity |]. split; [reflexivity |].
  split.
  { intros mdb w rows H0 Hr.
    apply (atMostOneItem_length (tables (snd (migratePackages mdb w))) rows); [| exact Hr].
    apply preserves_items_migratePackages. now apply atMostOneItem_empty. }
  split.
  { intros mdb w rows H0 Hr.
    apply (atMostOneItem_length (tables (snd (migrateAll Parse mdb w))) rows); [| exact Hr].
    apply preserves_items_migrateAll. now apply atMostOneItem_empty. }
  split; [exact preserves_items_migratePackages | exact (preserves_items_main Parse)].
Qed.

(** The two items of the sample package leave one row. *)
Lemma package_items_at_most_one_row_witness :
  (length (rowsOf PackageItem.TableName (snd (migratePackages sampleSource freshWorld))) <= 1)%nat.
Proof.
  destruct (package_items_at_most_one_row rejectAll) as (_ & _ & H & _).
  apply (H sampleSource freshWorld).
  - right. reflexivity.
  - reflexivity.
Defined.

(** ** Children on a second run *)

(** An insert that tolerates conflicts adds the row whenever the row has
    neither a primary key nor a unique key: nothing can conflict with it. *)
Lemma insert_without_key_appends (r : Row) (w : World) (rows : list Row) :
  primaryKey r = None -> uniqueKey r = None -> noFault 1 w ->
  tables w !! TableName r = Some rows ->
  fst (CreateOnConflictDoNothing r w) = None /\
  tables (snd (CreateOnConflictDoNothing r w)) !! TableName r = Some (rows ++ [r])%list.
Proof.
  intros Hp Hu Hn Ht. apply fault_noFault in Hn as (Hf & Hts & _).
  unfold CreateOnConflictDoNothing. rewrite bind_run.
  destruct (fault w) as [b w1]. simpl in *. subst b. rewrite Hts, Ht.
  assert (Hc : existsb (conflicts r) rows = false).
  { clear Ht. induction rows as [| x rows IH]; [reflexivity |].
    simpl. rewrite IH. unfold conflicts. now rewrite Hp, Hu. }
  rewrite Hc. simpl. split; [reflexivity |]. apply lookup_insert_eq.
Qed.

(** C2. The rows of the two link tables have neither a primary key nor a
    unique key, so no insert of such a row is ever ignored.  With the sample
    source (one organization with one demo use, one package with two items
    and one bonus package) and a destination that starts empty: two runs of
    the organization migrator leave two demo-use rows, two runs of the
    package migrator leave two bonus-package rows, and the package migrator
    leaves one item row where the package has two items, after one run,
    after two runs, and after two runs of the whole program. *)
Theorem children_after_reruns :
  (forall (o : mongoOrganization.t) (s : ServiceRef.t),
      primaryKey (ROrganizationServiceDemoUses (demoUseRow o s)) = None /\
      uniqueKey (ROrganizationServiceDemoUses (demoUseRow o s)) = None) /\
  (forall (p : mongoPackage.t) (bonus : ObjectID),
      primaryKey (RPackageActivationBonusPackage (bonusPackageRow p bonus)) = None /\
      uniqueKey (RPackageActivationBonusPackage (bonusPackageRow p bonus)) = None) /\
  length (mongoOrganization.ServiceDemoUses sampleOrganization) = 1%nat /\
  length (mongoPackage.OnActivationBonusPackages samplePackage) = 1%nat /\
  length (mongoPackage.Items samplePackage) = 2%nat /\
  fst (migrateOrganizations sampleSource (snd (migrateOrganizations sampleSource freshWorld)))
  = None /\
  length (rowsOf OrganizationServiceDemoUses.TableName
            (snd (migrateOrganizations sampleSource
                    (snd (migrateOrganizations sampleSource freshWorld))))) = 2%nat /\
  length (rowsOf PackageActivationBonusPackage.TableName
            (snd (migratePackages sampleSource
                    (snd (migratePackages sampleSource freshWorld))))) = 2%nat /\
  length (rowsOf PackageItem.TableName (snd (migratePackages sampleSource freshWorld)))
  = 1%nat /\
  length (rowsOf PackageItem.TableName
            (snd (migratePackages sampleSource
                    (snd (migratePackages sampleSource freshWorld))))) = 1%nat /\
  length (rowsOf PackageItem.TableName
            (snd (main rejectAll sampleSource
                    (snd (main rejectAll sampleSource freshWorld))))) = 1%nat.
Proof. repeat split; vm_compute; reflexivity. Qed.


(** * Further properties *)

(** ** Start-up *)

Lemma getEnv_not_empty (env : gmap string string) (key defaultValue : string) :
  defaultValue <> "" -> getEnv env key defaultValue <> "".
Proof.
  intros Hd. unfold getEnv.
  destruct (String.eqb_spec (default "" (env !! key)) "") as [He | He]; simpl; assumption.
Qed.

Lemma flagString_empty (env args : gmap string string) (name key defaultValue : string) :
  defaultValue <> "" ->
  flagString args name (getEnv env key defaultValue) = "" <-> args !! name = Some "".
Proof.
  intros Hd. unfold flagString. destruct (args !! name) as [v |]; simpl.
  - split; congruence.
  - split; [intros H; now apply getEnv_not_empty in H | discriminate].
Qed.

(** X1. A flag that is not given on the command line is never empty,
    whatever the environment, so the two required-parameter checks of [main]
    can only fail for a flag that is given, and given empty; a variable of
    the environment that is set to the empty string counts as not set. *)
Theorem startup_validation (env args : gmap string string) :
  (args !! "mongo-uri" = None -> args !! "mysql-pass" = None ->
   validateFlags (parseFlags env args) = None) /\
  (validateFlags (parseFlags env args) = Some "MongoDB URI is required" <->
   args !! "mongo-uri" = Some "") /\
  (validateFlags (parseFlags env args) = Some "MySQL password is required" <->
   args !! "mongo-uri" <> Some "" /\ args !! "mysql-pass" = Some "") /\
  (forall key defaultValue : string,
      env !! key = Some "" -> getEnv env key defaultValue = defaultValue).
Proof.
  pose proof (flagString_empty env args "mongo-uri" "mongodb://localhost:27017"
                "mongodb://localhost:27017" ltac:(discriminate)) as Hu.
  pose proof (flagString_empty env args "mysql-pass" "123" "123" ltac:(discriminate)) as Hp.
  assert (H4 : forall key d : string, env !! key = Some "" -> getEnv env key d = d)
    by (intros key d Hk; unfold getEnv; now rewrite Hk).
  unfold validateFlags, parseFlags. cbn [mongoURI mysqlPass].
  destruct (String.eqb_spec
              (flagString args "mongo-uri"
                 (getEnv env "mongodb://localhost:27017" "mongodb://localhost:27017")) "")
    as [Eu | Eu];
    destruct (String.eqb_spec (flagString args "mysql-pass" (getEnv env "123" "123")) "")
      as [Ep | Ep].
  - apply Hu in Eu. apply Hp in Ep.
    repeat split; try congruence; try exact H4. intros [? ?]; congruence.
  - apply Hu in Eu. assert (args !! "mysql-pass" <> Some "") by (intros Hx; apply Ep, Hp, Hx).
    repeat split; try congruence; try exact H4. intros [? ?]; congruence.
  - apply Hp in Ep. assert (args !! "mongo-uri" <> Some "") by (intros Hx; apply Eu, Hu, Hx).
    repeat split; try congruence; try exact H4.
  - assert (args !! "mongo-uri" <> Some "") by (intros Hx; apply Eu, Hu, Hx).
    assert (args !! "mysql-pass" <> Some "") by (intros Hx; apply Ep, Hp, Hx).
    repeat split; try congruence; try exact H4. intros [? ?]; congruence.
Qed.

Lemma startup_validation_witness :
  validateFlags (parseFlags ∅ ∅) = None /\
  validateFlags (parseFlags ∅ {["mongo-uri" := ""]}) = Some "MongoDB URI is required".
Proof.
  destruct (startup_validation ∅ ∅) as (H & _).
  destruct (startup_validation ∅ {["mongo-uri" := ""]}) as (_ & H' & _).
  split; [apply H; reflexivity | apply H'; reflexivity].
Defined.

(** ** Timestamps that reach a nullable column *)

Lemma validateDateTime_storable (t : Time) : storable (validateDateTime t).
Proof.
  destruct (validateDateTime t) as [v |] eqn:Hv; [| exact I].
  pose proof (validateDateTime_unchanged t v Hv) as ->.
  assert (Hn : validateDateTime t <> None) by congruence.
  rewrite validateDateTime_None in Hn. simpl.
  destruct (IsZero t); [exfalso; apply Hn; now left |].
  split; [reflexivity | lia].
Qed.

Lemma validated_storable (p : option Time) : storable (validated p).
Proof. destruct p as [t |]; [apply validateDateTime_storable | exact I]. Qed.

(** ** The type code of a charge *)

(** X3. The type code is one of 0, 2, 3, 4, 7, 8, 9, 10, 11 and tells which
    embedded document was used: it is the code of a kind exactly when the
    first present document is of that kind, and 0 exactly when no document
    is present, in which case nothing is extracted.  A second date is only
    ever extracted for a roaming empowerment (11) or an attorney (4). *)
Theorem chargeType_identifies_document (Parse : string -> string -> error + Time)
    (c : mongoCharge.t) :
  In (chargeType (resolveCharge Parse c)) [0; 2; 3; 4; 7; 8; 9; 10; 11] /\
  (forall k : SubObject,
      chargeType (resolveCharge Parse c) = typeCode k <->
      exists m : Document, firstPresent priority c = Some (k, m)) /\
  (chargeType (resolveCharge Parse c) = 0 <-> firstPresent priority c = None) /\
  (firstPresent priority c = None ->
   resolveCharge Parse c = mkResolved 0 "" "" None None) /\
  (date2 (resolveCharge Parse c) <> None ->
   chargeType (resolveCharge Parse c) = 11 \/ chargeType (resolveCharge Parse c) = 4).
Proof.
  unfold resolveCharge, priority. cbn [firstPresent subObject].
  destruct (mongoCharge.RoamingInvoice c) as [m |];
    [|destruct (mongoCharge.RoamingContract c) as [m |];
      [|destruct (mongoCharge.RoamingWaybill c) as [m |];
        [|destruct (mongoCharge.RoamingAct c) as [m |];
          [|destruct (mongoCharge.RoamingVerificationAct c) as [m |];
            [|destruct (mongoCharge.RoamingEmpowerment c) as [m |];
              [|destruct (mongoCharge.EDIReturnInvoice c) as [m |];
                [|destruct (mongoCharge.EDIAttorney c) as [m |]]]]]]]];
    cbn [chargeType date2];
    (split; [simpl; tauto |]);
    (split; [intros k; split;
             [destruct k; cbn [typeCode]; intros H; try discriminate H; try (now exists m)
             | intros [m' H]; inversion H; reflexivity] |]);
    (split; [split; intros H; discriminate H || reflexivity |]);
    (split; [intros H; discriminate H || reflexivity |]);
    try (intros H; now contradiction H); auto.
Qed.

Lemma chargeType_identifies_document_witness :
  exists m : Document, firstPresent priority invoiceCharge = Some (RoamingInvoiceDoc, m).
Proof.
  destruct (chargeType_identifies_document parseSample invoiceCharge) as (_ & H & _).
  apply (H RoamingInvoiceDoc). reflexivity.
Defined.

(** ** The two queries *)

(** A computation that keeps every property of the tables leaves them as
    they are. *)
Lemma preserves_tables {A : Type} (m : M A) (w : World) :
  preserves (fun ts => ts = tables w) m -> tables (snd (m w)) = tables w.
Proof. intros H. now apply H. Qed.

Lemma tables_Printf (format : string) (args : list Arg) (err : option error) (w : World) :
  tables (snd (Printf format args err w)) = tables w.
Proof. reflexivity. Qed.

Lemma tables_mysqlCount (table : string) (w : World) :
  tables (snd (mysqlCount table w)) = tables w.
Proof. apply preserves_tables, preserves_mysqlCount. Qed.

Lemma tables_mongoCount {A : Type} (coll : Collection A) (collection : string) (w : World) :
  tables (snd (mongoCount coll collection w)) = tables w.
Proof. apply preserves_tables, preserves_mongoCount. Qed.

Lemma tables_checkRecordExists (table id : string) (w : World) :
  tables (snd (checkRecordExists table id w)) = tables w.
Proof. apply preserves_tables, preserves_checkRecordExists. Qed.

Lemma fault_false (w : World) : fst (fault w) = false <-> noFault 1 w.
Proof.
  unfold fault, noFault. destruct (faults w) as [| [|] fs]; simpl; split; congruence.
Qed.

Lemma faults_fault (w : World) : faults (snd (fault w)) = tl (faults w).
Proof. unfold fault. destruct (faults w) eqn:Hf; simpl; [exact Hf | reflexivity]. Qed.

Lemma count_positive (id : string) (rows : list Row) :
  (Z.of_nat (length (List.filter (fun r => sameKey (primaryKey r) (Some id)) rows)) >? 0) = true ->
  exists r : Row, In r rows /\ primaryKey r = Some id.
Proof.
  intros H.
  destruct (List.filter (fun r => sameKey (primaryKey r) (Some id)) rows) as [| r l] eqn:Hf;
    [discriminate |].
  assert (Hin : In r (List.filter (fun r => sameKey (primaryKey r) (Some id)) rows))
    by (rewrite Hf; now left).
  apply filter_In in Hin as [Hin Hk]. exists r. split; [exact Hin |].
  destruct (primaryKey r) as [k |]; [| discriminate].
  simpl in Hk. apply String.eqb_eq in Hk. now subst.
Qed.

(** What the query answers, and what it leaves. *)
Lemma checkRecordExists_facts (table id : string) (w : World) :
  (fst (checkRecordExists table id w) = true <-> noFault 1 w /\ present table id w) /\
  tables (snd (checkRecordExists table id w)) = tables w /\
  faults (snd (checkRecordExists table id w)) = tl (faults w).
Proof.
  split; [| split; [apply tables_checkRecordExists |]].
  - split.
    + unfold checkRecordExists, CountWhereID. rewrite !bind_run.
      pose proof (fault_false w) as Hf. pose proof (tables_fault w) as Ht.
      destruct (fault w) as [[|] w1]; cbn [fst snd] in *; [discriminate |].
      destruct (tables w1 !! table) as [rows |] eqn:Hrows; cbn [fst snd]; [| discriminate].
      unfold ret. cbn [fst]. intros Hc. apply count_positive in Hc as (r & Hin & Hk).
      split; [now apply Hf |]. exists rows, r. rewrite <- Ht. auto.
    + intros [Hn Hp]. now rewrite (checkRecordExists_present table id w Hp Hn).
  - unfold checkRecordExists, CountWhereID. rewrite !bind_run.
    pose proof (faults_fault w) as Hf.
    destruct (fault w) as [[|] w1]; cbn [fst snd] in *; [exact Hf |].
    destruct (tables w1 !! table); exact Hf.
Qed.

(** X4. [checkRecordExists] answers true exactly when the query does not
    fail and a row with that primary key is stored in the table: a failed
    query, a missing table and an absent row all give false.  It makes one
    call to the destination and never changes a table. *)
Theorem checkRecordExists_spec (table id : string) (w : World) :
  (fst (checkRecordExists table id w) = true <-> noFault 1 w /\ present table id w) /\
  tables (snd (checkRecordExists table id w)) = tables w /\
  faults (snd (checkRecordExists table id w)) = tl (faults w).
Proof.
  destruct (checkRecordExists_facts table id w) as (Hanswer & Htables & Hfaults).
  split; [exact Hanswer |].
  split; [exact Htables | exact Hfaults].
Qed.

Lemma checkRecordExists_spec_witness :
  fst (checkRecordExists Service.TableName (Hex (mongoService.ID sampleService))
                         (worldWithService [])) = true.
Proof.
  destruct (checkRecordExists_spec Service.TableName (Hex (mongoService.ID sampleService))
              (worldWithService [])) as ([_ H] & _).
  apply H. split; [reflexivity |].
  exists [RService (serviceRow sampleService)], (RService (serviceRow sampleService)).
  split; [reflexivity |]. split; [now left | reflexivity].
Defined.

(** X5. [mysqlCount] gives the number of rows of the table when the query
    succeeds; when the query fails or the table does not exist it gives 0,
    as for an empty table, and logs one warning.  It never changes a table. *)
Theorem mysqlCount_spec (table : string) (w : World) :
  (forall rows : list Row,
      noFault 1 w -> tables w !! table = Some rows ->
      fst (mysqlCount table w) = Z.of_nat (length rows) /\
      log (snd (mysqlCount table w)) = log w) /\
  (~ noFault 1 w \/ tables w !! table = None ->
   fst (mysqlCount table w) = 0 /\
   exists err : error,
     log (snd (mysqlCount table w))
     = (log w ++ [Printed "WARNING: Could not count %s: %v" [AStr table] (Some err)])%list) /\
  tables (snd (mysqlCount table w)) = tables w.
Proof.
  split; [| split; [| apply tables_mysqlCount]].
  - intros rows Hn Ht. apply fault_false in Hn.
    unfold mysqlCount, Count. rewrite !bind_run.
    pose proof (tables_fault w) as Htf.
    assert (Hl : log (snd (fault w)) = log w) by (unfold fault; destruct (faults w); reflexivity).
    destruct (fault w) as [b w1]; cbn [fst snd] in *. subst b.
    rewrite Htf, Ht. cbn [fst snd]. auto.
  - intros H. unfold mysqlCount, Count. rewrite !bind_run.
    pose proof (fault_false w) as Hf. pose proof (tables_fault w) as Htf.
    assert (Hl : log (snd (fault w)) = log w) by (unfold fault; destruct (faults w); reflexivity).
    destruct (fault w) as [[|] w1]; cbn [fst snd] in *.
    + split; [reflexivity |]. exists (Driver Unavailable). now rewrite <- Hl.
    + destruct H as [H | H]; [exfalso; apply H; now apply Hf |].
      rewrite Htf, H. cbn [fst snd]. split; [reflexivity |].
      exists (Driver NoSuchTable). now rewrite <- Hl.
Qed.

Lemma mysqlCount_spec_witness :
  fst (mysqlCount Service.TableName (worldWithService [])) = 1 /\
  fst (mysqlCount Service.TableName (worldWithService [true])) = 0.
Proof.
  destruct (mysqlCount_spec Service.TableName (worldWithService [])) as (H & _).
  destruct (mysqlCount_spec Service.TableName (worldWithService [true])) as (_ & H' & _).
  split.
  - destruct (H [RService (serviceRow sampleService)]) as [Hc _]; [reflexivity | reflexivity |].
    exact Hc.
  - destruct H' as [Hc _]; [left; intros Hn; vm_compute in Hn; discriminate | exact Hc].
Defined.

(** ** What every migrator keeps *)

Section EveryRow.

Variable Q : gmap string (list Row) -> Prop.

(** [Q] survives the insertion of any row. *)
Hypothesis Q_stable : forall r : Row, stableUnder Q r.

Lemma preserves_migrateServices (mdb : MongoDatabase) : preserves Q (migrateServices mdb).
Proof. unfold migrateServices, serviceStep. preserve; apply Q_stable. Qed.

Lemma preserves_migrateOrganizations (mdb : MongoDatabase) :
  preserves Q (migrateOrganizations mdb).
Proof. unfold migrateOrganizations, organizationStep, demoUseStep. preserve; apply Q_stable. Qed.

Lemma preserves_migratePackages (mdb : MongoDatabase) : preserves Q (migratePackages mdb).
Proof.
  unfold migratePackages, packageStep, packageChildren, packageItemStep, bonusPackageStep.
  preserve; apply Q_stable.
Qed.

Lemma preserves_migrateBoughtPackages (mdb : MongoDatabase) :
  preserves Q (migrateBoughtPackages mdb).
Proof.
  unfold migrateBoughtPackages, boughtPackageStep, boughtPackageItemStep.
  preserve; apply Q_stable.
Qed.

Lemma preserves_migrateCharges (Parse : string -> string -> error + Time)
    (mdb : MongoDatabase) :
  preserves Q (migrateCharges Parse mdb).
Proof. unfold migrateCharges, chargeStep. preserve; apply Q_stable. Qed.

Lemma preserves_migratePayments (mdb : MongoDatabase) : preserves Q (migratePayments mdb).
Proof. unfold migratePayments, paymentStep. preserve; apply Q_stable. Qed.

Lemma preserves_migratePaymeTransactions (mdb : MongoDatabase) :
  preserves Q (migratePaymeTransactions mdb).
Proof.
  unfold migratePaymeTransactions, paymeTransactionStep, paymeCreatedAt.
  preserve; apply Q_stable.
Qed.

Lemma preserves_migrateOrganizationBalanceBindings (mdb : MongoDatabase) :
  preserves Q (migrateOrganizationBalanceBindings mdb).
Proof.
  unfold migrateOrganizationBalanceBindings, organizationBalanceBindingStep.
  preserve; apply Q_stable.
Qed.

Lemma preserves_migrateCreditUpdates (mdb : MongoDatabase) :
  preserves Q (migrateCreditUpdates mdb).
Proof. unfold migrateCreditUpdates, creditUpdateStep. preserve; apply Q_stable. Qed.

Lemma preserves_migrateBankPaymentAutoApplyErrors (mdb : MongoDatabase) :
  preserves Q (migrateBankPaymentAutoApplyErrors mdb).
Proof.
  unfold migrateBankPaymentAutoApplyErrors, bankPaymentAutoApplyErrorStep.
  preserve; apply Q_stable.
Qed.

Lemma preserves_migrations (Parse : string -> string -> error + Time) (mdb : MongoDatabase) :
  Forall (fun step => preserves Q (snd step mdb)) (migrations Parse).
Proof.
  unfold migrations. repeat constructor; simpl.
  - apply preserves_migrateServices.
  - apply preserves_migrateOrganizations.
  - apply preserves_migratePackages.
  - apply preserves_migrateBoughtPackages.
  - apply preserves_migrateCharges.
  - apply preserves_migratePayments.
  - apply preserves_migratePaymeTransactions.
  - apply preserves_migrateOrganizationBalanceBindings.
  - apply preserves_migrateCreditUpdates.
  - apply preserves_migrateBankPaymentAutoApplyErrors.
Qed.

Lemma preserves_migrateAll (Parse : string -> string -> error + Time) (mdb : MongoDatabase) :
  preserves Q (migrateAll Parse mdb).
Proof. apply preserves_runMigrations, preserves_migrations. Qed.

End EveryRow.

Lemma extends_refl (ts : gmap string (list Row)) : extends ts ts.
Proof.
  intros table. destruct (ts !! table) as [rows |]; [| reflexivity].
  exists []. now rewrite app_nil_r.
Qed.

Lemma stableUnder_extends (ts0 : gmap string (list Row)) (r : Row) :
  stableUnder (extends ts0) r.
Proof.
  intros ts rows H Ht Hc table. specialize (H table).
  destruct (decide (TableName r = table)) as [<- | Hne].
  - rewrite lookup_insert_eq. destruct (ts0 !! TableName r) as [rows0 |]; [| congruence].
    destruct H as [extra H]. rewrite Ht in H. injection H as ->.
    exists (extra ++ [r])%list. now rewrite app_assoc.
  - now rewrite lookup_insert_ne.
Qed.

(** X6. The migration steps only add rows: after any step, and after
    [migrateAll], every table that existed still exists and holds the rows it
    had, in the same order, followed by the new ones, and no table appears;
    no row is updated or deleted, whatever the source and whichever calls
    fail. *)
Theorem migrators_only_append (Parse : string -> string -> error + Time)
    (mdb : MongoDatabase) (w : World) :
  extends (tables w) (tables (snd (migrateAll Parse mdb w))) /\
  Forall (fun step => extends (tables w) (tables (snd (snd step mdb w)))) (migrations Parse).
Proof.
  split.
  - apply (preserves_migrateAll (extends (tables w)) (stableUnder_extends (tables w))).
    apply extends_refl.
  - pose proof (preserves_migrations (extends (tables w)) (stableUnder_extends (tables w))
                  Parse mdb) as H.
    eapply Forall_impl; [exact H |].
    intros step Hs. apply Hs, extends_refl.
Qed.

(** ** Migrate, whichever calls fail *)

Lemma faults_DropTable (table : string) (w : World) :
  faults (snd (DropTable table w)) = tl (faults w).
Proof.
  unfold DropTable. rewrite bind_run. pose proof (faults_fault w) as Hf.
  destruct (fault w) as [[|] w1]; exact Hf.
Qed.

Lemma faults_dropTables (names : list string) :
  forall w : World,
    faults (snd (dropTables names w)) = skipn (length names) (faults w).
Proof.
  induction names as [| name names IH]; intros w; cbn [dropTables length].
  - reflexivity.
  - rewrite bind_run, IH, faults_DropTable.
    destruct (faults w); [now rewrite skipn_nil | reflexivity].
Qed.

(** Every table is either as it was or without rows. *)
Lemma preserves_reset (ts0 : gmap string (list Row)) :
  preserves (fun ts => forall (table : string) (rows : list Row),
                 ts !! table = Some rows -> rows = [] \/ ts0 !! table = Some rows)
            Migrate.
Proof.
  unfold Migrate. apply preserves_bind.
  - generalize modelTables as names. induction names as [| name names IH]; cbn [dropTables].
    + apply preserves_ret.
    + apply preserves_bind; [| intros _; exact IH].
      unfold DropTable. apply preserves_bind; [apply preserves_fault |].
      intros [|]; [apply preserves_ret |].
      intros w H table rows. cbn [snd setTables tables].
      rewrite lookup_delete. destruct (decide (name = table)); [discriminate | apply H].
  - intros _. unfold AutoMigrate. apply preserves_bind; [apply preserves_fault |].
    intros [|]; [apply preserves_ret |].
    intros w H table rows. cbn [snd setTables tables].
    rewrite lookup_createMissing.
    destruct (tables w !! table) as [rows0 |] eqn:Ht; [rewrite <- Ht; apply H |].
    destruct (bool_decide _); [| discriminate]. intros [= <-]. now left.
Qed.

(** X7. [Migrate] reports a failure exactly when its last call, the
    [AutoMigrate] that follows the fourteen drops, fails: the outcome of a
    drop never shows.  When it reports success each of the fourteen tables
    exists, and in every case each table of the destination is left either
    as it was or without rows: no row is ever added or changed. *)
Theorem Migrate_spec (w : World) :
  (fst (Migrate w) <> None <-> nth 14 (faults w) false = true) /\
  (forall err : error, fst (Migrate w) = Some err -> err = Driver Unavailable) /\
  (fst (Migrate w) = None ->
   forall table : string, In table modelTables ->
     is_Some (tables (snd (Migrate w)) !! table)) /\
  (forall (table : string) (rows : list Row),
      tables (snd (Migrate w)) !! table = Some rows ->
      rows = [] \/ tables w !! table = Some rows).
Proof.
  assert (Hlast : fst (fault (snd (dropTables modelTables w))) = nth 14 (faults w) false).
  { pose proof (faults_dropTables modelTables w) as Hf.
    unfold fault. rewrite Hf. change (length modelTables) with 14%nat.
    destruct (faults w) as [| b0 [| b1 [| b2 [| b3 [| b4 [| b5 [| b6 [| b7 [| b8 [| b9
      [| b10 [| b11 [| b12 [| b13 [| b14 fs]]]]]]]]]]]]]]]; reflexivity. }
  assert (Hrun : Migrate w = AutoMigrate modelTables (snd (dropTables modelTables w))).
  { unfold Migrate. now rewrite bind_run. }
  split; [| split; [| split]].
  - rewrite Hrun. unfold AutoMigrate. rewrite bind_run, Hlast.
    destruct (nth 14 (faults w) false); cbn [fst snd ret]; split; congruence.
  - intros err. rewrite Hrun. unfold AutoMigrate. rewrite bind_run.
    destruct (fst (fault _)); cbn [fst snd ret]; congruence.
  - rewrite Hrun. unfold AutoMigrate. rewrite bind_run.
    destruct (fst (fault _)); cbn [fst snd ret setTables tables]; [discriminate |].
    intros _ table Hin. rewrite lookup_createMissing.
    destruct (tables _ !! table); [eauto |].
    rewrite bool_decide_eq_true_2; [eauto | now apply list_elem_of_In].
  - apply (preserves_reset (tables w) w). auto.
Qed.

Lemma Migrate_spec_witness :
  is_Some (tables (snd (Migrate (worldWithService [true]))) !! Charge.TableName).
Proof.
  destruct (Migrate_spec (worldWithService [true])) as (_ & _ & H & _).
  apply H; [reflexivity |]. simpl. tauto.
Defined.

(** ** Errors of the source *)

Ltac source_error migrate step :=
  intros mdb w err [H | [rest H]]; unfold migrate; rewrite H;
  repeat (rewrite bind_run; cbn beta iota);
  [ cbn [fst snd ret]
  | cbn [forEach]; unfold step; repeat (rewrite bind_run; cbn beta iota delta [fst snd ret]) ];
  (split; [reflexivity |]);
  repeat first [rewrite tables_Printf | rewrite tables_mysqlCount | rewrite tables_mongoCount];
  reflexivity.

Lemma source_error_services : returnsSourceError migrateServices services.
Proof. source_error migrateServices serviceStep. Qed.

Lemma source_error_organizations : returnsSourceError migrateOrganizations organizations.
Proof. source_error migrateOrganizations organizationStep. Qed.

Lemma source_error_packages : returnsSourceError migratePackages packages.
Proof. source_error migratePackages packageStep. Qed.

Lemma source_error_boughtPackages : returnsSourceError migrateBoughtPackages boughtPackages.
Proof. source_error migrateBoughtPackages boughtPackageStep. Qed.

Lemma source_error_charges (Parse : string -> string -> error + Time) :
  returnsSourceError (migrateCharges Parse) charges.
Proof. source_error migrateCharges chargeStep. Qed.

Lemma source_error_payments : returnsSourceError migratePayments payments.
Proof. source_error migratePayments paymentStep. Qed.

Lemma source_error_paymeTransactions :
  returnsSourceError migratePaymeTransactions paymeTransactions.
Proof. source_error migratePaymeTransactions paymeTransactionStep. Qed.

Lemma source_error_organizationBalanceBindings :
  returnsSourceError migrateOrganizationBalanceBindings organizationBalanceBindings.
Proof.
  source_error migrateOrganizationBalanceBindings organizationBalanceBindingStep.
Qed.

Lemma source_error_creditUpdates : returnsSourceError migrateCreditUpdates creditUpdates.
Proof. source_error migrateCreditUpdates creditUpdateStep. Qed.

Lemma source_error_bankPaymentAutoApplyErrors :
  returnsSourceError migrateBankPaymentAutoApplyErrors bankPaymentsAutoApplyErrors.
Proof. source_error migrateBankPaymentAutoApplyErrors bankPaymentAutoApplyErrorStep. Qed.

(** X8. For each of the ten migrators: when [Find] fails on its collection,
    or when the first document of the cursor does not decode, the migrator
    returns that error as it is, without wrapping it, and leaves every table
    of the destination as it was. *)
Theorem source_errors_returned (Parse : string -> string -> error + Time) :
  returnsSourceError migrateServices services /\
  returnsSourceError migrateOrganizations organizations /\
  returnsSourceError migratePackages packages /\
  returnsSourceError migrateBoughtPackages boughtPackages /\
  returnsSourceError (migrateCharges Parse) charges /\
  returnsSourceError migratePayments payments /\
  returnsSourceError migratePaymeTransactions paymeTransactions /\
  returnsSourceError migrateOrganizationBalanceBindings organizationBalanceBindings /\
  returnsSourceError migrateCreditUpdates creditUpdates /\
  returnsSourceError migrateBankPaymentAutoApplyErrors bankPaymentsAutoApplyErrors.
Proof.
  split; [exact source_error_services |].
  split; [exact source_error_organizations |].
  split; [exact source_error_packages |].
  split; [exact source_error_boughtPackages |].
  split; [exact (source_error_charges Parse) |].
  split; [exact source_error_payments |].
  split; [exact source_error_paymeTransactions |].
  split; [exact source_error_organizationBalanceBindings |].
  split; [exact source_error_creditUpdates |].
  exact source_error_bankPaymentAutoApplyErrors.
Qed.

Lemma source_errors_returned_witness :
  fst (migrateServices unreadableServices (worldWithService [])) = Some (Driver Unavailable) /\
  tables (snd (migrateServices unreadableServices (worldWithService [])))
  = tables (worldWithService []).
Proof.
  destruct (source_errors_returned rejectAll) as (H & _).
  apply H. left. reflexivity.
Defined.

(** ** A second pass over the same documents *)

Lemma present_extends (table id : string) (w w' : World) :
  extends (tables w) (tables w') -> present table id w -> present table id w'.
Proof.
  intros He (rows & r & Ht & Hin & Hk). specialize (He table). rewrite Ht in He.
  destruct He as [extra He]. exists (rows ++ extra)%list, r.
  split; [exact He |]. split; [| exact Hk]. apply in_or_app. now left.
Qed.

Lemma extends_trans (ts0 ts1 ts2 : gmap string (list Row)) :
  extends ts0 ts1 -> extends ts1 ts2 -> extends ts0 ts2.
Proof.
  intros H01 H12 table. specialize (H01 table). specialize (H12 table).
  destruct (ts0 !! table) as [rows |].
  - destruct H01 as [extra H01]. rewrite H01 in H12. destruct H12 as [extra' H12].
    exists (extra ++ extra')%list. now rewrite app_assoc.
  - now rewrite H01 in H12.
Qed.

Lemma Create_success_present (r : Row) (id : string) (w : World) :
  fst (Create r w) = None -> primaryKey r = Some id ->
  present (TableName r) id (snd (Create r w)).
Proof.
  unfold Create. rewrite bind_run.
  destruct (fault w) as [[|] w1]; cbn [fst snd ret]; [discriminate |].
  destruct (tables w1 !! TableName r) as [rows |]; [| discriminate].
  destruct (existsb (conflicts r) rows); [discriminate |].
  intros _ Hk. unfold present. cbn [snd setTables tables].
  exists (rows ++ [r])%list, r. rewrite lookup_insert_eq.
  split; [reflexivity |]. split; [| exact Hk]. apply in_or_app. right. now left.
Qed.

Section SecondPass.

Variables (A S : Type) (step : error + A -> S -> M (error + S)).
Variables (table : string) (idOf : A -> ObjectID) (skip : S -> S).

(** A stored document is passed over; the one call made is the query. *)
Hypothesis step_skip :
  forall (a : A) (st : S) (w : World),
    present table (Hex (idOf a)) w -> noFault 1 w ->
    step (inr a) st w = (inr (skip st), snd (fault w)).

(** A document that did not stop the loop is stored afterwards. *)
Hypothesis step_stores :
  forall (a : A) (st st' : S) (w : World),
    fst (step (inr a) st w) = inr st' ->
    present table (Hex (idOf a)) (snd (step (inr a) st w)).

(** The step only adds rows. *)
Hypothesis step_extends :
  forall (x : error + A) (st : S) (w : World),
    extends (tables w) (tables (snd (step x st w))).

Lemma forEach_extends (xs : list (error + A)) :
  forall (st : S) (w : World), extends (tables w) (tables (snd (forEach step xs st w))).
Proof.
  induction xs as [| x xs IH]; intros st w; cbn [forEach].
  - apply extends_refl.
  - rewrite bind_run. destruct (fst (step x st w)) as [err | st1].
    + apply step_extends.
    + eapply extends_trans; [apply step_extends | apply IH].
Qed.

Lemma forEach_stores (ds : list A) :
  forall (st st' : S) (w : World),
    fst (forEach step (map inr ds) st w) = inr st' ->
    Forall (fun a => present table (Hex (idOf a)) (snd (forEach step (map inr ds) st w))) ds.
Proof.
  induction ds as [| a ds IH]; intros st st' w; cbn [map forEach]; [constructor |].
  rewrite bind_run. destruct (fst (step (inr a) st w)) as [err | st1] eqn:Hs;
    [discriminate |].
  intros Hrest. constructor.
  - eapply present_extends; [apply forEach_extends |]. exact (step_stores a st st1 w Hs).
  - exact (IH st1 st' _ Hrest).
Qed.

Lemma forEach_skips (ds : list A) :
  forall (st : S) (w : World),
    Forall (fun a => present table (Hex (idOf a)) w) ds -> noFault (length ds) w ->
    fst (forEach step (map inr ds) st w) = inr (Nat.iter (length ds) skip st) /\
    tables (snd (forEach step (map inr ds) st w)) = tables w.
Proof.
  induction ds as [| a ds IH]; intros st w Hall Hn; cbn [map forEach length].
  - split; reflexivity.
  - inversion Hall as [| ? ? Ha Hds]; subst.
    assert (Hn1 : noFault 1 w).
    { unfold noFault in *. destruct (faults w) as [| b fs]; [reflexivity |].
      simpl in *. apply andb_true_iff in Hn as [-> _]. reflexivity. }
    apply fault_noFault in Hn as (_ & Ht & Hn).
    rewrite bind_run, (step_skip a st w Ha Hn1). cbn [fst snd].
    destruct (IH (skip st) (snd (fault w))) as [Hr Htab]; [| exact Hn |].
    + eapply Forall_impl; [exact Hds |]. intros b Hb.
      destruct Hb as (rows & r & Hrows & Hin & Hk). exists rows, r. now rewrite Ht.
    + rewrite Hr, Htab, Ht. split; [| reflexivity].
      f_equal. symmetry. apply Nat.iter_succ_r.
Qed.

Lemma second_pass : rerunSkipsAll step skip.
Proof.
  intros ds st st' st2 w w2 Hrun Hext Hn.
  apply forEach_skips; [| exact Hn].
  pose proof (forEach_stores ds st st' w Hrun) as Hall.
  eapply Forall_impl; [exact Hall |]. intros a Ha.
  eapply present_extends; [exact Hext | exact Ha].
Qed.

End SecondPass.

(** The three facts [second_pass] asks of a step, for a step that goes
    straight from the query to the insert. *)
Ltac step_skip_tac step :=
  intros a st w Hp Hn; unfold step;
  repeat match goal with
         | x : (_ * _)%type |- _ => destruct x
         end;
  rewrite bind_run, (checkRecordExists_present _ _ w Hp Hn); reflexivity.

Ltac step_extends_tac step :=
  intros x st w;
  let Hp := fresh "Hp" in
  assert (Hp : preserves (extends (tables w)) (step x st))
    by (unfold step; preserve; apply stableUnder_extends);
  apply Hp, extends_refl.

Ltac found_present w :=
  match goal with
  | |- context [checkRecordExists ?t ?id w] =>
      let Hfound := fresh "Hfound" in
      let Htab := fresh "Htab" in
      destruct (checkRecordExists_facts t id w) as ([Hfound _] & Htab & _);
      destruct (fst (checkRecordExists t id w)) eqn:?;
      [ cbn [fst snd ret]; intros _; destruct (Hfound eq_refl) as [_ Hp];
        destruct Hp as (rows & r & Hrows & Hin & Hk); exists rows, r;
        rewrite Htab; auto
      | clear Hfound ]
  end.

Ltac step_stores_tac step :=
  intros a st st' w; unfold step;
  repeat match goal with
         | x : (_ * _)%type |- _ => destruct x
         end;
  rewrite bind_run; found_present w;
  repeat (rewrite bind_run; cbn beta iota);
  match goal with
  | |- context [Create ?r ?w1] =>
      let Hc := fresh "Hc" in
      destruct (fst (Create r w1)) eqn:Hc;
      [ repeat (rewrite bind_run; cbn beta iota); cbn [fst snd ret]; discriminate
      | cbn [fst snd ret]; intros _; exact (Create_success_present r _ w1 Hc eq_refl) ]
  end.

Lemma second_pass_services : rerunSkipsAll serviceStep (fun st => (fst st, incr (snd st))).
Proof.
  apply (second_pass _ _ serviceStep Service.TableName mongoService.ID).
  - step_skip_tac serviceStep.
  - step_stores_tac serviceStep.
  - step_extends_tac serviceStep.
Qed.

Lemma second_pass_payments : rerunSkipsAll paymentStep (fun st => (fst st, incr (snd st))).
Proof.
  apply (second_pass _ _ paymentStep Payment.TableName mongoPayment.ID).
  - step_skip_tac paymentStep.
  - step_stores_tac paymentStep.
  - step_extends_tac paymentStep.
Qed.

Lemma second_pass_organizationBalanceBindings :
  rerunSkipsAll organizationBalanceBindingStep (fun st => (fst st, incr (snd st))).
Proof.
  apply (second_pass _ _ organizationBalanceBindingStep OrganizationBalanceBinding.TableName
                     mongoOrganizationBalanceBinding.ID).
  - step_skip_tac organizationBalanceBindingStep.
  - step_stores_tac organizationBalanceBindingStep.
  - step_extends_tac organizationBalanceBindingStep.
Qed.

Lemma second_pass_creditUpdates :
  rerunSkipsAll creditUpdateStep (fun st => (fst st, incr (snd st))).
Proof.
  apply (second_pass _ _ creditUpdateStep CreditUpdates.TableName mongoCreditUpdate.ID).
  - step_skip_tac creditUpdateStep.
  - step_stores_tac creditUpdateStep.
  - step_extends_tac creditUpdateStep.
Qed.

Lemma second_pass_bankPaymentAutoApplyErrors :
  rerunSkipsAll bankPaymentAutoApplyErrorStep (fun st => (fst st, incr (snd st))).
Proof.
  apply (second_pass _ _ bankPaymentAutoApplyErrorStep BankPaymentAutoApplyError.TableName
                     mongoBankPaymentAutoApplyError.ID).
  - step_skip_tac bankPaymentAutoApplyErrorStep.
  - step_stores_tac bankPaymentAutoApplyErrorStep.
  - step_extends_tac bankPaymentAutoApplyErrorStep.
Qed.

Lemma second_pass_charges (Parse : string -> string -> error + Time) :
  rerunSkipsAll (chargeStep Parse) (fun st => (fst st, incr (snd st))).
Proof.
  apply (second_pass _ _ (chargeStep Parse) Charge.TableName mongoCharge.ID).
  - step_skip_tac chargeStep.
  - step_stores_tac chargeStep.
  - intros x st w.
    assert (Hp : preserves (extends (tables w)) (chargeStep Parse x st))
      by (unfold chargeStep; preserve; apply stableUnder_extends).
    apply Hp, extends_refl.
Qed.

Lemma second_pass_paymeTransactions :
  rerunSkipsAll paymeTransactionStep (fun st => (fst st, incr (snd st))).
Proof.
  apply (second_pass _ _ paymeTransactionStep PaymeTransaction.TableName
                     mongoPaymeTransaction.ID).
  - step_skip_tac paymeTransactionStep.
  - step_stores_tac paymeTransactionStep.
  - intros x st w.
    assert (Hp : preserves (extends (tables w)) (paymeTransactionStep x st))
      by (unfold paymeTransactionStep, paymeCreatedAt; preserve; apply stableUnder_extends).
    apply Hp, extends_refl.
Qed.

Lemma boughtPackageItems_extends (bp : mongoBoughtPackage.t) (items : list BoughtItem.t)
    (itemsMoved : Z) (w : World) :
  extends (tables w) (tables (snd (forEach (boughtPackageItemStep bp) items itemsMoved w))).
Proof.
  assert (Hp : preserves (extends (tables w))
                         (forEach (boughtPackageItemStep bp) items itemsMoved))
    by (unfold boughtPackageItemStep; preserve; apply stableUnder_extends).
  apply Hp, extends_refl.
Qed.

Lemma second_pass_boughtPackages :
  rerunSkipsAll boughtPackageStep (fun st => (fst (fst st), incr (snd (fst st)), snd st)).
Proof.
  apply (second_pass _ _ boughtPackageStep BoughtPackage.TableName mongoBoughtPackage.ID).
  - step_skip_tac boughtPackageStep.
  - intros a [[moved skipped] itemsMoved] st' w. unfold boughtPackageStep.
    rewrite bind_run. found_present w.
    rewrite bind_run. cbn beta iota.
    destruct (fst (Create (RBoughtPackage (boughtPackageRow a))
                          (snd (checkRecordExists BoughtPackage.TableName
                                  (Hex (mongoBoughtPackage.ID a)) w)))) eqn:Hc.
    + repeat (rewrite bind_run; cbn beta iota). cbn [fst snd ret]. discriminate.
    + intros _. rewrite bind_run.
      pose proof (Create_success_present _ _ _ Hc eq_refl) as Hp.
      cbn [fst snd ret].
      match goal with
      | |- context [forEach ?body ?items ?n ?w1] =>
          pose proof (boughtPackageItems_extends a items n w1) as Hext;
          destruct (forEach body items n w1) as [[err | n'] w3]
      end;
        cbn [fst snd ret] in *; eapply present_extends; eauto.
  - step_extends_tac boughtPackageStep.
Qed.

(** X9. For services, bought packages, charges, payments, Payme
    transactions, balance bindings, credit updates and bank-payment errors:
    once a pass over some documents went through without an error, a later
    pass over the same documents, on a destination that still holds at least
    the rows that pass left and whose queries do not fail, counts every
    document as skipped, none as moved, and leaves every table as it is. *)
Theorem second_pass_skips_all (Parse : string -> string -> error + Time) :
  rerunSkipsAll serviceStep (fun st => (fst st, incr (snd st))) /\
  rerunSkipsAll boughtPackageStep
                (fun st => (fst (fst st), incr (snd (fst st)), snd st)) /\
  rerunSkipsAll (chargeStep Parse) (fun st => (fst st, incr (snd st))) /\
  rerunSkipsAll paymentStep (fun st => (fst st, incr (snd st))) /\
  rerunSkipsAll paymeTransactionStep (fun st => (fst st, incr (snd st))) /\
  rerunSkipsAll organizationBalanceBindingStep (fun st => (fst st, incr (snd st))) /\
  rerunSkipsAll creditUpdateStep (fun st => (fst st, incr (snd st))) /\
  rerunSkipsAll bankPaymentAutoApplyErrorStep (fun st => (fst st, incr (snd st))).
Proof.
  split; [exact second_pass_services |].
  split; [exact second_pass_boughtPackages |].
  split; [exact (second_pass_charges Parse) |].
  split; [exact second_pass_payments |].
  split; [exact second_pass_paymeTransactions |].
  split; [exact second_pass_organizationBalanceBindings |].
  split; [exact second_pass_creditUpdates |].
  exact second_pass_bankPaymentAutoApplyErrors.
Qed.

(** Two passes over the sample service from an empty destination: the
    second one skips it. *)
Lemma second_pass_skips_all_witness :
  fst (forEach serviceStep [inr sampleService] (0, 0)
               (snd (forEach serviceStep [inr sampleService] (0, 0) freshWorld)))
  = inr (0, 1).
Proof.
  destruct (second_pass_skips_all rejectAll) as (H & _).
  destruct (H [sampleService] (0, 0) (1, 0) (0, 0) freshWorld
              (snd (forEach serviceStep [inr sampleService] (0, 0) freshWorld)))
    as [Hr _].
  - reflexivity.
  - apply extends_refl.
  - reflexivity.
  - exact Hr.
Defined.

(** ** Documents that are not stored yet *)

Lemma sameKey_true (a b : option string) :
  sameKey a b = true <-> exists k : string, a = Some k /\ b = Some k.
Proof.
  destruct a as [x |], b as [y |]; simpl; split;
    try discriminate; try (intros (k & H1 & H2); discriminate).
  - intros H. apply String.eqb_eq in H. subst. eauto.
  - intros (k & [= ->] & [= ->]). apply String.eqb_refl.
Qed.

Lemma noFault_next (n : nat) (w w' : World) :
  noFault (S n) w -> faults w' = tl (faults w) -> noFault n w'.
Proof.
  unfold noFault. intros H ->. destruct (faults w) as [| b fs]; simpl in *.
  - now destruct n.
  - now apply andb_true_iff in H as [_ H].
Qed.

Lemma noFault_first (n : nat) (w : World) : noFault (S n) w -> noFault 1 w.
Proof.
  unfold noFault. destruct (faults w) as [| b fs]; simpl; [reflexivity |].
  intros H. apply andb_true_iff in H as [-> _]. reflexivity.
Qed.

(** An insert whose call does not fail, into a table that exists. *)
Lemma Create_noFault (r : Row) (rows : list Row) (w : World) :
  noFault 1 w -> tables w !! TableName r = Some rows ->
  (existsb (conflicts r) rows = true ->
   fst (Create r w) = Some (Driver DuplicateEntry) /\
   tables (snd (Create r w)) = tables w) /\
  (existsb (conflicts r) rows = false ->
   fst (Create r w) = None /\
   tables (snd (Create r w)) = <[TableName r := (rows ++ [r])%list]> (tables w)) /\
  faults (snd (Create r w)) = tl (faults w).
Proof.
  intros Hn Ht. apply fault_false in Hn.
  pose proof (tables_fault w) as Htf. pose proof (faults_fault w) as Hff.
  unfold Create. rewrite bind_run.
  destruct (fault w) as [b w1]; cbn [fst snd] in *. subst b.
  rewrite Htf, Ht.
  destruct (existsb (conflicts r) rows); cbn [fst snd setTables tables faults];
    repeat split; try discriminate; congruence.
Qed.

Lemma checkRecordExists_absent (table id : string) (rows : list Row) (w : World) :
  tables w !! table = Some rows ->
  (forall r : Row, In r rows -> primaryKey r <> Some id) ->
  fst (checkRecordExists table id w) = false.
Proof.
  intros Ht Habs. apply not_true_is_false. intros H.
  apply checkRecordExists_facts in H as [_ (rows' & r & Hr & Hin & Hk)].
  rewrite Ht in Hr. injection Hr as <-. exact (Habs r Hin Hk).
Qed.

(** X10. A service that is not stored yet, when the query and the insert do
    not fail: if no stored service has its code, its row is added at the end
    of the table and [moved] is incremented; if a stored service has the same
    code, the unique index rejects the insert, the migrator returns the
    wrapped duplicate-entry error, and the destination is left as it was. *)
Theorem new_service (s : mongoService.t) (moved skipped : Z) (rows : list Row) (w : World) :
  tables w !! Service.TableName = Some rows ->
  (forall r : Row, In r rows -> primaryKey r <> Some (Hex (mongoService.ID s))) ->
  noFault 2 w ->
  ((forall r : Row, In r rows -> uniqueKey r <> Some (mongoService.Code s)) ->
   fst (serviceStep (inr s) (moved, skipped) w) = inr (incr moved, skipped) /\
   tables (snd (serviceStep (inr s) (moved, skipped) w))
   = <[Service.TableName := (rows ++ [RService (serviceRow s)])%list]> (tables w)) /\
  ((exists r : Row, In r rows /\ uniqueKey r = Some (mongoService.Code s)) ->
   fst (serviceStep (inr s) (moved, skipped) w)
   = inl (Errorf "service %s insert failed: %w" [AStr (Hex (mongoService.ID s))]
                 (Driver DuplicateEntry)) /\
   tables (snd (serviceStep (inr s) (moved, skipped) w)) = tables w).
Proof.
  intros Ht Habs Hn.
  pose proof (checkRecordExists_absent _ _ rows w Ht Habs) as Hc.
  destruct (checkRecordExists_facts Service.TableName (Hex (mongoService.ID s)) w)
    as (_ & Htab & Hf).
  assert (Hn1 : noFault 1 (snd (checkRecordExists Service.TableName
                                  (Hex (mongoService.ID s)) w)))
    by (eapply noFault_next; eauto).
  assert (Ht1 : tables (snd (checkRecordExists Service.TableName
                               (Hex (mongoService.ID s)) w))
                  !! TableName (RService (serviceRow s)) = Some rows)
    by (rewrite Htab; exact Ht).
  destruct (Create_noFault (RService (serviceRow s)) rows _ Hn1 Ht1) as (Hdup & Hnew & _).
  unfold serviceStep. rewrite bind_run, Hc. cbn iota. rewrite bind_run.
  split.
  - intros Hcode.
    assert (Hex : existsb (conflicts (RService (serviceRow s))) rows = false).
    { apply not_true_is_false. intros H. apply existsb_exists in H as (x & Hin & Hx).
      unfold conflicts in Hx. apply orb_true_iff in Hx as [Hx | Hx];
        apply sameKey_true in Hx as (k & Hk1 & Hk2).
      - apply (Habs x Hin). simpl in Hk1. congruence.
      - apply (Hcode x Hin). simpl in Hk1. congruence. }
    destruct (Hnew Hex) as [Hr Htabs]. rewrite Hr. cbn [fst snd ret].
    split; [reflexivity |]. rewrite Htabs, Htab. reflexivity.
  - intros (x & Hin & Hx).
    assert (Hex : existsb (conflicts (RService (serviceRow s))) rows = true).
    { apply existsb_exists. exists x. split; [exact Hin |].
      unfold conflicts. apply orb_true_iff. right. apply sameKey_true.
      exists (mongoService.Code s). split; [reflexivity | exact Hx]. }
    destruct (Hdup Hex) as [Hr Htabs]. rewrite Hr. cbn iota.
    rewrite bind_run. cbn [fst snd ret].
    split; [reflexivity |]. rewrite tables_Printf, Htabs, Htab. reflexivity.
Qed.

Lemma new_service_witness :
  fst (serviceStep (inr sampleService) (0, 0) freshWorld) = inr (1, 0) /\
  tables (snd (serviceStep (inr sampleService) (0, 0) freshWorld))
  = <[Service.TableName := [RService (serviceRow sampleService)]]> (tables freshWorld).
Proof.
  destruct (new_service sampleService 0 0 [] freshWorld) as [H _].
  - reflexivity.
  - intros r [].
  - reflexivity.
  - apply H. intros r [].
Defined.

(** ** Children on a first pass *)

(** An insert that tolerates conflicts, whose call does not fail, into a
    table that exists. *)
Lemma CreateOnConflictDoNothing_spec (r : Row) (rows : list Row) (w : World) :
  noFault 1 w -> tables w !! TableName r = Some rows ->
  fst (CreateOnConflictDoNothing r w) = None /\
  tables (snd (CreateOnConflictDoNothing r w))
  = (if existsb (conflicts r) rows then tables w
     else <[TableName r := (rows ++ [r])%list]> (tables w)) /\
  faults (snd (CreateOnConflictDoNothing r w)) = tl (faults w).
Proof.
  intros Hn Ht. apply fault_false in Hn.
  pose proof (tables_fault w) as Htf. pose proof (faults_fault w) as Hff.
  unfold CreateOnConflictDoNothing. rewrite bind_run.
  destruct (fault w) as [b w1]; cbn [fst snd] in *. subst b.
  rewrite Htf, Ht.
  destruct (existsb (conflicts r) rows); cbn [fst snd setTables tables faults];
    repeat split; congruence.
Qed.

Lemma keyless_never_conflicts (r : Row) (rows : list Row) :
  primaryKey r = None -> uniqueKey r = None -> existsb (conflicts r) rows = false.
Proof.
  intros Hp Hu. induction rows as [| x rows IH]; [reflexivity |].
  simpl. rewrite IH. unfold conflicts. now rewrite Hp, Hu.
Qed.

Lemma demoUses_appended (o : mongoOrganization.t) (uses : list ServiceRef.t) :
  forall (k : nat) (n : Z) (rows : list Row) (w : World),
    noFault (length uses + k) w ->
    tables w !! OrganizationServiceDemoUses.TableName = Some rows ->
    fst (forEach (demoUseStep o) uses n w) = inr (Nat.iter (length uses) incr n) /\
    tables (snd (forEach (demoUseStep o) uses n w))
    = <[OrganizationServiceDemoUses.TableName :=
          (rows ++ map (fun s => ROrganizationServiceDemoUses (demoUseRow o s)) uses)%list]>
        (tables w) /\
    noFault k (snd (forEach (demoUseStep o) uses n w)).
Proof.
  induction uses as [| s uses IH]; intros k n rows w Hn Ht; cbn [forEach length map].
  - cbn [fst snd ret Nat.iter]. rewrite app_nil_r, insert_id by exact Ht. auto.
  - simpl in Hn.
    destruct (CreateOnConflictDoNothing_spec
                (ROrganizationServiceDemoUses (demoUseRow o s)) rows w
                (noFault_first _ _ Hn) Ht) as (Hr & Htab & Hf).
    rewrite (keyless_never_conflicts (ROrganizationServiceDemoUses (demoUseRow o s)) rows
               eq_refl eq_refl) in Htab.
    assert (Hstep : demoUseStep o s n w
                    = (inr (incr n),
                       snd (CreateOnConflictDoNothing
                              (ROrganizationServiceDemoUses (demoUseRow o s)) w))).
    { unfold demoUseStep. rewrite bind_run, Hr. reflexivity. }
    rewrite bind_run, Hstep. cbn [fst snd].
    destruct (IH k (incr n) (rows ++ [ROrganizationServiceDemoUses (demoUseRow o s)])%list
                 (snd (CreateOnConflictDoNothing
                         (ROrganizationServiceDemoUses (demoUseRow o s)) w)))
      as (Hr' & Htab' & Hn').
    + eapply noFault_next; eauto.
    + rewrite Htab. apply lookup_insert_eq.
    + rewrite Hr', Htab', Htab, insert_insert_eq, <- app_assoc.
      split; [f_equal; symmetry; apply Nat.iter_succ_r |]. split; [reflexivity | exact Hn'].
Qed.

(** X11. An organization that is not stored yet and carries N demo uses,
    when none of the N + 2 calls fails: its row is added at the end of
    [organizations], and exactly N rows, one per demo use and in their
    order, are added at the end of [organization_service_demo_uses],
    whatever that table holds already; [moved] is incremented once and the
    demo-use counter N times. *)
Theorem new_organization (o : mongoOrganization.t) (moved skipped demoUsesMoved : Z)
    (orgs demos : list Row) (w : World) :
  tables w !! Organization.TableName = Some orgs ->
  tables w !! OrganizationServiceDemoUses.TableName = Some demos ->
  (forall r : Row, In r orgs -> primaryKey r <> Some (Hex (mongoOrganization.ID o))) ->
  noFault (length (mongoOrganization.ServiceDemoUses o) + 2) w ->
  fst (organizationStep (inr o) (moved, skipped, demoUsesMoved) w)
  = inr (incr moved, skipped,
         Nat.iter (length (mongoOrganization.ServiceDemoUses o)) incr demoUsesMoved) /\
  tables (snd (organizationStep (inr o) (moved, skipped, demoUsesMoved) w))
  = <[OrganizationServiceDemoUses.TableName :=
        (demos ++ map (fun s => ROrganizationServiceDemoUses (demoUseRow o s))
                      (mongoOrganization.ServiceDemoUses o))%list]>
      (<[Organization.TableName := (orgs ++ [ROrganization (organizationRow o)])%list]>
         (tables w)).
Proof.
  intros Ho Hd Habs Hn.
  rewrite Nat.add_comm in Hn. cbn [Nat.add] in Hn.
  pose proof (checkRecordExists_absent _ _ orgs w Ho Habs) as Hc.
  destruct (checkRecordExists_facts Organization.TableName (Hex (mongoOrganization.ID o)) w)
    as (_ & Htab & Hf).
  set (w1 := snd (checkRecordExists Organization.TableName
                    (Hex (mongoOrganization.ID o)) w)) in *.
  assert (Hn1 : noFault (S (length (mongoOrganization.ServiceDemoUses o))) w1)
    by (eapply noFault_next; eauto).
  assert (Ht1 : tables w1 !! TableName (ROrganization (organizationRow o)) = Some orgs)
    by (rewrite Htab; exact Ho).
  destruct (Create_noFault (ROrganization (organizationRow o)) orgs w1
              (noFault_first _ _ Hn1) Ht1) as (_ & Hnew & Hf1).
  assert (Hex : existsb (conflicts (ROrganization (organizationRow o))) orgs = false).
  { apply not_true_is_false. intros H. apply existsb_exists in H as (x & Hin & Hx).
    unfold conflicts in Hx. apply orb_true_iff in Hx as [Hx | Hx];
      apply sameKey_true in Hx as (k & Hk1 & Hk2); [| discriminate].
    apply (Habs x Hin). simpl in Hk1. congruence. }
  destruct (Hnew Hex) as [Hr Htabs].
  set (w2 := snd (Create (ROrganization (organizationRow o)) w1)) in *.
  destruct (demoUses_appended o (mongoOrganization.ServiceDemoUses o) 0 demoUsesMoved
              demos w2) as (Hres & Htab2 & _).
  { rewrite Nat.add_0_r. eapply noFault_next; eauto. }
  { rewrite Htabs, lookup_insert_ne by discriminate. rewrite Htab. exact Hd. }
  unfold organizationStep. rewrite bind_run. fold w1. rewrite Hc. cbn iota.
  rewrite bind_run. fold w2. rewrite Hr. cbn iota. rewrite bind_run, Hres.
  cbn [fst snd ret]. split; [reflexivity |].
  rewrite Htab2, Htabs, Htab. reflexivity.
Qed.

Lemma new_organization_witness :
  fst (organizationStep (inr sampleOrganization) (0, 0, 0) freshWorld) = inr (1, 0, 1).
Proof.
  destruct (new_organization sampleOrganization 0 0 0 [] [] freshWorld) as [H _].
  - reflexivity.
  - reflexivity.
  - intros r [].
  - reflexivity.
  - exact H.
Defined.

Lemma packageItems_ignored (p : mongoPackage.t) (items : list mongoPackageItem.t) :
  forall (k : nat) (n : Z) (rows : list Row) (w : World),
    noFault (length items + k) w ->
    tables w !! PackageItem.TableName = Some rows ->
    (exists r : Row, In r rows /\ primaryKey r = Some "") ->
    fst (forEach (packageItemStep p) items n w) = inr (Nat.iter (length items) incr n) /\
    tables (snd (forEach (packageItemStep p) items n w)) = tables w /\
    noFault k (snd (forEach (packageItemStep p) items n w)).
Proof.
  induction items as [| item items IH]; intros k n rows w Hn Ht Hrow; cbn [forEach length].
  - cbn [fst snd ret Nat.iter]. auto.
  - simpl in Hn.
    destruct (CreateOnConflictDoNothing_spec (RPackageItem (packageItemRow p item)) rows w
                (noFault_first _ _ Hn) Ht) as (Hr & Htab & Hf).
    assert (Hex : existsb (conflicts (RPackageItem (packageItemRow p item))) rows = true).
    { destruct Hrow as (x & Hin & Hx). apply existsb_exists. exists x. split; [exact Hin |].
      unfold conflicts. apply orb_true_iff. left. apply sameKey_true.
      exists "". split; [reflexivity | exact Hx]. }
    rewrite Hex in Htab.
    assert (Hstep : packageItemStep p item n w
                    = (inr (incr n),
                       snd (CreateOnConflictDoNothing
                              (RPackageItem (packageItemRow p item)) w))).
    { unfold packageItemStep. rewrite bind_run, Hr. reflexivity. }
    rewrite bind_run, Hstep. cbn [fst snd].
    destruct (IH k (incr n) rows
                 (snd (CreateOnConflictDoNothing (RPackageItem (packageItemRow p item)) w)))
      as (Hr' & Htab' & Hn').
    + eapply noFault_next; eauto.
    + rewrite Htab. exact Ht.
    + exact Hrow.
    + rewrite Hr', Htab', Htab.
      split; [f_equal; symmetry; apply Nat.iter_succ_r |]. split; [reflexivity | exact Hn'].
Qed.

(** X12. The items of a package written into an empty [package_items], when
    no call fails: the row of the first item is stored and the inserts of
    all the others are ignored, yet the item counter is incremented once per
    item, the ignored ones included. *)
Theorem package_items_first_only (p : mongoPackage.t) (item : mongoPackageItem.t)
    (items : list mongoPackageItem.t) (itemsMoved : Z) (w : World) :
  noFault (S (length items)) w ->
  tables w !! PackageItem.TableName = Some [] ->
  fst (forEach (packageItemStep p) (item :: items) itemsMoved w)
  = inr (Nat.iter (S (length items)) incr itemsMoved) /\
  tables (snd (forEach (packageItemStep p) (item :: items) itemsMoved w))
  = <[PackageItem.TableName := [RPackageItem (packageItemRow p item)]]> (tables w).
Proof.
  intros Hn Ht. cbn [forEach].
  destruct (CreateOnConflictDoNothing_spec (RPackageItem (packageItemRow p item)) [] w
              (noFault_first _ _ Hn) Ht) as (Hr & Htab & Hf).
  cbn [existsb app] in Htab.
  assert (Hstep : packageItemStep p item itemsMoved w
                  = (inr (incr itemsMoved),
                     snd (CreateOnConflictDoNothing
                            (RPackageItem (packageItemRow p item)) w))).
  { unfold packageItemStep. rewrite bind_run, Hr. reflexivity. }
  rewrite bind_run, Hstep. cbn [fst snd].
  destruct (packageItems_ignored p items 0 (incr itemsMoved)
              [RPackageItem (packageItemRow p item)]
              (snd (CreateOnConflictDoNothing (RPackageItem (packageItemRow p item)) w)))
    as (Hr' & Htab' & _).
  - rewrite Nat.add_0_r. eapply noFault_next; eauto.
  - rewrite Htab. apply lookup_insert_eq.
  - exists (RPackageItem (packageItemRow p item)). split; [now left | reflexivity].
  - rewrite Hr', Htab', Htab.
    split; [f_equal; symmetry; apply (Nat.iter_succ_r (length items) incr) | reflexivity].
Qed.

Lemma package_items_first_only_witness :
  fst (forEach (packageItemStep samplePackage) [sampleItem 1; sampleItem 2] 0 freshWorld)
  = inr 2 /\
  tables (snd (forEach (packageItemStep samplePackage) [sampleItem 1; sampleItem 2] 0
                       freshWorld))
  = <[PackageItem.TableName := [RPackageItem (packageItemRow samplePackage (sampleItem 1))]]>
      (tables freshWorld).
Proof.
  destruct (package_items_first_only samplePackage (sampleItem 1) [sampleItem 2] 0 freshWorld)
    as [H1 H2]; [reflexivity | reflexivity |].
  split; [exact H1 | exact H2].
Defined.

(** ** Errors that reach the caller *)

Lemma runMigrations_error (steps : list (string * (MongoDatabase -> M (option error))))
    (mdb : MongoDatabase) :
  forall (w : World) (err : error),
    fst (runMigrations steps mdb w) = Some err ->
    exists (name : string) (fn : MongoDatabase -> M (option error)) (cause : error),
      In (name, fn) steps /\ err = Errorf "migration %s failed: %w" [AStr name] cause.
Proof.
  induction steps as [| [name fn] steps IH]; intros w err; cbn [runMigrations].
  - discriminate.
  - rewrite !bind_run. cbn [fst snd].
    destruct (fst (fn mdb _)) as [cause |]; cbn [fst snd ret].
    + intros [= <-]. exists name, fn, cause. split; [now left | reflexivity].
    + rewrite bind_run. intros H. apply IH in H as (n & f & c & Hin & ->).
      exists n, f, c. split; [now right | reflexivity].
Qed.

(** X13. An error returned by [migrateAll] is never the bare error of a
    step: it is always the error of one of the ten steps wrapped with the
    name of that step.  [main] ends without error exactly when [Migrate] and
    then [migrateAll] do, and an error it ends with is either the one of
    [Migrate] or such a wrapped error. *)
Theorem errors_name_their_step (Parse : string -> string -> error + Time)
    (mdb : MongoDatabase) (w : World) :
  (forall err : error,
      fst (migrateAll Parse mdb w) = Some err ->
      exists (name : string) (cause : error),
        In name (map fst (migrations Parse)) /\
        err = Errorf "migration %s failed: %w" [AStr name] cause /\
        Unwrap err = Some cause) /\
  (fst (main Parse mdb w) = None <->
   fst (Migrate w) = None /\ fst (migrateAll Parse mdb (snd (Migrate w))) = None) /\
  (forall err : error,
      fst (main Parse mdb w) = Some err ->
      fst (Migrate w) = Some err \/
      exists (name : string) (cause : error),
        In name (map fst (migrations Parse)) /\
        err = Errorf "migration %s failed: %w" [AStr name] cause).
Proof.
  assert (Hall : forall (w0 : World) (err : error),
             fst (migrateAll Parse mdb w0) = Some err ->
             exists (name : string) (cause : error),
               In name (map fst (migrations Parse)) /\
               err = Errorf "migration %s failed: %w" [AStr name] cause).
  { intros w0 err H. apply runMigrations_error in H as (name & fn & cause & Hin & ->).
    exists name, cause. split; [| reflexivity].
    apply in_map_iff. exists (name, fn). auto. }
  destruct (main_after_Migrate Parse mdb w) as [Hfail Hok].
  split; [| split].
  - intros err H. destruct (Hall w err H) as (name & cause & Hin & ->). eauto.
  - destruct (fst (Migrate w)) as [e |] eqn:Hm.
    + destruct (Hfail e eq_refl) as [Hr _]. rewrite Hr. split; [discriminate | intros [? _]; discriminate].
    + destruct (Hok eq_refl) as [Hr _]. rewrite Hr. split; [auto | intros [_ ?]; assumption].
  - intros err H. destruct (fst (Migrate w)) as [e |] eqn:Hm.
    + destruct (Hfail e eq_refl) as [Hr _]. left. congruence.
    + destruct (Hok eq_refl) as [Hr _]. right. rewrite Hr in H. exact (Hall _ err H).
Qed.

Lemma errors_name_their_step_witness :
  exists (name : string) (cause : error),
    In name (map fst (migrations rejectAll)) /\
    fst (migrateAll rejectAll unreadableBankErrors freshWorld)
    = Some (Errorf "migration %s failed: %w" [AStr name] cause).
Proof.
  destruct (errors_name_their_step rejectAll unreadableBankErrors freshWorld) as (H & _).
  destruct (H (Errorf "migration %s failed: %w" [AStr "bank-payments-auto-apply-errors"]
                      (Driver Unavailable))) as (name & cause & Hin & Heq & _).
  - vm_compute. reflexivity.
  - exists name, cause. split; [exact Hin |]. rewrite <- Heq. vm_compute. reflexivity.
Defined.

(** ** The counters of a migrator *)

Lemma incr_succ (x : Z) : - 2 ^ 63 <= x < 2 ^ 63 - 1 -> incr x = x + 1.
Proof.
  intros H. unfold incr, wrap64.
  rewrite Z.mod_small; lia.
Qed.

Lemma iter_incr (n : nat) (x : Z) :
  0 <= x -> x + Z.of_nat n < 2 ^ 63 -> Nat.iter n incr x = x + Z.of_nat n.
Proof.
  induction n as [| n IH]; intros Hx Hn.
  - cbn. lia.
  - change (Nat.iter (S n) incr x) with (incr (Nat.iter n incr x)).
    rewrite IH by lia. rewrite incr_succ by lia. lia.
Qed.

Section Counters.

Context {A S : Type}.
Variable step : A -> S -> M (error + S).
Variables moved skipped : S -> Z.

(** An iteration that goes on has incremented exactly one of the two
    counters. *)
Hypothesis counts : forall (a : A) (s s' : S) (w : World),
    fst (step a s w) = inr s' ->
    (moved s' = incr (moved s) /\ skipped s' = skipped s) \/
    (moved s' = moved s /\ skipped s' = incr (skipped s)).

Lemma forEach_counts (docs : list A) :
  forall (s s' : S) (w : World),
    0 <= moved s -> 0 <= skipped s ->
    moved s + skipped s + Z.of_nat (length docs) < 2 ^ 63 ->
    fst (forEach step docs s w) = inr s' ->
    moved s <= moved s' /\ skipped s <= skipped s' /\
    moved s' + skipped s' = moved s + skipped s + Z.of_nat (length docs).
Proof.
  induction docs as [| a docs IH]; intros s s' w Hm Hs Hlen; cbn [forEach length].
  - cbn. intros [= <-]. lia.
  - rewrite bind_run. cbn [length] in Hlen. rewrite Nat2Z.inj_succ in *.
    destruct (fst (step a s w)) as [err | s1] eqn:Hstep.
    + cbn. discriminate.
    + intros Hrest. apply counts in Hstep.
      assert (Hone : moved s1 = moved s + 1 /\ skipped s1 = skipped s \/
                     moved s1 = moved s /\ skipped s1 = skipped s + 1).
      { destruct Hstep as [[H1 H2] | [H1 H2]]; [left | right];
          rewrite H1, H2; rewrite incr_succ by lia; lia. }
      apply IH in Hrest; lia.
Qed.

End Counters.

Ltac counts_tac step :=
  intros a s s' w; unfold step;
  repeat match goal with
         | x : (_ * _)%type |- _ => destruct x
         end;
  destruct a; cbn [fst snd];
  repeat (first [ rewrite bind_run
                | progress cbn [fst snd ret]
                | match goal with
                  | |- context [match ?x with _ => _ end] => destruct x eqn:?
                  end ]);
  intros [= <-]; cbn [fst snd]; auto.

Lemma counts_service :
  forall a s s' w, fst (serviceStep a s w) = inr s' ->
    (fst s' = incr (fst s) /\ snd s' = snd s) \/ (fst s' = fst s /\ snd s' = incr (snd s)).
Proof. counts_tac serviceStep. Qed.

Lemma counts_organization :
  forall a s s' w, fst (organizationStep a s w) = inr s' ->
    (fst (fst s') = incr (fst (fst s)) /\ snd (fst s') = snd (fst s)) \/
    (fst (fst s') = fst (fst s) /\ snd (fst s') = incr (snd (fst s))).
Proof. counts_tac organizationStep. Qed.

Lemma counts_package :
  forall a s s' w, fst (packageStep a s w) = inr s' ->
    (fst (fst (fst s')) = incr (fst (fst (fst s))) /\
     snd (fst (fst s')) = snd (fst (fst s))) \/
    (fst (fst (fst s')) = fst (fst (fst s)) /\
     snd (fst (fst s')) = incr (snd (fst (fst s)))).
Proof. counts_tac packageStep. Qed.

Lemma counts_boughtPackage :
  forall a s s' w, fst (boughtPackageStep a s w) = inr s' ->
    (fst (fst s') = incr (fst (fst s)) /\ snd (fst s') = snd (fst s)) \/
    (fst (fst s') = fst (fst s) /\ snd (fst s') = incr (snd (fst s))).
Proof. counts_tac boughtPackageStep. Qed.

Lemma counts_charge (Parse : string -> string -> error + Time) :
  forall a s s' w, fst (chargeStep Parse a s w) = inr s' ->
    (fst s' = incr (fst s) /\ snd s' = snd s) \/ (fst s' = fst s /\ snd s' = incr (snd s)).
Proof. counts_tac chargeStep. Qed.

Lemma counts_payment :
  forall a s s' w, fst (paymentStep a s w) = inr s' ->
    (fst s' = incr (fst s) /\ snd s' = snd s) \/ (fst s' = fst s /\ snd s' = incr (snd s)).
Proof. counts_tac paymentStep. Qed.

Lemma counts_paymeTransaction :
  forall a s s' w, fst (paymeTransactionStep a s w) = inr s' ->
    (fst s' = incr (fst s) /\ snd s' = snd s) \/ (fst s' = fst s /\ snd s' = incr (snd s)).
Proof. counts_tac paymeTransactionStep. Qed.

Lemma counts_organizationBalanceBinding :
  forall a s s' w, fst (organizationBalanceBindingStep a s w) = inr s' ->
    (fst s' = incr (fst s) /\ snd s' = snd s) \/ (fst s' = fst s /\ snd s' = incr (snd s)).
Proof. counts_tac organizationBalanceBindingStep. Qed.

Lemma counts_creditUpdate :
  forall a s s' w, fst (creditUpdateStep a s w) = inr s' ->
    (fst s' = incr (fst s) /\ snd s' = snd s) \/ (fst s' = fst s /\ snd s' = incr (snd s)).
Proof. counts_tac creditUpdateStep. Qed.

Lemma counts_bankPaymentAutoApplyError :
  forall a s s' w, fst (bankPaymentAutoApplyErrorStep a s w) = inr s' ->
    (fst s' = incr (fst s) /\ snd s' = snd s) \/ (fst s' = fst s /\ snd s' = incr (snd s)).
Proof. counts_tac bankPaymentAutoApplyErrorStep. Qed.

Lemma forEach_countsEvery {A S : Type} (step : A -> S -> M (error + S))
    (moved skipped : S -> Z) (init : S) :
  moved init = 0 -> skipped init = 0 ->
  (forall (a : A) (s s' : S) (w : World),
      fst (step a s w) = inr s' ->
      (moved s' = incr (moved s) /\ skipped s' = skipped s) \/
      (moved s' = moved s /\ skipped s' = incr (skipped s))) ->
  countsEvery step moved skipped init.
Proof.
  intros Hm Hs Hc docs s' w Hlen Hrun.
  apply (forEach_counts step moved skipped Hc) in Hrun; lia.
Qed.

(** X14. In each of the ten loops over a source collection that runs to its
    end, every document is counted exactly once: the moved and the skipped
    counter are not negative and add up to the number of documents read
    (fewer than 2^63). *)
Theorem every_document_counted (Parse : string -> string -> error + Time) :
  countsEvery serviceStep fst snd (0, 0) /\
  countsEvery organizationStep (fun s => fst (fst s)) (fun s => snd (fst s)) (0, 0, 0) /\
  countsEvery packageStep (fun s => fst (fst (fst s))) (fun s => snd (fst (fst s)))
              (0, 0, 0, 0) /\
  countsEvery boughtPackageStep (fun s => fst (fst s)) (fun s => snd (fst s)) (0, 0, 0) /\
  countsEvery (chargeStep Parse) fst snd (0, 0) /\
  countsEvery paymentStep fst snd (0, 0) /\
  countsEvery paymeTransactionStep fst snd (0, 0) /\
  countsEvery organizationBalanceBindingStep fst snd (0, 0) /\
  countsEvery creditUpdateStep fst snd (0, 0) /\
  countsEvery bankPaymentAutoApplyErrorStep fst snd (0, 0).
Proof.
  repeat apply conj; apply forEach_countsEvery; try reflexivity.
  - apply counts_service.
  - apply counts_organization.
  - apply counts_package.
  - apply counts_boughtPackage.
  - apply counts_charge.
  - apply counts_payment.
  - apply counts_paymeTransaction.
  - apply counts_organizationBalanceBinding.
  - apply counts_creditUpdate.
  - apply counts_bankPaymentAutoApplyError.
Qed.

Lemma every_document_counted_witness :
  Z.of_nat (length [@inr error _ sampleService; inr sampleService]) < 2 ^ 63 /\
  fst (forEach serviceStep [inr sampleService; inr sampleService] (0, 0) freshWorld)
  = inr (1, 1) /\
  (0 <= fst (1, 1) /\ 0 <= snd (1, 1) /\
   fst (1, 1) + snd (1, 1) = Z.of_nat (length [@inr error _ sampleService; inr sampleService])).
Proof.
  split; [vm_compute; reflexivity |].
  split; [vm_compute; reflexivity |].
  destruct (every_document_counted rejectAll) as [H _].
  apply (H [inr sampleService; inr sampleService] (1, 1) freshWorld);
    vm_compute; reflexivity.
Defined.

(** ** A parent whose insert fails *)

Lemma Create_failed (r : Row) (w : World) (err : error) :
  fst (Create r w) = Some err -> tables (snd (Create r w)) = tables w.
Proof.
  unfold Create. rewrite bind_run. pose proof (tables_fault w) as Ht.
  destruct (fst (fault w)); cbn [fst snd ret]; [intros _; exact Ht |].
  destruct (tables (snd (fault w)) !! TableName r) as [rows |]; [| intros _; exact Ht].
  destruct (existsb (conflicts r) rows); [intros _; exact Ht | discriminate].
Qed.

Ltac child_error body :=
  intros a n w err; unfold body;
  repeat (first [ rewrite bind_run
                | progress cbn [fst snd ret]
                | match goal with
                  | |- context [match ?x with _ => _ end] => destruct x eqn:?
                  end ]);
  [intros [= <-]; eauto | discriminate].

Lemma demoUseStep_error (o : mongoOrganization.t) :
  forall a n w err, fst (demoUseStep o a n w) = inl err ->
    exists args cause, err = Errorf "org %s service_demo_use %s insert failed: %w" args cause.
Proof. child_error demoUseStep. Qed.

Lemma boughtPackageItemStep_error (bp : mongoBoughtPackage.t) :
  forall a n w err, fst (boughtPackageItemStep bp a n w) = inl err ->
    exists args cause, err = Errorf "bought-package-item %s insert failed: %w" args cause.
Proof. child_error boughtPackageItemStep. Qed.

(** X15. When the step of an organization, a package or a bought package
    returns the error of the failed insert of the parent row, the destination
    tables are as they were before the step: no child row of that document
    has been written.  The error carries the identifier of the document. *)
Theorem failed_parent_insert_writes_nothing :
  (forall (o : mongoOrganization.t) (st : Z * Z * Z) (w : World)
          (args : list Arg) (cause : error),
      fst (organizationStep (inr o) st w)
      = inl (Errorf "organization %s insert failed: %w" args cause) ->
      tables (snd (organizationStep (inr o) st w)) = tables w /\
      args = [AStr (Hex (mongoOrganization.ID o))]) /\
  (forall (p : mongoPackage.t) (st : Z * Z * Z * Z) (w : World)
          (args : list Arg) (cause : error),
      fst (packageStep (inr p) st w)
      = inl (Errorf "package %s insert failed: %w" args cause) ->
      tables (snd (packageStep (inr p) st w)) = tables w /\
      args = [AStr (Hex (mongoPackage.ID p))]) /\
  (forall (bp : mongoBoughtPackage.t) (st : Z * Z * Z) (w : World)
          (args : list Arg) (cause : error),
      fst (boughtPackageStep (inr bp) st w)
      = inl (Errorf "bought-package %s insert failed: %w" args cause) ->
      tables (snd (boughtPackageStep (inr bp) st w)) = tables w /\
      args = [AStr (Hex (mongoBoughtPackage.ID bp))]).
Proof.
  split; [| split].
  - intros o [[moved skipped] demo] w args cause. unfold organizationStep.
    rewrite bind_run.
    pose proof (tables_checkRecordExists Organization.TableName
                  (Hex (mongoOrganization.ID o)) w) as Hc.
    destruct (fst (checkRecordExists _ _ w)).
    + rewrite bind_run.
      destruct (fst (forEach (demoUseStep o) _ _ _)) as [e | n] eqn:Hd;
        cbn [fst snd ret]; [| discriminate].
      destruct (forEach_error _ _ (demoUseStep_error o) _ _ _ _ Hd) as (a & c & ->).
      discriminate.
    + rewrite bind_run.
      destruct (fst (Create _ _)) as [e |] eqn:He.
      * rewrite bind_run. cbn [fst snd ret]. intros [= <- <-].
        rewrite tables_Printf, (Create_failed _ _ _ He), Hc. auto.
      * rewrite bind_run.
        destruct (fst (forEach (demoUseStep o) _ _ _)) as [e | n] eqn:Hd;
          cbn [fst snd ret]; [| discriminate].
        destruct (forEach_error _ _ (demoUseStep_error o) _ _ _ _ Hd) as (a & c & ->).
        discriminate.
  - intros p [[[moved skipped] items] bonus] w args cause. unfold packageStep.
    rewrite bind_run.
    pose proof (tables_checkRecordExists Package.TableName (Hex (mongoPackage.ID p)) w) as Hc.
    destruct (fst (checkRecordExists _ _ w)).
    + rewrite bind_run.
      destruct (fst (packageChildren p _ _ _)) as [e | [n m]] eqn:Hd;
        cbn [fst snd ret]; [| discriminate].
      destruct (packageChildren_error _ _ _ _ _ Hd) as (a & c & [-> | ->]); discriminate.
    + rewrite bind_run.
      destruct (fst (Create _ _)) as [e |] eqn:He.
      * rewrite bind_run. cbn [fst snd ret]. intros [= <- <-].
        rewrite tables_Printf, (Create_failed _ _ _ He), Hc. auto.
      * rewrite bind_run.
        destruct (fst (packageChildren p _ _ _)) as [e | [n m]] eqn:Hd;
          cbn [fst snd ret]; [| discriminate].
        destruct (packageChildren_error _ _ _ _ _ Hd) as (a & c & [-> | ->]); discriminate.
  - intros bp [[moved skipped] items] w args cause. unfold boughtPackageStep.
    rewrite bind_run.
    pose proof (tables_checkRecordExists BoughtPackage.TableName
                  (Hex (mongoBoughtPackage.ID bp)) w) as Hc.
    destruct (fst (checkRecordExists _ _ w)).
    + cbn [fst snd ret]. discriminate.
    + rewrite bind_run.
      destruct (fst (Create _ _)) as [e |] eqn:He.
      * rewrite bind_run. cbn [fst snd ret]. intros [= <- <-].
        rewrite tables_Printf, (Create_failed _ _ _ He), Hc. auto.
      * rewrite bind_run.
        destruct (fst (forEach (boughtPackageItemStep bp) _ _ _)) as [e | n] eqn:Hd;
          cbn [fst snd ret]; [| discriminate].
        destruct (forEach_error _ _ (boughtPackageItemStep_error bp) _ _ _ _ Hd)
          as (a & c & ->).
        discriminate.
Qed.

Lemma failed_parent_insert_writes_nothing_witness :
  fst (organizationStep (inr sampleOrganization) (0, 0, 0)
         (setFaults [false; true] freshWorld))
  = inl (Errorf "organization %s insert failed: %w"
                [AStr (Hex (mongoOrganization.ID sampleOrganization))] (Driver Unavailable)) /\
  tables (snd (organizationStep (inr sampleOrganization) (0, 0, 0)
                 (setFaults [false; true] freshWorld)))
  = tables (setFaults [false; true] freshWorld).
Proof.
  assert (H : fst (organizationStep (inr sampleOrganization) (0, 0, 0)
                     (setFaults [false; true] freshWorld))
              = inl (Errorf "organization %s insert failed: %w"
                       [AStr (Hex (mongoOrganization.ID sampleOrganization))]
                       (Driver Unavailable)))
    by (vm_compute; reflexivity).
  split; [exact H |].
  destruct failed_parent_insert_writes_nothing as (Horg & _).
  exact (proj1 (Horg sampleOrganization (0, 0, 0) (setFaults [false; true] freshWorld) _ _ H)).
Defined.

(** ** The items of a bought package *)

Lemma Create_success (r : Row) (w : World) :
  fst (Create r w) = None ->
  exists rows : list Row,
    tables w !! TableName r = Some rows /\
    existsb (conflicts r) rows = false /\
    tables (snd (Create r w)) = <[TableName r := (rows ++ [r])%list]> (tables w) /\
    minted (snd (Create r w)) = minted w /\
    objectIDs (snd (Create r w)) = objectIDs w.
Proof.
  unfold Create. rewrite bind_run.
  assert (Hf : tables (snd (fault w)) = tables w /\ minted (snd (fault w)) = minted w /\
               objectIDs (snd (fault w)) = objectIDs w).
  { unfold fault. destruct (faults w); cbn; auto. }
  destruct Hf as (Ht & Hm & Ho).
  destruct (fst (fault w)); cbn [fst snd ret]; [discriminate |].
  cbn beta. rewrite Ht.
  destruct (tables w !! TableName r) as [rows |]; [| discriminate].
  destruct (existsb (conflicts r) rows) eqn:Hc; [discriminate |].
  intros _. exists rows. cbn [fst snd setTables tables minted objectIDs].
  auto.
Qed.

Lemma boughtPackageItemStep_run (bp : mongoBoughtPackage.t) (item : BoughtItem.t)
    (n : Z) (w : World) :
  let r := RBoughtPackageItem (boughtPackageItemRow (Hex (objectIDs w (minted w))) bp item) in
  match fst (Create r (snd (NewObjectID w))) with
  | Some _ => exists err : error, fst (boughtPackageItemStep bp item n w) = inl err
  | None => boughtPackageItemStep bp item n w
            = (inr (incr n), snd (Create r (snd (NewObjectID w))))
  end.
Proof.
  intros r. unfold boughtPackageItemStep. rewrite !bind_run.
  change (fst (NewObjectID w)) with (objectIDs w (minted w)). fold r.
  destruct (Create r (snd (NewObjectID w))) as [[e |] w2]; cbn [fst snd ret]; eauto.
Qed.

(** X16. When the loop over the items of a bought package runs to its end,
    one identifier has been minted per item and the rows appended to
    [bought_package_items] are those of the items, in order, the i-th under
    the i-th identifier minted since the loop began; the counter has been
    incremented once per item. *)
Theorem bought_items_minted_ids (bp : mongoBoughtPackage.t) (items : list BoughtItem.t) :
  forall (itemsMoved itemsMoved' : Z) (w : World) (rows : list Row),
    tables w !! BoughtPackageItem.TableName = Some rows ->
    fst (forEach (boughtPackageItemStep bp) items itemsMoved w) = inr itemsMoved' ->
    itemsMoved' = Nat.iter (length items) incr itemsMoved /\
    minted (snd (forEach (boughtPackageItemStep bp) items itemsMoved w))
    = (minted w + length items)%nat /\
    tables (snd (forEach (boughtPackageItemStep bp) items itemsMoved w))
    = <[BoughtPackageItem.TableName :=
          (rows ++ imap (fun i item =>
                           RBoughtPackageItem
                             (boughtPackageItemRow (Hex (objectIDs w (minted w + i)%nat))
                                                   bp item)) items)%list]> (tables w).
Proof.
  induction items as [| item items IH]; intros n n' w rows Hrows; cbn [forEach length].
  - cbn [fst snd ret imap Nat.iter]. intros [= <-].
    rewrite app_nil_r, insert_id by exact Hrows. split; [reflexivity |]. split; [lia | reflexivity].
  - rewrite bind_run. pose proof (boughtPackageItemStep_run bp item n w) as Hstep.
    cbn zeta in Hstep.
    set (w1 := snd (NewObjectID w)) in *.
    set (r := RBoughtPackageItem (boughtPackageItemRow (Hex (objectIDs w (minted w))) bp item))
      in *.
    destruct (fst (Create r w1)) as [e |] eqn:He.
    + destruct Hstep as [err ->]. cbn [fst snd ret]. discriminate.
    + rewrite Hstep. cbn [fst snd].
      destruct (Create_success r w1 He) as (rows1 & Hr1 & _ & Ht & Hm & Ho).
      change (tables w1 !! TableName r) with (tables w !! BoughtPackageItem.TableName) in Hr1.
      rewrite Hrows in Hr1. injection Hr1 as <-.
      change (tables w1) with (tables w) in Ht.
      change (minted w1) with (S (minted w)) in Hm.
      change (objectIDs w1) with (objectIDs w) in Ho.
      change (TableName r) with BoughtPackageItem.TableName in Ht.
      intros Hrun.
      assert (Hrows2 : tables (snd (Create r w1)) !! BoughtPackageItem.TableName
                       = Some (rows ++ [r])%list)
        by (rewrite Ht; apply lookup_insert_eq).
      destruct (IH _ _ _ _ Hrows2 Hrun) as (Hn & Hmint & Htab).
      split; [rewrite Hn; symmetry; apply Nat.iter_succ_r |].
      split; [rewrite Hmint, Hm; lia |].
      rewrite Htab, Ht, insert_insert_eq, Ho, Hm. f_equal.
      rewrite <- app_assoc. cbn [app imap]. f_equal.
      replace (minted w + 0)%nat with (minted w) by lia. fold r. f_equal.
      apply imap_ext. intros i x _. cbn.
      replace (minted w + S i)%nat with (S (minted w + i)) by lia. reflexivity.
Qed.

Lemma bought_items_minted_ids_witness :
  tables (snd (forEach (boughtPackageItemStep sampleBoughtPackage)
                 [sampleBoughtItem 1; sampleBoughtItem 2] 0 freshWorld))
  !! BoughtPackageItem.TableName
  = Some [RBoughtPackageItem
            (boughtPackageItemRow (Hex (sampleID Byte.x00)) sampleBoughtPackage
                                  (sampleBoughtItem 1));
          RBoughtPackageItem
            (boughtPackageItemRow (Hex (sampleID Byte.x01)) sampleBoughtPackage
                                  (sampleBoughtItem 2))] /\
  minted (snd (forEach (boughtPackageItemStep sampleBoughtPackage)
                 [sampleBoughtItem 1; sampleBoughtItem 2] 0 freshWorld)) = 2%nat.
Proof.
  destruct (bought_items_minted_ids sampleBoughtPackage
              [sampleBoughtItem 1; sampleBoughtItem 2] 0 2 freshWorld [])
    as (_ & Hm & Ht); [vm_compute; reflexivity | vm_compute; reflexivity |].
  split; [| exact Hm].
  rewrite Ht. rewrite lookup_insert_eq. reflexivity.
Defined.

(** ** The second date of a charge *)

Lemma validated_Some (p : option Time) (t : Time) :
  validated p = Some t -> p = Some t /\ validateDateTime t = Some t.
Proof.
  destruct p as [v |]; cbn [validated]; [| discriminate].
  intros H. pose proof (validateDateTime_unchanged v t H) as ->. auto.
Qed.

(** X17. The second date of a stored charge comes from nowhere but the
    [end_date] of an empowerment or of an attorney: it is set only when the
    charge is classified as one of the two (type 11 or 4), to the [end_date]
    of that document, which is then a timestamp the sanitizer accepts; every
    other charge is stored without a second date. *)
Theorem charge_second_date (Parse : string -> string -> error + Time) (c : mongoCharge.t) :
  (forall t : Time,
      Charge.Date2 (chargeRow Parse c) = Some t ->
      exists m : Document,
        (Charge.Type_ (chargeRow Parse c) = 11 /\ mongoCharge.RoamingEmpowerment c = Some m \/
         Charge.Type_ (chargeRow Parse c) = 4 /\ mongoCharge.EDIAttorney c = Some m) /\
        assertTime m "end_date" = Some t /\
        validateDateTime t = Some t) /\
  (Charge.Type_ (chargeRow Parse c) <> 11 ->
   Charge.Type_ (chargeRow Parse c) <> 4 ->
   Charge.Date2 (chargeRow Parse c) = None).
Proof.
  unfold chargeRow. cbn [Charge.Date2 Charge.Type_]. unfold resolveCharge.
  destruct (mongoCharge.RoamingInvoice c) as [m |];
    [cbn [date2 chargeType validated]; split; [discriminate | reflexivity] |].
  destruct (mongoCharge.RoamingContract c) as [m |];
    [cbn [date2 chargeType validated]; split; [discriminate | reflexivity] |].
  destruct (mongoCharge.RoamingWaybill c) as [m |];
    [cbn [date2 chargeType validated]; split; [discriminate | reflexivity] |].
  destruct (mongoCharge.RoamingAct c) as [m |];
    [cbn [date2 chargeType validated]; split; [discriminate | reflexivity] |].
  destruct (mongoCharge.RoamingVerificationAct c) as [m |];
    [cbn [date2 chargeType validated]; split; [discriminate | reflexivity] |].
  destruct (mongoCharge.RoamingEmpowerment c) as [m |].
  { cbn [date2 chargeType]. split; [| congruence].
    intros t H. apply validated_Some in H as [H1 H2]. exists m. auto. }
  destruct (mongoCharge.EDIReturnInvoice c) as [m |];
    [cbn [date2 chargeType validated]; split; [discriminate | reflexivity] |].
  destruct (mongoCharge.EDIAttorney c) as [m |].
  { cbn [date2 chargeType]. split; [| congruence].
    intros t H. apply validated_Some in H as [H1 H2]. exists m. auto. }
  cbn [date2 chargeType validated]. split; [discriminate | reflexivity].
Qed.

Lemma charge_second_date_witness :
  Charge.Date2 (chargeRow rejectAll attorneyCharge) = Some (Unix 1704067200 0) /\
  (exists m : Document,
      (Charge.Type_ (chargeRow rejectAll attorneyCharge) = 11 /\
       mongoCharge.RoamingEmpowerment attorneyCharge = Some m \/
       Charge.Type_ (chargeRow rejectAll attorneyCharge) = 4 /\
       mongoCharge.EDIAttorney attorneyCharge = Some m) /\
      assertTime m "end_date" = Some (Unix 1704067200 0) /\
      validateDateTime (Unix 1704067200 0) = Some (Unix 1704067200 0)).
Proof.
  assert (H : Charge.Date2 (chargeRow rejectAll attorneyCharge) = Some (Unix 1704067200 0))
    by (vm_compute; reflexivity).
  split; [exact H |].
  exact (proj1 (charge_second_date rejectAll attorneyCharge) _ H).
Defined.

(** ** An empty source *)

Ltac quiet_tac migrate H :=
  let w0 := fresh "w" in unfold quiet; intros w0; unfold migrate; rewrite H; cbn [forEach mongoCount length];
  repeat (rewrite bind_run; cbn [fst snd ret]);
  split; [reflexivity |];
  repeat (rewrite tables_Printf || rewrite tables_mysqlCount); reflexivity.

Lemma quiet_runMigrations (steps : list (string * (MongoDatabase -> M (option error))))
    (mdb : MongoDatabase) :
  Forall (fun step => quiet (snd step mdb)) steps -> quiet (runMigrations steps mdb).
Proof.
  induction 1 as [| [name fn] rest Hfn _ IH]; intros w; cbn [runMigrations].
  - auto.
  - rewrite !bind_run. cbn [snd] in Hfn.
    destruct (Hfn (snd (Printf "\n\nStarting migration: %s" [AStr name] None w))) as [He Ht].
    rewrite He. rewrite bind_run.
    destruct (IH (snd (Printf "Completed migration: %s" [AStr name] None
                         (snd (fn mdb (snd (Printf "\n\nStarting migration: %s" [AStr name] None w))))))) as [He' Ht'].
    split; [exact He' |]. rewrite Ht', tables_Printf, Ht, tables_Printf. reflexivity.
Qed.

(** X18. When the ten collections are readable and empty, [migrateAll]
    returns no error and leaves every destination table as it is, whatever
    the state of the destination and whichever of its calls fail: a count
    that fails is only logged. *)
Theorem empty_source (Parse : string -> string -> error + Time) (mdb : MongoDatabase)
    (w : World) :
  emptySource mdb ->
  fst (migrateAll Parse mdb w) = None /\
  tables (snd (migrateAll Parse mdb w)) = tables w.
Proof.
  intros (H1 & H2 & H3 & H4 & H5 & H6 & H7 & H8 & H9 & H10).
  apply (quiet_runMigrations (migrations Parse) mdb).
  unfold migrations. repeat first [apply Forall_nil_2 | apply Forall_cons_2]; cbn [snd].
  - quiet_tac migrateServices H1.
  - quiet_tac migrateOrganizations H2.
  - quiet_tac migratePackages H3.
  - quiet_tac migrateBoughtPackages H4.
  - quiet_tac migrateCharges H5.
  - quiet_tac migratePayments H6.
  - quiet_tac migratePaymeTransactions H7.
  - quiet_tac migrateOrganizationBalanceBindings H8.
  - quiet_tac migrateCreditUpdates H9.
  - quiet_tac migrateBankPaymentAutoApplyErrors H10.
Qed.

Lemma empty_source_witness :
  fst (migrateAll rejectAll emptyDatabase (setFaults (repeat true 50) freshWorld)) = None /\
  tables (snd (migrateAll rejectAll emptyDatabase (setFaults (repeat true 50) freshWorld)))
  = tables (setFaults (repeat true 50) freshWorld).
Proof.
  apply (empty_source rejectAll emptyDatabase (setFaults (repeat true 50) freshWorld)).
  unfold emptySource, emptyDatabase. cbn. repeat split.
Defined.

(** ** A first pass over new documents *)

Lemma Create_new (r : Row) (id : string) (rows : list Row) (n : nat) (w : World) :
  tables w !! TableName r = Some rows -> noFault (S n) w ->
  primaryKey r = Some id -> uniqueKey r = None ->
  (forall x : Row, In x rows -> primaryKey x <> Some id) ->
  fst (Create r w) = None /\
  tables (snd (Create r w)) = <[TableName r := (rows ++ [r])%list]> (tables w) /\
  noFault n (snd (Create r w)).
Proof.
  intros Ht Hn Hpk Huk Habs.
  destruct (Create_noFault r rows w (noFault_first _ _ Hn) Ht) as (_ & Hnew & Hf).
  assert (Hex : existsb (conflicts r) rows = false).
  { apply not_true_is_false. intros H. apply existsb_exists in H as (x & Hin & Hx).
    unfold conflicts in Hx. rewrite Huk in Hx. apply orb_true_iff in Hx as [Hx | Hx].
    - apply sameKey_true in Hx as (k & Hk1 & Hk2). apply (Habs x Hin). congruence.
    - discriminate. }
  destruct (Hnew Hex) as [Hr Htabs].
  split; [exact Hr |]. split; [exact Htabs |]. exact (noFault_next _ _ _ Hn Hf).
Qed.

Lemma checkRecordExists_new (table id : string) (rows : list Row) (n : nat) (w : World) :
  tables w !! table = Some rows -> noFault (S n) w ->
  (forall x : Row, In x rows -> primaryKey x <> Some id) ->
  fst (checkRecordExists table id w) = false /\
  tables (snd (checkRecordExists table id w)) = tables w /\
  noFault n (snd (checkRecordExists table id w)).
Proof.
  intros Ht Hn Habs.
  destruct (checkRecordExists_facts table id w) as (_ & Htab & Hf).
  split; [exact (checkRecordExists_absent _ _ rows w Ht Habs) |].
  split; [exact Htab |]. exact (noFault_next _ _ _ Hn Hf).
Qed.

Section FirstPass.

Context {A : Type}.
Variable step : error + A -> Z * Z -> M (error + Z * Z).
Variables (table : string) (key : A -> ObjectID) (row : A -> Row).

Hypothesis row_key : forall a : A, primaryKey (row a) = Some (Hex (key a)).

(** A document that is not stored yet is inserted, in two calls. *)
Hypothesis step_new : forall (a : A) (moved skipped : Z) (rows : list Row) (n : nat)
                             (w : World),
    tables w !! table = Some rows -> noFault (S (S n)) w ->
    (forall x : Row, In x rows -> primaryKey x <> Some (Hex (key a))) ->
    fst (step (inr a) (moved, skipped) w) = inr (incr moved, skipped) /\
    tables (snd (step (inr a) (moved, skipped) w))
    = <[table := (rows ++ [row a])%list]> (tables w) /\
    noFault n (snd (step (inr a) (moved, skipped) w)).

Lemma first_pass : movesAll step table key row.
Proof.
  intros ds. induction ds as [| d ds IH]; intros rows moved skipped w Ht Hn Hnd Habs.
  - cbn [map forEach length Nat.iter fst snd ret].
    rewrite app_nil_r, insert_id by exact Ht. auto.
  - cbn [map forEach length]. rewrite bind_run.
    replace (2 * length (d :: ds))%nat with (S (S (2 * length ds))) in Hn
      by (cbn [length]; lia).
    destruct (step_new d moved skipped rows (2 * length ds) w Ht Hn) as (Hr & Htab & Hn').
    { intros x Hx. apply (Habs d x); [now left | exact Hx]. }
    rewrite Hr. cbn [map] in Hnd. apply NoDup_cons in Hnd as [Hnotin Hnd].
    destruct (IH (rows ++ [row d])%list (incr moved) skipped
                 (snd (step (inr d) (moved, skipped) w))) as (Hres & Htabs).
    + rewrite Htab. apply lookup_insert_eq.
    + exact Hn'.
    + exact Hnd.
    + intros d' r Hd' Hin. apply in_app_iff in Hin as [Hin | [<- | []]].
      * apply (Habs d' r); [now right | exact Hin].
      * rewrite row_key. intros [= Heq]. apply Hnotin. rewrite Heq.
        apply list_elem_of_In, in_map_iff. exists d'. auto.
    + rewrite Hres, Htabs, Htab, insert_insert_eq, <- app_assoc.
      split; [f_equal; f_equal; symmetry; apply (Nat.iter_succ_r (length ds) incr) |].
      reflexivity.
Qed.

End FirstPass.

Ltac new_tac step :=
  let Ht := fresh "Ht" in let Hn := fresh "Hn" in let Habs := fresh "Habs" in
  let Hc := fresh "Hc" in let Htc := fresh "Htc" in let Hnc := fresh "Hnc" in
  let Hr := fresh "Hr" in let Htr := fresh "Htr" in let Hnr := fresh "Hnr" in
  intros a moved skipped rows n w Ht Hn Habs;
  destruct (checkRecordExists_new _ _ rows _ w Ht Hn Habs) as (Hc & Htc & Hnc);
  unfold step; rewrite bind_run, Hc; cbn iota; rewrite !bind_run;
  rewrite <- Htc in Ht;
  match goal with
  | |- context [Create ?x ?w1] =>
      destruct (Create_new x _ rows n w1 Ht Hnc eq_refl eq_refl Habs) as (Hr & Htr & Hnr)
  end;
  rewrite Hr; cbn [fst snd ret]; rewrite Htr, Htc; auto.

Lemma new_payment : forall a moved skipped rows n w,
    tables w !! Payment.TableName = Some rows -> noFault (S (S n)) w ->
    (forall x : Row, In x rows -> primaryKey x <> Some (Hex (mongoPayment.ID a))) ->
    fst (paymentStep (inr a) (moved, skipped) w) = inr (incr moved, skipped) /\
    tables (snd (paymentStep (inr a) (moved, skipped) w))
    = <[Payment.TableName := (rows ++ [RPayment (paymentRow a)])%list]> (tables w) /\
    noFault n (snd (paymentStep (inr a) (moved, skipped) w)).
Proof. new_tac paymentStep. Qed.

Lemma new_organizationBalanceBinding : forall a moved skipped rows n w,
    tables w !! OrganizationBalanceBinding.TableName = Some rows -> noFault (S (S n)) w ->
    (forall x : Row, In x rows ->
        primaryKey x <> Some (Hex (mongoOrganizationBalanceBinding.ID a))) ->
    fst (organizationBalanceBindingStep (inr a) (moved, skipped) w)
    = inr (incr moved, skipped) /\
    tables (snd (organizationBalanceBindingStep (inr a) (moved, skipped) w))
    = <[OrganizationBalanceBinding.TableName :=
          (rows ++ [ROrganizationBalanceBinding (organizationBalanceBindingRow a)])%list]>
        (tables w) /\
    noFault n (snd (organizationBalanceBindingStep (inr a) (moved, skipped) w)).
Proof. new_tac organizationBalanceBindingStep. Qed.

Lemma new_creditUpdate : forall a moved skipped rows n w,
    tables w !! CreditUpdates.TableName = Some rows -> noFault (S (S n)) w ->
    (forall x : Row, In x rows -> primaryKey x <> Some (Hex (mongoCreditUpdate.ID a))) ->
    fst (creditUpdateStep (inr a) (moved, skipped) w) = inr (incr moved, skipped) /\
    tables (snd (creditUpdateStep (inr a) (moved, skipped) w))
    = <[CreditUpdates.TableName := (rows ++ [RCreditUpdates (creditUpdateRow a)])%list]>
        (tables w) /\
    noFault n (snd (creditUpdateStep (inr a) (moved, skipped) w)).
Proof. new_tac creditUpdateStep. Qed.

Lemma new_bankPaymentAutoApplyError : forall a moved skipped rows n w,
    tables w !! BankPaymentAutoApplyError.TableName = Some rows -> noFault (S (S n)) w ->
    (forall x : Row, In x rows ->
        primaryKey x <> Some (Hex (mongoBankPaymentAutoApplyError.ID a))) ->
    fst (bankPaymentAutoApplyErrorStep (inr a) (moved, skipped) w)
    = inr (incr moved, skipped) /\
    tables (snd (bankPaymentAutoApplyErrorStep (inr a) (moved, skipped) w))
    = <[BankPaymentAutoApplyError.TableName :=
          (rows ++ [RBankPaymentAutoApplyError (bankPaymentAutoApplyErrorRow a)])%list]>
        (tables w) /\
    noFault n (snd (bankPaymentAutoApplyErrorStep (inr a) (moved, skipped) w)).
Proof. new_tac bankPaymentAutoApplyErrorStep. Qed.

Lemma noFault_Printf (format : string) (args : list Arg) (err : option error) (n : nat)
    (w : World) :
  noFault n w -> noFault n (snd (Printf format args err w)).
Proof. intros H. exact H. Qed.

Lemma new_charge (Parse : string -> string -> error + Time) :
  forall a moved skipped rows n w,
    tables w !! Charge.TableName = Some rows -> noFault (S (S n)) w ->
    (forall x : Row, In x rows -> primaryKey x <> Some (Hex (mongoCharge.ID a))) ->
    fst (chargeStep Parse (inr a) (moved, skipped) w) = inr (incr moved, skipped) /\
    tables (snd (chargeStep Parse (inr a) (moved, skipped) w))
    = <[Charge.TableName := (rows ++ [RCharge (chargeRow Parse a)])%list]> (tables w) /\
    noFault n (snd (chargeStep Parse (inr a) (moved, skipped) w)).
Proof.
  intros a moved skipped rows n w Ht Hn Habs.
  destruct (checkRecordExists_new _ _ rows _ w Ht Hn Habs) as (Hc & Htc & Hnc).
  unfold chargeStep. rewrite bind_run, Hc. cbn iota. rewrite !bind_run.
  rewrite <- Htc in Ht.
  match goal with
  | |- context [Create ?x (snd (Printf ?f ?args ?e ?w1))] =>
      rewrite <- (tables_Printf f args e w1) in Ht;
      destruct (Create_new x _ rows n _ Ht (noFault_Printf f args e _ w1 Hnc)
                           eq_refl eq_refl Habs) as (Hr & Htr & Hnr)
  end.
  rewrite Hr. cbn [fst snd ret]. rewrite Htr, tables_Printf, Htc. auto.
Qed.

(** X19. A first pass of the loops over charges, payments, organization
    balance bindings, credit updates and bank payment errors: when the
    documents read have identifiers that differ from each other and from
    those already stored, and no call to the destination fails, the loop
    appends exactly one row per document to its table, in the order of the
    cursor, and counts every document as moved and none as skipped. *)
Theorem first_pass_moves_all (Parse : string -> string -> error + Time) :
  movesAll (chargeStep Parse) Charge.TableName mongoCharge.ID
           (fun c => RCharge (chargeRow Parse c)) /\
  movesAll paymentStep Payment.TableName mongoPayment.ID
           (fun p => RPayment (paymentRow p)) /\
  movesAll organizationBalanceBindingStep OrganizationBalanceBinding.TableName
           mongoOrganizationBalanceBinding.ID
           (fun obb => ROrganizationBalanceBinding (organizationBalanceBindingRow obb)) /\
  movesAll creditUpdateStep CreditUpdates.TableName mongoCreditUpdate.ID
           (fun cu => RCreditUpdates (creditUpdateRow cu)) /\
  movesAll bankPaymentAutoApplyErrorStep BankPaymentAutoApplyError.TableName
           mongoBankPaymentAutoApplyError.ID
           (fun bpae => RBankPaymentAutoApplyError (bankPaymentAutoApplyErrorRow bpae)).
Proof.
  repeat apply conj; apply first_pass; try reflexivity.
  - apply new_charge.
  - apply new_payment.
  - apply new_organizationBalanceBinding.
  - apply new_creditUpdate.
  - apply new_bankPaymentAutoApplyError.
Qed.

Lemma first_pass_moves_all_witness :
  fst (forEach paymentStep (map inr [samplePayment Byte.x10; samplePayment Byte.x11])
         (0, 0) freshWorld)
  = inr (Nat.iter 2 incr 0, 0) /\
  tables (snd (forEach paymentStep (map inr [samplePayment Byte.x10; samplePayment Byte.x11])
                 (0, 0) freshWorld))
  = <[Payment.TableName := [RPayment (paymentRow (samplePayment Byte.x10));
                            RPayment (paymentRow (samplePayment Byte.x11))]]>
      (tables freshWorld).
Proof.
  destruct (first_pass_moves_all rejectAll) as (_ & H & _).
  apply (H [samplePayment Byte.x10; samplePayment Byte.x11] [] 0 0 freshWorld).
  - reflexivity.
  - reflexivity.
  - refine (bool_decide_unpack _ _). vm_compute. reflexivity.
  - intros d r _ [].
Defined.

(** * The rows that are stored *)

(** ** The Payme transaction that is inserted *)

(** The existence query reads neither the clock nor the tables' rows for
    writing: clock and ticks are as before. *)
Lemma clock_checkRecordExists (table id : string) (w : World) :
  clock (snd (checkRecordExists table id w)) = clock w /\
  ticks (snd (checkRecordExists table id w)) = ticks w.
Proof.
  unfold checkRecordExists, CountWhereID. rewrite !bind_run.
  assert (Hf : clock (snd (fault w)) = clock w /\ ticks (snd (fault w)) = ticks w)
    by (unfold fault; destruct (faults w); cbn; auto).
  destruct (fault w) as [[|] w1]; cbn [fst snd ret] in *; [exact Hf |].
  destruct (tables w1 !! table); cbn [fst snd ret]; exact Hf.
Qed.

(** The timestamp chosen depends on the world through the next reading of
    the clock only, and choosing it leaves the tables and the pending
    failures as they are. *)
Lemma paymeCreatedAt_run (pt : mongoPaymeTransaction.t) (w w0 : World) :
  clock w = clock w0 -> ticks w = ticks w0 ->
  fst (paymeCreatedAt pt w) = fst (paymeCreatedAt pt w0) /\
  tables (snd (paymeCreatedAt pt w)) = tables w /\
  faults (snd (paymeCreatedAt pt w)) = faults w.
Proof.
  intros Hc Ht. unfold paymeCreatedAt.
  destruct (validateDateTime (mongoPaymeTransaction.PaymeCreatedAt pt)); [cbn; auto |].
  destruct (validateDateTime (mongoPaymeTransaction.CreatedAt pt)); [cbn; auto |].
  rewrite !bind_run. cbn [Now fst snd ret tables faults]. rewrite Hc, Ht. auto.
Qed.

(** What the choice is. *)
Lemma paymeCreatedAt_cases (pt : mongoPaymeTransaction.t) (w : World) :
  (validateDateTime (mongoPaymeTransaction.PaymeCreatedAt pt) <> None ->
   fst (paymeCreatedAt pt w) = mongoPaymeTransaction.PaymeCreatedAt pt) /\
  (validateDateTime (mongoPaymeTransaction.PaymeCreatedAt pt) = None ->
   validateDateTime (mongoPaymeTransaction.CreatedAt pt) <> None ->
   fst (paymeCreatedAt pt w) = mongoPaymeTransaction.CreatedAt pt) /\
  (validateDateTime (mongoPaymeTransaction.PaymeCreatedAt pt) = None ->
   validateDateTime (mongoPaymeTransaction.CreatedAt pt) = None ->
   fst (paymeCreatedAt pt w) = clock w (ticks w)) /\
  (IsZero (clock w (ticks w)) = false -> IsZero (fst (paymeCreatedAt pt w)) = false) /\
  (validateDateTime (clock w (ticks w)) <> None ->
   validateDateTime (fst (paymeCreatedAt pt w)) = Some (fst (paymeCreatedAt pt w))).
Proof.
  assert (Hacc : forall t v : Time, validateDateTime t = Some v ->
                   IsZero t = false /\ validateDateTime t = Some t).
  { intros t v Hv. pose proof (validateDateTime_unchanged t v Hv) as ->.
    split; [| exact Hv]. apply not_true_is_false. intros Hz.
    assert (Hn : validateDateTime t = None) by (apply validateDateTime_None; now left).
    congruence. }
  unfold paymeCreatedAt.
  destruct (validateDateTime (mongoPaymeTransaction.PaymeCreatedAt pt)) as [v |] eqn:Hp.
  - destruct (Hacc _ _ Hp) as [Hz Hv]. pose proof (validateDateTime_unchanged _ _ Hp) as ->.
    cbn [fst ret]. repeat split; try discriminate; auto.
  - destruct (validateDateTime (mongoPaymeTransaction.CreatedAt pt)) as [v |] eqn:Hc.
    + destruct (Hacc _ _ Hc) as [Hz Hv]. pose proof (validateDateTime_unchanged _ _ Hc) as ->.
      cbn [fst ret]. repeat split; try discriminate; try contradiction; auto.
    + rewrite bind_run. cbn [Now fst snd ret].
      repeat split; try contradiction; auto.
      intros Hk. destruct (validateDateTime (clock w (ticks w))) as [v |] eqn:Hv;
        [| contradiction].
      now rewrite (validateDateTime_unchanged _ _ Hv).
Qed.

(** The step of a Payme transaction either leaves every table as it is or
    appends, to [payme_transactions], the row built from the document and
    the timestamp chosen at the reading of the clock the step starts with. *)
Lemma paymeTransactionStep_stores (pt : mongoPaymeTransaction.t) (st : Z * Z) (w : World) :
  tables (snd (paymeTransactionStep (inr pt) st w)) = tables w \/
  exists rows : list Row,
    tables w !! PaymeTransaction.TableName = Some rows /\
    tables (snd (paymeTransactionStep (inr pt) st w))
    = <[PaymeTransaction.TableName :=
          (rows ++ [RPaymeTransaction
                      (paymeTransactionRow pt (fst (paymeCreatedAt pt w)))])%list]> (tables w).
Proof.
  destruct st as [moved skipped]. unfold paymeTransactionStep. rewrite bind_run.
  pose proof (tables_checkRecordExists PaymeTransaction.TableName
                (Hex (mongoPaymeTransaction.ID pt)) w) as Htc.
  destruct (clock_checkRecordExists PaymeTransaction.TableName
              (Hex (mongoPaymeTransaction.ID pt)) w) as [Hck Htk].
  set (w1 := snd (checkRecordExists PaymeTransaction.TableName
                    (Hex (mongoPaymeTransaction.ID pt)) w)) in *.
  destruct (fst (checkRecordExists _ _ w)); cbn [fst snd ret]; [left; exact Htc |].
  rewrite bind_run.
  destruct (paymeCreatedAt_run pt w1 w Hck Htk) as (Hv & Htp & _).
  rewrite Hv. set (w2 := snd (paymeCreatedAt pt w1)) in *.
  rewrite bind_run.
  set (r := RPaymeTransaction (paymeTransactionRow pt (fst (paymeCreatedAt pt w)))).
  destruct (fst (Create r w2)) as [e |] eqn:He.
  - left. rewrite bind_run. cbn [fst snd ret].
    rewrite tables_Printf, (Create_failed r w2 e He), Htp. exact Htc.
  - right. cbn [fst snd ret].
    destruct (Create_success r w2 He) as (rows & Hr & _ & Ht & _).
    exists rows. change (TableName r) with PaymeTransaction.TableName in *.
    rewrite Htp, Htc in Hr. rewrite Ht, Htp, Htc. auto.
Qed.

(** A transaction that is not stored yet, when the query and the insert do
    not fail: the row is appended and the transaction counted as moved. *)
Lemma new_paymeTransaction (pt : mongoPaymeTransaction.t) (moved skipped : Z)
    (rows : list Row) (n : nat) (w : World) :
  tables w !! PaymeTransaction.TableName = Some rows -> noFault (S (S n)) w ->
  (forall x : Row, In x rows -> primaryKey x <> Some (Hex (mongoPaymeTransaction.ID pt))) ->
  fst (paymeTransactionStep (inr pt) (moved, skipped) w) = inr (incr moved, skipped) /\
  tables (snd (paymeTransactionStep (inr pt) (moved, skipped) w))
  = <[PaymeTransaction.TableName :=
        (rows ++ [RPaymeTransaction
                    (paymeTransactionRow pt (fst (paymeCreatedAt pt w)))])%list]> (tables w) /\
  noFault n (snd (paymeTransactionStep (inr pt) (moved, skipped) w)).
Proof.
  intros Ht Hn Habs.
  destruct (checkRecordExists_new _ _ rows _ w Ht Hn Habs) as (Hc & Htc & Hnc).
  destruct (clock_checkRecordExists PaymeTransaction.TableName
              (Hex (mongoPaymeTransaction.ID pt)) w) as [Hck Htk].
  unfold paymeTransactionStep. rewrite bind_run, Hc. cbn iota.
  set (w1 := snd (checkRecordExists PaymeTransaction.TableName
                    (Hex (mongoPaymeTransaction.ID pt)) w)) in *.
  rewrite bind_run.
  destruct (paymeCreatedAt_run pt w1 w Hck Htk) as (Hv & Htp & Hfp).
  rewrite Hv. set (w2 := snd (paymeCreatedAt pt w1)) in *.
  rewrite bind_run.
  set (r := RPaymeTransaction (paymeTransactionRow pt (fst (paymeCreatedAt pt w)))).
  assert (Ht2 : tables w2 !! TableName r = Some rows) by (rewrite Htp, Htc; exact Ht).
  assert (Hn2 : noFault (S n) w2) by (unfold noFault in *; rewrite Hfp; exact Hnc).
  destruct (Create_new r _ rows n w2 Ht2 Hn2 eq_refl eq_refl Habs) as (Hr & Htr & Hnr).
  rewrite Hr. cbn [fst snd ret]. rewrite Htr, Htp, Htc. auto.
Qed.

(** ** The children of a document that is already stored *)

Lemma bonusPackages_appended (p : mongoPackage.t) (bonuses : list ObjectID) :
  forall (k : nat) (n : Z) (rows : list Row) (w : World),
    noFault (length bonuses + k) w ->
    tables w !! PackageActivationBonusPackage.TableName = Some rows ->
    fst (forEach (bonusPackageStep p) bonuses n w) = inr (Nat.iter (length bonuses) incr n) /\
    tables (snd (forEach (bonusPackageStep p) bonuses n w))
    = <[PackageActivationBonusPackage.TableName :=
          (rows ++ map (fun b => RPackageActivationBonusPackage (bonusPackageRow p b))
                       bonuses)%list]> (tables w) /\
    noFault k (snd (forEach (bonusPackageStep p) bonuses n w)).
Proof.
  induction bonuses as [| b bonuses IH]; intros k n rows w Hn Ht; cbn [forEach length map].
  - cbn [fst snd ret Nat.iter]. rewrite app_nil_r, insert_id by exact Ht. auto.
  - simpl in Hn.
    destruct (CreateOnConflictDoNothing_spec
                (RPackageActivationBonusPackage (bonusPackageRow p b)) rows w
                (noFault_first _ _ Hn) Ht) as (Hr & Htab & Hf).
    rewrite (keyless_never_conflicts (RPackageActivationBonusPackage (bonusPackageRow p b))
               rows eq_refl eq_refl) in Htab.
    assert (Hstep : bonusPackageStep p b n w
                    = (inr (incr n),
                       snd (CreateOnConflictDoNothing
                              (RPackageActivationBonusPackage (bonusPackageRow p b)) w))).
    { unfold bonusPackageStep. rewrite bind_run, Hr. reflexivity. }
    rewrite bind_run, Hstep. cbn [fst snd].
    destruct (IH k (incr n)
                 (rows ++ [RPackageActivationBonusPackage (bonusPackageRow p b)])%list
                 (snd (CreateOnConflictDoNothing
                         (RPackageActivationBonusPackage (bonusPackageRow p b)) w)))
      as (Hr' & Htab' & Hn').
    + eapply noFault_next; eauto.
    + rewrite Htab. apply lookup_insert_eq.
    + rewrite Hr', Htab', Htab, insert_insert_eq, <- app_assoc.
      split; [f_equal; symmetry; apply Nat.iter_succ_r |]. split; [reflexivity | exact Hn'].
Qed.

(** Whether a row of [package_items] collides with a stored row does not
    depend on the item: it does when a stored row has the empty key. *)
Lemma packageItem_conflicts (p : mongoPackage.t) (item : mongoPackageItem.t)
    (rows : list Row) :
  existsb (conflicts (RPackageItem (packageItemRow p item))) rows = true <->
  exists r : Row, In r rows /\ primaryKey r = Some "".
Proof.
  rewrite existsb_exists. split; intros (x & Hin & Hx); exists x; (split; [exact Hin |]).
  - unfold conflicts in Hx. apply orb_true_iff in Hx as [Hx | Hx]; [| discriminate].
    apply sameKey_true in Hx as (k & Hk1 & Hk2). cbn in Hk1. congruence.
  - unfold conflicts. apply orb_true_iff. left. apply sameKey_true.
    exists "". split; [reflexivity | exact Hx].
Qed.

(** The loop over the items of a package, whatever [package_items] holds:
    at most the row of the first item is stored. *)
Lemma packageItems_written (p : mongoPackage.t) (items : list mongoPackageItem.t)
    (k : nat) (n : Z) (rows : list Row) (w : World) :
  noFault (length items + k) w ->
  tables w !! PackageItem.TableName = Some rows ->
  fst (forEach (packageItemStep p) items n w) = inr (Nat.iter (length items) incr n) /\
  tables (snd (forEach (packageItemStep p) items n w))
  = <[PackageItem.TableName :=
        match items with
        | [] => rows
        | item :: _ =>
            if existsb (conflicts (RPackageItem (packageItemRow p item))) rows then rows
            else (rows ++ [RPackageItem (packageItemRow p item)])%list
        end]> (tables w) /\
  noFault k (snd (forEach (packageItemStep p) items n w)).
Proof.
  intros Hn Ht. destruct items as [| item items].
  - cbn [forEach length fst snd ret Nat.iter]. rewrite insert_id by exact Ht. auto.
  - destruct (existsb (conflicts (RPackageItem (packageItemRow p item))) rows) eqn:Hex.
    + apply packageItem_conflicts in Hex.
      destruct (packageItems_ignored p (item :: items) k n rows w Hn Ht Hex)
        as (Hr & Htab & Hn').
      rewrite Hr, Htab, insert_id by exact Ht. auto.
    + cbn [forEach length]. simpl in Hn.
      destruct (CreateOnConflictDoNothing_spec (RPackageItem (packageItemRow p item)) rows w
                  (noFault_first _ _ Hn) Ht) as (Hr & Htab & Hf).
      rewrite Hex in Htab.
      assert (Hstep : packageItemStep p item n w
                      = (inr (incr n),
                         snd (CreateOnConflictDoNothing
                                (RPackageItem (packageItemRow p item)) w))).
      { unfold packageItemStep. rewrite bind_run, Hr. reflexivity. }
      rewrite bind_run, Hstep. cbn [fst snd].
      destruct (packageItems_ignored p items k (incr n)
                  (rows ++ [RPackageItem (packageItemRow p item)])%list
                  (snd (CreateOnConflictDoNothing (RPackageItem (packageItemRow p item)) w)))
        as (Hr' & Htab' & Hn').
      * eapply noFault_next; eauto.
      * rewrite Htab. apply lookup_insert_eq.
      * exists (RPackageItem (packageItemRow p item)). split; [| reflexivity].
        apply in_app_iff. right. now left.
      * rewrite Hr', Htab', Htab.
        split; [f_equal; symmetry; apply (Nat.iter_succ_r (length items) incr) |].
        split; [reflexivity | exact Hn'].
Qed.

(** The two child loops of a package, when none of their calls fails. *)
Lemma packageChildren_written (p : mongoPackage.t) (itemsMoved bonusMoved : Z)
    (items bonuses : list Row) (w : World) :
  noFault (length (mongoPackage.Items p)
           + length (mongoPackage.OnActivationBonusPackages p)) w ->
  tables w !! PackageItem.TableName = Some items ->
  tables w !! PackageActivationBonusPackage.TableName = Some bonuses ->
  fst (packageChildren p itemsMoved bonusMoved w)
  = inr (Nat.iter (length (mongoPackage.Items p)) incr itemsMoved,
         Nat.iter (length (mongoPackage.OnActivationBonusPackages p)) incr bonusMoved) /\
  tables (snd (packageChildren p itemsMoved bonusMoved w))
  = <[PackageActivationBonusPackage.TableName :=
        (bonuses ++ map (fun b => RPackageActivationBonusPackage (bonusPackageRow p b))
                        (mongoPackage.OnActivationBonusPackages p))%list]>
      (<[PackageItem.TableName :=
           match mongoPackage.Items p with
           | [] => items
           | item :: _ =>
               if existsb (conflicts (RPackageItem (packageItemRow p item))) items then items
               else (items ++ [RPackageItem (packageItemRow p item)])%list
           end]> (tables w)).
Proof.
  intros Hn Hi Hb. unfold packageChildren. rewrite bind_run.
  destruct (packageItems_written p (mongoPackage.Items p) _ itemsMoved items w Hn Hi)
    as (Hr & Htab & Hn').
  rewrite Hr. cbn iota. rewrite bind_run.
  destruct (bonusPackages_appended p (mongoPackage.OnActivationBonusPackages p) 0 bonusMoved
              bonuses (snd (forEach (packageItemStep p) (mongoPackage.Items p) itemsMoved w)))
    as (Hr' & Htab' & _).
  - now rewrite Nat.add_0_r.
  - rewrite Htab, lookup_insert_ne by discriminate. exact Hb.
  - rewrite Hr'. cbn [fst snd ret]. rewrite Htab', Htab. auto.
Qed.

(** An organization that is stored already: each of its demo uses is
    written again, as a further row. *)
Lemma organization_skip_children (o : mongoOrganization.t) (moved skipped demoUsesMoved : Z)
    (demos : list Row) (w : World) :
  present Organization.TableName (Hex (mongoOrganization.ID o)) w ->
  noFault (1 + length (mongoOrganization.ServiceDemoUses o)) w ->
  tables w !! OrganizationServiceDemoUses.TableName = Some demos ->
  fst (organizationStep (inr o) (moved, skipped, demoUsesMoved) w)
  = inr (moved, incr skipped,
         Nat.iter (length (mongoOrganization.ServiceDemoUses o)) incr demoUsesMoved) /\
  tables (snd (organizationStep (inr o) (moved, skipped, demoUsesMoved) w))
  = <[OrganizationServiceDemoUses.TableName :=
        (demos ++ map (fun s => ROrganizationServiceDemoUses (demoUseRow o s))
                      (mongoOrganization.ServiceDemoUses o))%list]> (tables w).
Proof.
  intros Hp Hn Hd.
  pose proof (noFault_first _ _ Hn) as Hn1.
  apply fault_noFault in Hn as (_ & Htf & Hn).
  unfold organizationStep. rewrite bind_run, (checkRecordExists_present _ _ w Hp Hn1).
  cbn [fst snd]. rewrite bind_run.
  destruct (demoUses_appended o (mongoOrganization.ServiceDemoUses o) 0 demoUsesMoved demos
              (snd (fault w))) as (Hr & Htab & _).
  - now rewrite Nat.add_0_r.
  - now rewrite Htf.
  - rewrite Hr. cbn [fst snd ret]. rewrite Htab, Htf. auto.
Qed.

(** A package that is stored already: each of its bonus packages is written
    again, as a further row, and its items are written again by inserts
    that are ignored when [package_items] holds a row. *)
Lemma package_skip_children (p : mongoPackage.t) (moved skipped itemsMoved bonusMoved : Z)
    (items bonuses : list Row) (w : World) :
  present Package.TableName (Hex (mongoPackage.ID p)) w ->
  noFault (1 + (length (mongoPackage.Items p)
                + length (mongoPackage.OnActivationBonusPackages p))) w ->
  tables w !! PackageItem.TableName = Some items ->
  tables w !! PackageActivationBonusPackage.TableName = Some bonuses ->
  fst (packageStep (inr p) (moved, skipped, itemsMoved, bonusMoved) w)
  = inr (moved, incr skipped,
         Nat.iter (length (mongoPackage.Items p)) incr itemsMoved,
         Nat.iter (length (mongoPackage.OnActivationBonusPackages p)) incr bonusMoved) /\
  tables (snd (packageStep (inr p) (moved, skipped, itemsMoved, bonusMoved) w))
  = <[PackageActivationBonusPackage.TableName :=
        (bonuses ++ map (fun b => RPackageActivationBonusPackage (bonusPackageRow p b))
                        (mongoPackage.OnActivationBonusPackages p))%list]>
      (<[PackageItem.TableName :=
           match mongoPackage.Items p with
           | [] => items
           | item :: _ =>
               if existsb (conflicts (RPackageItem (packageItemRow p item))) items then items
               else (items ++ [RPackageItem (packageItemRow p item)])%list
           end]> (tables w)).
Proof.
  intros Hp Hn Hi Hb.
  pose proof (noFault_first _ _ Hn) as Hn1.
  apply fault_noFault in Hn as (_ & Htf & Hn).
  unfold packageStep. rewrite bind_run, (checkRecordExists_present _ _ w Hp Hn1).
  cbn [fst snd]. rewrite bind_run.
  rewrite <- Htf in Hi, Hb.
  destruct (packageChildren_written p itemsMoved bonusMoved items bonuses (snd (fault w))
              Hn Hi Hb) as (Hr & Htab).
  rewrite Hr. cbn [fst snd ret]. rewrite Htab, Htf. auto.
Qed.

(** ** Migrate when a drop fails *)

(** A drop that fails leaves every table as it is; a drop that does not
    fail removes its table and no other. *)
Lemma tables_DropTable (table : string) (w : World) :
  tables (snd (DropTable table w))
  = if hd false (faults w) then tables w else delete table (tables w).
Proof.
  unfold DropTable. rewrite bind_run. unfold fault.
  destruct (faults w) as [| [|] fs]; reflexivity.
Qed.

Lemma dropTables_other (names : list string) (table : string) :
  forall w : World,
    ~ In table names -> tables (snd (dropTables names w)) !! table = tables w !! table.
Proof.
  induction names as [| name names IH]; intros w Hni; cbn [dropTables].
  - reflexivity.
  - rewrite bind_run, IH by (intros H; apply Hni; now right).
    rewrite tables_DropTable. destruct (hd false (faults w)); [reflexivity |].
    apply lookup_delete_ne. intros ->. apply Hni. now left.
Qed.

(** The table dropped by the [i]-th call, the names being distinct. *)
Lemma dropTables_nth (names : list string) :
  NoDup names ->
  forall (w : World) (i : nat) (table : string),
    names !! i = Some table ->
    tables (snd (dropTables names w)) !! table
    = if nth i (faults w) false then tables w !! table else None.
Proof.
  induction 1 as [| name names Hni Hnd IH]; intros w i table Hi; [discriminate |].
  cbn [dropTables]. rewrite bind_run.
  destruct i as [| i]; cbn in Hi.
  - injection Hi as ->.
    rewrite dropTables_other by (now rewrite <- list_elem_of_In).
    rewrite tables_DropTable. destruct (faults w) as [| [|] fs]; cbn [hd nth].
    + apply lookup_delete_eq.
    + reflexivity.
    + apply lookup_delete_eq.
  - rewrite (IH _ i table Hi), faults_DropTable, tables_DropTable.
    assert (Hne : name <> table).
    { intros ->. apply Hni. apply list_elem_of_lookup. eauto. }
    replace (nth i (tl (faults w)) false) with (nth (S i) (faults w) false)
      by (destruct (faults w); [now destruct i | reflexivity]).
    destruct (nth (S i) (faults w) false); [| reflexivity].
    destruct (hd false (faults w)); [reflexivity |]. now apply lookup_delete_ne.
Qed.

Lemma NoDup_modelTables : NoDup modelTables.
Proof. refine (bool_decide_unpack _ _). vm_compute. reflexivity. Qed.

(** Each of the fourteen tables after [Migrate], by the outcome of its drop
    and of the final [AutoMigrate]. *)
Lemma Migrate_table (w : World) (i : nat) (table : string) :
  modelTables !! i = Some table ->
  tables (snd (Migrate w)) !! table
  = match (if nth i (faults w) false then tables w !! table else None) with
    | Some rows => Some rows
    | None => if nth 14 (faults w) false then None else Some []
    end.
Proof.
  intros Hi.
  assert (Hlast : fst (fault (snd (dropTables modelTables w))) = nth 14 (faults w) false).
  { pose proof (faults_dropTables modelTables w) as Hf.
    unfold fault. rewrite Hf. change (length modelTables) with 14%nat.
    destruct (faults w) as [| b0 [| b1 [| b2 [| b3 [| b4 [| b5 [| b6 [| b7 [| b8 [| b9
      [| b10 [| b11 [| b12 [| b13 [| b14 fs]]]]]]]]]]]]]]]; reflexivity. }
  pose proof (dropTables_nth modelTables NoDup_modelTables w i table Hi) as Hd.
  unfold Migrate. rewrite bind_run. unfold AutoMigrate. rewrite bind_run, Hlast.
  pose proof (tables_fault (snd (dropTables modelTables w))) as Htf.
  destruct (nth 14 (faults w) false); cbn [fst snd ret setTables tables].
  - rewrite Htf, Hd. destruct (nth i (faults w) false); [| reflexivity].
    destruct (tables w !! table); reflexivity.
  - rewrite lookup_createMissing, Htf, Hd.
    assert (Hin : table ∈ modelTables) by (apply list_elem_of_lookup; eauto).
    rewrite (bool_decide_eq_true_2 _ Hin). reflexivity.
Qed.

(** [Migrate] reports a failure exactly when the call that follows the
    fourteen drops fails. *)
Lemma Migrate_fails (w : World) :
  fst (Migrate w) <> None <-> nth 14 (faults w) false = true.
Proof.
  pose proof (faults_dropTables modelTables w) as Hf.
  unfold Migrate. rewrite bind_run. unfold AutoMigrate. rewrite bind_run.
  unfold fault at 1. rewrite Hf. change (length modelTables) with 14%nat.
  destruct (faults w) as [| b0 [| b1 [| b2 [| b3 [| b4 [| b5 [| b6 [| b7 [| b8 [| b9
    [| b10 [| b11 [| b12 [| b13 [| [|] fs]]]]]]]]]]]]]]];
    cbn [skipn nth fst snd ret]; split; congruence.
Qed.

(** C9 as amended. [main] runs [Migrate] before any migration step and runs
    the steps only when [Migrate] reports success.  [Migrate] issues a drop
    for each of the fourteen tables, ignoring the failure of a drop (it
    reports a failure exactly when the final [AutoMigrate] fails), and then
    re-creates the tables that are missing; when none of the fourteen drops
    fails and [Migrate] reports success, each of the fourteen tables exists
    and holds no row, so the steps start on an empty destination.  A table
    whose drop failed keeps its rows, whatever the other calls do; a table
    whose drop did not fail holds no row once [Migrate] reports success. *)
Theorem Migrate_resets_destination (Parse : string -> string -> error + Time) :
  length modelTables = 14%nat /\
  (forall (mdb : MongoDatabase) (w : World) (err : error),
      fst (Migrate w) = Some err ->
      fst (main Parse mdb w) = Some err /\
      tables (snd (main Parse mdb w)) = tables (snd (Migrate w))) /\
  (forall (mdb : MongoDatabase) (w : World),
      fst (Migrate w) = None ->
      fst (main Parse mdb w) = fst (migrateAll Parse mdb (snd (Migrate w))) /\
      tables (snd (main Parse mdb w))
      = tables (snd (migrateAll Parse mdb (snd (Migrate w))))) /\
  (forall w : World,
      noFault 14 w -> fst (Migrate w) = None ->
      forall table : string, In table modelTables ->
        tables (snd (Migrate w)) !! table = Some []) /\
  (forall w : World, fst (Migrate w) <> None <-> nth 14 (faults w) false = true) /\
  (forall (w : World) (i : nat) (table : string) (rows : list Row),
      modelTables !! i = Some table ->
      nth i (faults w) false = true ->
      tables w !! table = Some rows ->
      tables (snd (Migrate w)) !! table = Some rows) /\
  (forall (w : World) (i : nat) (table : string),
      modelTables !! i = Some table ->
      nth i (faults w) false = false ->
      fst (Migrate w) = None ->
      tables (snd (Migrate w)) !! table = Some []).
Proof.
  split; [reflexivity |].
  split; [intros mdb w; apply main_after_Migrate |].
  split; [intros mdb w; apply main_after_Migrate |].
  split; [intros w Hn Hok; now apply Migrate_noFault |].
  split; [exact Migrate_fails |].
  split.
  - intros w i table rows Hi Hf Hrows.
    rewrite (Migrate_table w i table Hi), Hf, Hrows. reflexivity.
  - intros w i table Hi Hf Hok.
    rewrite (Migrate_table w i table Hi), Hf.
    destruct (nth 14 (faults w) false) eqn:Hlast; [| reflexivity].
    exfalso. apply (proj2 (Migrate_fails w)); assumption.
Qed.

(** The stored service is gone once [Migrate] has run without a failing
    call, and is still there when the drop of [services] fails. *)
Lemma Migrate_resets_destination_witness :
  tables (snd (Migrate (worldWithService []))) !! Service.TableName = Some [] /\
  tables (snd (Migrate (worldWithService [true]))) !! Service.TableName
  = Some [RService (serviceRow sampleService)].
Proof.
  destruct (Migrate_resets_destination rejectAll) as (_ & _ & _ & H & _ & Hkept & _).
  split.
  - apply H.
    + reflexivity.
    + reflexivity.
    + now left.
  - apply (Hkept (worldWithService [true]) 0%nat); reflexivity.
Defined.

(** The drop of [services] fails and is ignored: [Migrate] reports success
    and the row of the previous run is still there when the steps start. *)
Lemma failed_drop_keeps_rows :
  fst (Migrate (worldWithService [true])) = None /\
  tables (snd (Migrate (worldWithService [true]))) !! Service.TableName
  = Some [RService (serviceRow sampleService)] /\
  fst (main rejectAll serviceSource (worldWithService [true])) = None /\
  tables (snd (main rejectAll serviceSource (worldWithService [true]))) !! Service.TableName
  = Some [RService (serviceRow sampleService)].
Proof. repeat split; vm_compute; reflexivity. Qed.

(** ** Documents that are already stored, and their children *)

(** C5 as amended. A source document whose identifier is already a primary
    key of the destination table is passed over when the existence query
    itself succeeds: the destination row is left as it is, [skipped] is
    incremented, [moved] is not, and the loop goes on with the next document.
    For organizations and packages the children are written again on that
    path: the parent table is left as it is and the counters change in the
    same way, each demo use and each bonus package is stored as a further
    row, each item goes through an insert that is ignored once
    [package_items] holds a row, and the loop goes on unless a child write
    fails, which is then the error returned.  When the existence query fails
    the answer is false, and the document is taken for new. *)
Theorem existing_documents_are_skipped :
  skipsExisting serviceStep Service.TableName mongoService.ID
                (fun st => (fst st, incr (snd st))) /\
  skipsExisting boughtPackageStep BoughtPackage.TableName mongoBoughtPackage.ID
                (fun st => (fst (fst st), incr (snd (fst st)), snd st)) /\
  (forall Parse : string -> string -> error + Time,
      skipsExisting (chargeStep Parse) Charge.TableName mongoCharge.ID
                    (fun st => (fst st, incr (snd st)))) /\
  skipsExisting paymentStep Payment.TableName mongoPayment.ID
                (fun st => (fst st, incr (snd st))) /\
  skipsExisting paymeTransactionStep PaymeTransaction.TableName mongoPaymeTransaction.ID
                (fun st => (fst st, incr (snd st))) /\
  skipsExisting organizationBalanceBindingStep OrganizationBalanceBinding.TableName
                mongoOrganizationBalanceBinding.ID (fun st => (fst st, incr (snd st))) /\
  skipsExisting creditUpdateStep CreditUpdates.TableName mongoCreditUpdate.ID
                (fun st => (fst st, incr (snd st))) /\
  skipsExisting bankPaymentAutoApplyErrorStep BankPaymentAutoApplyError.TableName
                mongoBankPaymentAutoApplyError.ID (fun st => (fst st, incr (snd st))) /\
  (forall (o : mongoOrganization.t) (moved skipped demoUsesMoved : Z)
          (rest : list (error + mongoOrganization.t)) (w : World),
      present Organization.TableName (Hex (mongoOrganization.ID o)) w -> noFault 1 w ->
      tables (snd (organizationStep (inr o) (moved, skipped, demoUsesMoved) w))
        !! Organization.TableName = tables w !! Organization.TableName /\
      (forall st' : Z * Z * Z,
          fst (organizationStep (inr o) (moved, skipped, demoUsesMoved) w) = inr st' ->
          fst (fst st') = moved /\ snd (fst st') = incr skipped) /\
      (forall err : error,
          fst (organizationStep (inr o) (moved, skipped, demoUsesMoved) w) = inl err ->
          exists (args : list Arg) (cause : error),
            err = Errorf "org %s service_demo_use %s insert failed: %w" args cause) /\
      (noFault (1 + length (mongoOrganization.ServiceDemoUses o)) w ->
       is_Some (tables w !! OrganizationServiceDemoUses.TableName) ->
       exists (demoUsesMoved' : Z) (w' : World),
         forEach organizationStep (inr o :: rest) (moved, skipped, demoUsesMoved) w
         = forEach organizationStep rest (moved, incr skipped, demoUsesMoved') w' /\
         tables w' !! Organization.TableName = tables w !! Organization.TableName) /\
      (noFault (1 + length (mongoOrganization.ServiceDemoUses o)) w ->
       forall demos : list Row,
         tables w !! OrganizationServiceDemoUses.TableName = Some demos ->
         fst (organizationStep (inr o) (moved, skipped, demoUsesMoved) w)
         = inr (moved, incr skipped,
                Nat.iter (length (mongoOrganization.ServiceDemoUses o)) incr demoUsesMoved) /\
         tables (snd (organizationStep (inr o) (moved, skipped, demoUsesMoved) w))
         = <[OrganizationServiceDemoUses.TableName :=
               (demos ++ map (fun s => ROrganizationServiceDemoUses (demoUseRow o s))
                             (mongoOrganization.ServiceDemoUses o))%list]> (tables w))) /\
  (forall (p : mongoPackage.t) (moved skipped itemsMoved bonusMoved : Z)
          (rest : list (error + mongoPackage.t)) (w : World),
      present Package.TableName (Hex (mongoPackage.ID p)) w -> noFault 1 w ->
      tables (snd (packageStep (inr p) (moved, skipped, itemsMoved, bonusMoved) w))
        !! Package.TableName = tables w !! Package.TableName /\
      (forall st' : Z * Z * Z * Z,
          fst (packageStep (inr p) (moved, skipped, itemsMoved, bonusMoved) w) = inr st' ->
          fst (fst (fst st')) = moved /\ snd (fst (fst st')) = incr skipped) /\
      (forall err : error,
          fst (packageStep (inr p) (moved, skipped, itemsMoved, bonusMoved) w) = inl err ->
          exists (args : list Arg) (cause : error),
            err = Errorf "package %s item %d insert failed: %w" args cause \/
            err = Errorf "package %s bonus %s insert failed: %w" args cause) /\
      (noFault (1 + (length (mongoPackage.Items p)
                     + length (mongoPackage.OnActivationBonusPackages p))) w ->
       is_Some (tables w !! PackageItem.TableName) ->
       is_Some (tables w !! PackageActivationBonusPackage.TableName) ->
       exists (itemsMoved' bonusMoved' : Z) (w' : World),
         forEach packageStep (inr p :: rest) (moved, skipped, itemsMoved, bonusMoved) w
         = forEach packageStep rest (moved, incr skipped, itemsMoved', bonusMoved') w' /\
         tables w' !! Package.TableName = tables w !! Package.TableName) /\
      (noFault (1 + (length (mongoPackage.Items p)
                     + length (mongoPackage.OnActivationBonusPackages p))) w ->
       forall items bonuses : list Row,
         tables w !! PackageItem.TableName = Some items ->
         tables w !! PackageActivationBonusPackage.TableName = Some bonuses ->
         fst (packageStep (inr p) (moved, skipped, itemsMoved, bonusMoved) w)
         = inr (moved, incr skipped,
                Nat.iter (length (mongoPackage.Items p)) incr itemsMoved,
                Nat.iter (length (mongoPackage.OnActivationBonusPackages p)) incr
                         bonusMoved) /\
         tables (snd (packageStep (inr p) (moved, skipped, itemsMoved, bonusMoved) w))
         = <[PackageActivationBonusPackage.TableName :=
               (bonuses ++ map (fun b => RPackageActivationBonusPackage (bonusPackageRow p b))
                               (mongoPackage.OnActivationBonusPackages p))%list]>
             (<[PackageItem.TableName :=
                  match mongoPackage.Items p with
                  | [] => items
                  | item :: _ =>
                      if existsb (conflicts (RPackageItem (packageItemRow p item))) items
                      then items
                      else (items ++ [RPackageItem (packageItemRow p item)])%list
                  end]> (tables w)))) /\
  (forall (table id : string) (w : World),
      ~ noFault 1 w -> fst (checkRecordExists table id w) = false).
Proof.
  split; [exact skips_service |].
  split; [exact skips_boughtPackage |].
  split; [exact skips_charge |].
  split; [exact skips_payment |].
  split; [exact skips_paymeTransaction |].
  split; [exact skips_organizationBalanceBinding |].
  split; [exact skips_creditUpdate |].
  split; [exact skips_bankPaymentAutoApplyError |].
  split; [| split].
  - intros o moved skipped demoUsesMoved rest w Hp Hn.
    destruct (organization_skip o moved skipped demoUsesMoved rest w Hp Hn)
      as (H1 & H2 & H3 & H4).
    repeat (split; [assumption |]).
    intros Hn' demos Hd.
    exact (organization_skip_children o moved skipped demoUsesMoved demos w Hp Hn' Hd).
  - intros p moved skipped itemsMoved bonusMoved rest w Hp Hn.
    destruct (package_skip p moved skipped itemsMoved bonusMoved rest w Hp Hn)
      as (H1 & H2 & H3 & H4).
    repeat (split; [assumption |]).
    intros Hn' items bonuses Hi Hb.
    exact (package_skip_children p moved skipped itemsMoved bonusMoved items bonuses w
             Hp Hn' Hi Hb).
  - intros table id w Hn. apply not_true_is_false. intros Hfound.
    apply Hn. now apply (checkRecordExists_facts table id w).
Qed.

(** The sample service is stored already and the query succeeds: it is
    skipped and the destination is left as it is.  The sample organization
    is stored already, with its demo use: it is skipped and the demo use is
    stored a second time. *)
Lemma existing_documents_are_skipped_witness :
  (exists w' : World,
      forEach serviceStep [inr sampleService] (0, 0) (worldWithService [])
      = (inr (0, 1), w') /\
      tables w' = tables (worldWithService [])) /\
  fst (organizationStep (inr sampleOrganization) (0, 0, 0) migratedOrganization)
  = inr (0, 1, 1) /\
  tables (snd (organizationStep (inr sampleOrganization) (0, 0, 0) migratedOrganization))
  !! OrganizationServiceDemoUses.TableName
  = Some [ROrganizationServiceDemoUses
            (demoUseRow sampleOrganization (ServiceRef.mk (sampleID Byte.x0a) "EDI" "edi"));
          ROrganizationServiceDemoUses
            (demoUseRow sampleOrganization (ServiceRef.mk (sampleID Byte.x0a) "EDI" "edi"))].
Proof.
  destruct existing_documents_are_skipped as (H & _ & _ & _ & _ & _ & _ & _ & Horg & _).
  split.
  - destruct (H sampleService (0, 0) [] (worldWithService [])) as (w' & Hrun & Ht).
    + exists [RService (serviceRow sampleService)], (RService (serviceRow sampleService)).
      split; [reflexivity |]. split; [now left | reflexivity].
    + reflexivity.
    + exists w'. split; [exact Hrun | exact Ht].
  - destruct (Horg sampleOrganization 0 0 0 [] migratedOrganization) as (_ & _ & _ & _ & Hch).
    + exists [ROrganization (organizationRow sampleOrganization)],
             (ROrganization (organizationRow sampleOrganization)).
      split; [reflexivity |]. split; [now left | reflexivity].
    + reflexivity.
    + destruct (Hch eq_refl
                  [ROrganizationServiceDemoUses
                     (demoUseRow sampleOrganization
                                 (ServiceRef.mk (sampleID Byte.x0a) "EDI" "edi"))]
                  eq_refl) as [Hr Ht].
      split; [exact Hr |]. rewrite Ht. apply lookup_insert_eq.
Defined.

(** The sample service is stored already but the existence query fails: the
    service is taken for new, the insert is attempted and rejected as a
    duplicate, and the migrator returns that error instead of skipping.  The
    sample organization is stored already and the query succeeds, but the
    write of its demo use fails: the migrator returns that error instead of
    going on. *)
Lemma existing_document_not_skipped_when_query_fails :
  present Service.TableName (Hex (mongoService.ID sampleService)) (worldWithService [true]) /\
  fst (serviceStep (inr sampleService) (0, 0) (worldWithService [true]))
  = inl (Errorf "service %s insert failed: %w" [AStr "000000000000000000000006"]
                (Driver DuplicateEntry)) /\
  fst (migrateServices serviceSource (worldWithService [false; true]))
  = Some (Errorf "service %s insert failed: %w" [AStr "000000000000000000000006"]
                 (Driver DuplicateEntry)) /\
  present Organization.TableName (Hex (mongoOrganization.ID sampleOrganization))
          (worldWithOrganization [false; true]) /\
  fst (organizationStep (inr sampleOrganization) (0, 0, 0)
                        (worldWithOrganization [false; true]))
  = inl (Errorf "org %s service_demo_use %s insert failed: %w"
                [AStr "000000000000000000000001"; AStr "edi"] (Driver Unavailable)).
Proof.
  split.
  { exists [RService (serviceRow sampleService)], (RService (serviceRow sampleService)).
    split; [reflexivity |]. split; [now left | reflexivity]. }
  split; [vm_compute; reflexivity |].
  split; [vm_compute; reflexivity |].
  split; [| vm_compute; reflexivity].
  exists [ROrganization (organizationRow sampleOrganization)],
         (ROrganization (organizationRow sampleOrganization)).
  split; [reflexivity |]. split; [now left | reflexivity].
Qed.

(** ** The creation timestamp of a Payme transaction that is stored *)

(** C6. The step of a Payme transaction writes nothing or appends one row to
    [payme_transactions], and it appends it when the transaction is not
    stored yet and neither call fails.  The [payme_created_at] of that row
    is the source value when the sanitizer accepts it, else the document's
    [created_at] when the sanitizer accepts that, else the reading of the
    clock at that moment (so it is within one second of it); it is never the
    zero time as long as the clock does not return the zero time. *)
Theorem paymeCreatedAt_fallback (pt : mongoPaymeTransaction.t) (moved skipped : Z)
    (w : World) :
  exists stored : Time,
    stored = fst (paymeCreatedAt pt w) /\
    (tables (snd (paymeTransactionStep (inr pt) (moved, skipped) w)) = tables w \/
     exists rows : list Row,
       tables w !! PaymeTransaction.TableName = Some rows /\
       tables (snd (paymeTransactionStep (inr pt) (moved, skipped) w))
       = <[PaymeTransaction.TableName :=
             (rows ++ [RPaymeTransaction (paymeTransactionRow pt stored)])%list]>
           (tables w)) /\
    (forall rows : list Row,
        tables w !! PaymeTransaction.TableName = Some rows -> noFault 2 w ->
        (forall x : Row, In x rows ->
            primaryKey x <> Some (Hex (mongoPaymeTransaction.ID pt))) ->
        fst (paymeTransactionStep (inr pt) (moved, skipped) w) = inr (incr moved, skipped) /\
        tables (snd (paymeTransactionStep (inr pt) (moved, skipped) w))
        = <[PaymeTransaction.TableName :=
              (rows ++ [RPaymeTransaction (paymeTransactionRow pt stored)])%list]>
            (tables w)) /\
    PaymeTransaction.PaymeCreatedAt (paymeTransactionRow pt stored) = stored /\
    (validateDateTime (mongoPaymeTransaction.PaymeCreatedAt pt) <> None ->
     stored = mongoPaymeTransaction.PaymeCreatedAt pt) /\
    (validateDateTime (mongoPaymeTransaction.PaymeCreatedAt pt) = None ->
     validateDateTime (mongoPaymeTransaction.CreatedAt pt) <> None ->
     stored = mongoPaymeTransaction.CreatedAt pt) /\
    (validateDateTime (mongoPaymeTransaction.PaymeCreatedAt pt) = None ->
     validateDateTime (mongoPaymeTransaction.CreatedAt pt) = None ->
     stored = clock w (ticks w) /\ Z.abs (sec stored - sec (clock w (ticks w))) <= 1) /\
    (IsZero (clock w (ticks w)) = false -> IsZero stored = false).
Proof.
  exists (fst (paymeCreatedAt pt w)).
  destruct (paymeCreatedAt_cases pt w) as (H1 & H2 & H3 & H4 & _).
  split; [reflexivity |].
  split; [apply paymeTransactionStep_stores |].
  split.
  { intros rows Ht Hn Habs.
    destruct (new_paymeTransaction pt moved skipped rows 0 w Ht Hn Habs) as (Hr & Htab & _).
    auto. }
  split; [reflexivity |].
  split; [exact H1 |].
  split; [exact H2 |].
  split; [| exact H4].
  intros Hp Hc. rewrite (H3 Hp Hc). split; [reflexivity | lia].
Qed.

(** The undated transaction, not stored yet, is stored with the reading of
    the clock, which is not the zero time. *)
Lemma paymeCreatedAt_fallback_witness :
  fst (paymeTransactionStep (inr undatedPayme) (0, 0) freshWorld) = inr (1, 0) /\
  tables (snd (paymeTransactionStep (inr undatedPayme) (0, 0) freshWorld))
  = <[PaymeTransaction.TableName :=
        [RPaymeTransaction (paymeTransactionRow undatedPayme sampleTime)]]>
      (tables freshWorld) /\
  IsZero sampleTime = false.
Proof.
  destruct (paymeCreatedAt_fallback undatedPayme 0 0 freshWorld)
    as (stored & _ & _ & Hnew & _ & _ & _ & Hclock & Hzero).
  destruct Hclock as [Hs _]; [reflexivity | reflexivity |].
  change (clock freshWorld (ticks freshWorld)) with sampleTime in Hs, Hzero. subst stored.
  destruct (Hnew []) as [Hr Ht].
  - reflexivity.
  - reflexivity.
  - intros x [].
  - split; [exact Hr |]. split; [exact Ht |]. apply Hzero. reflexivity.
Defined.

(** ** Timestamps that reach a timestamp column *)

(** X2. Every nullable timestamp column of a row the migrators build
    (deletion and offer dates of organizations, both dates of charges,
    completion and cancellation times of Payme transactions, deletion date of
    balance bindings) holds nil or a timestamp that is not the zero time and
    whose year lies in 1970..2100; the mandatory creation timestamp of the
    row the step of a Payme transaction stores passes the sanitizer whenever
    the reading of the clock does. *)
Theorem nullable_timestamps_storable (Parse : string -> string -> error + Time) :
  (forall o : mongoOrganization.t,
      storable (Organization.DeletedAt (organizationRow o)) /\
      storable (Organization.OfferDate (organizationRow o))) /\
  (forall c : mongoCharge.t,
      storable (Charge.Date1 (chargeRow Parse c)) /\
      storable (Charge.Date2 (chargeRow Parse c))) /\
  (forall (pt : mongoPaymeTransaction.t) (t : Time),
      storable (PaymeTransaction.SystemCompletedAt (paymeTransactionRow pt t)) /\
      storable (PaymeTransaction.SystemCanceledAt (paymeTransactionRow pt t))) /\
  (forall obb : mongoOrganizationBalanceBinding.t,
      storable (OrganizationBalanceBinding.DeletedAt (organizationBalanceBindingRow obb))) /\
  (forall (pt : mongoPaymeTransaction.t) (st : Z * Z) (w : World),
      validateDateTime (clock w (ticks w)) <> None ->
      tables (snd (paymeTransactionStep (inr pt) st w)) = tables w \/
      exists (rows : list Row) (row : PaymeTransaction.t),
        tables w !! PaymeTransaction.TableName = Some rows /\
        tables (snd (paymeTransactionStep (inr pt) st w))
        = <[PaymeTransaction.TableName := (rows ++ [RPaymeTransaction row])%list]>
            (tables w) /\
        validateDateTime (PaymeTransaction.PaymeCreatedAt row)
        = Some (PaymeTransaction.PaymeCreatedAt row) /\
        storable (Some (PaymeTransaction.PaymeCreatedAt row)) /\
        storable (PaymeTransaction.SystemCompletedAt row) /\
        storable (PaymeTransaction.SystemCanceledAt row)).
Proof.
  split; [intros o; split; apply validated_storable |].
  split; [intros c; split; apply validated_storable |].
  split; [intros pt t; split; apply validated_storable |].
  split; [intros obb; apply validated_storable |].
  intros pt st w Hclock.
  destruct (paymeTransactionStep_stores pt st w) as [Hsame | (rows & Hrows & Htab)];
    [left; exact Hsame | right].
  exists rows, (paymeTransactionRow pt (fst (paymeCreatedAt pt w))).
  destruct (paymeCreatedAt_cases pt w) as (_ & _ & _ & _ & Hv).
  specialize (Hv Hclock).
  split; [exact Hrows |]. split; [exact Htab |]. cbn [PaymeTransaction.PaymeCreatedAt].
  split; [exact Hv |].
  split.
  { pose proof (validateDateTime_storable (fst (paymeCreatedAt pt w))) as Hs.
    rewrite Hv in Hs. exact Hs. }
  split; apply validated_storable.
Qed.

Lemma nullable_timestamps_storable_witness :
  validateDateTime (clock freshWorld (ticks freshWorld)) <> None /\
  (tables (snd (paymeTransactionStep (inr undatedPayme) (0, 0) freshWorld))
   = tables freshWorld \/
   exists (rows : list Row) (row : PaymeTransaction.t),
     tables freshWorld !! PaymeTransaction.TableName = Some rows /\
     tables (snd (paymeTransactionStep (inr undatedPayme) (0, 0) freshWorld))
     = <[PaymeTransaction.TableName := (rows ++ [RPaymeTransaction row])%list]>
         (tables freshWorld) /\
     validateDateTime (PaymeTransaction.PaymeCreatedAt row)
     = Some (PaymeTransaction.PaymeCreatedAt row) /\
     storable (Some (PaymeTransaction.PaymeCreatedAt row)) /\
     storable (PaymeTransaction.SystemCompletedAt row) /\
     storable (PaymeTransaction.SystemCanceledAt row)).
Proof.
  assert (H : validateDateTime (clock freshWorld (ticks freshWorld)) <> None)
    by (vm_compute; discriminate).
  split; [exact H |].
  destruct (nullable_timestamps_storable rejectAll) as (_ & _ & _ & _ & Hstep).
  exact (Hstep undatedPayme (0, 0) freshWorld H).
Defined.
